(** * CountMinSketch: a shallow embedding of cachelib/common/CountMinSketch.h

    The class template [CountMinSketchBase<UINT>] is embedded as a record
    with explicit state passing.  Counters and dimensions are fixed-width
    unsigned integers, written here as [Z] with the wrap-around spelled
    out; a [double] is an IEEE-754 binary64 value, with the operations of
    [SpecFloat].  An operation yields a [result]: a value, a thrown C++
    exception, or undefined behaviour (an access outside the table, a
    remainder by zero, a floating-point value that does not fit its
    integer target). *)

From Stdlib Require Import ZArith Lia String SpecFloat.
From stdpp Require Import base list.

Local Open Scope Z_scope.

(** ** Doubles *)

Definition double := spec_float.

Definition prec : Z := 53.
Definition emax : Z := 1024.

Definition dmul : double -> double -> double := SFmul prec emax.
Definition ddiv : double -> double -> double := SFdiv prec emax.
Definition dsub : double -> double -> double := SFsub prec emax.
Definition dabs : double -> double := SFabs.

(** [a <= b] and [a >= b] on doubles; both are false when an operand is
    NaN. *)
Definition dle (a b : double) : bool := SFleb a b.
Definition dge (a b : double) : bool := SFleb b a.
Definition dlt (a b : double) : bool := SFltb a b.

(** Conversion of an integer to [double] (round to nearest even). *)
Definition double_of_Z (n : Z) : double := binary_normalize prec emax n 0 false.

Definition d0 : double := double_of_Z 0.
Definition d1 : double := double_of_Z 1.
Definition d2 : double := double_of_Z 2.

(** A [double] is one of the values of the format. *)
Definition is_double (x : double) : Prop := valid_binary prec emax x = true.

(** [x] lies in the open interval (0,1); [x <= 0] or [x >= 1]. *)
Definition inside_unit (x : double) : Prop :=
  dlt d0 x = true /\ dlt x d1 = true.

Definition outside_unit (x : double) : Prop :=
  dle x d0 = true \/ dge x d1 = true.

(** The binary64 values nearest to 0.01, 0.99, 1e-10, 0.5 and 1/3. *)
Definition d_0_01 : double := S754_finite false 5764607523034235 (-59).
Definition d_0_99 : double := S754_finite false 8917127262193582 (-53).
Definition d_1e_10 : double := S754_finite false 7737125245533627 (-86).
Definition d_0_5 : double := S754_finite false 4503599627370496 (-53).
Definition d_third : double := S754_finite false 6004799503160661 (-54).

(** The natural logarithms of [1 - 0.99] (in binary64) and of 2, rounded
    to nearest: -4.605170185988091 and 0.6931471805599453. *)
Definition ln_0_01 : double := S754_finite true 5184960683398421 (-50).
Definition ln_2 : double := S754_finite false 6243314768165359 (-53).

(** A logarithm that is right at these two arguments. *)
Definition sample_log (x : double) : double :=
  if SFeqb x d2 then ln_2 else ln_0_01.

(** The value of a double with its fractional part discarded (rounding
    toward zero); NaN and the infinities have none. *)
Definition dtrunc (x : double) : option Z :=
  match x with
  | S754_zero _ => Some 0
  | S754_finite s m e => Some (cond_Zopp s (Z.shiftl (Zpos m) e))
  | _ => None
  end.

(** The largest integer not above the value of a double. *)
Definition dfloor (x : double) : option Z :=
  match x with
  | S754_zero _ => Some 0
  | S754_finite s m e => Some (Z.shiftl (cond_Zopp s (Zpos m)) e)
  | _ => None
  end.

(** [std::ceil]: its result is an integral double, exactly representable,
    kept here as the integer it denotes. *)
Definition dceil (x : double) : option Z :=
  match x with
  | S754_zero _ => Some 0
  | S754_finite s m e => Some (- Z.shiftl (- cond_Zopp s (Zpos m)) e)
  | _ => None
  end.

(** ** Outcomes of an operation *)

(** The value interpolated into an exception message. *)
Inductive value :=
  | VUInt (n : Z)
  | VDouble (x : double).

(** [std::invalid_argument{folly::sformat(fmt, arg)}]: the format text
    and the interpolated argument. *)
Inductive exn :=
  | invalid_argument (fmt : string) (arg : value).

Inductive result (A : Type) :=
  | Ok (a : A)
  | Throw (e : exn)
  | Undefined.

Arguments Ok {A} a.
Arguments Throw {A} e.
Arguments Undefined {A}.

#[global] Instance result_ret : MRet result := @Ok.
#[global] Instance result_bind : MBind result := fun A B f m =>
  match m with
  | Ok a => f a
  | Throw e => Throw e
  | Undefined => Undefined
  end.

(** [for (i = start; i < start + n; i++) body], threading the state. *)
Fixpoint for_loop {St : Type} (n : nat) (i : Z) (body : Z -> St -> result St)
    (s : St) : result St :=
  match n with
  | O => Ok s
  | S n' => s' ← body i s; for_loop n' (i + 1) body s'
  end.

(** Two outcomes that agree: both return, with related results, both
    throw the same exception, or both are undefined. *)
Definition outcome_rel {A : Type} (R : A -> A -> Prop) (x y : result A)
    : Prop :=
  match x, y with
  | Ok a, Ok b => R a b
  | Throw e, Throw e' => e = e'
  | Undefined, Undefined => True
  | _, _ => False
  end.

(** ** Fixed-width unsigned arithmetic *)

Definition u32 (x : Z) : Z := x mod 2 ^ 32.
Definition u64 (x : Z) : Z := x mod 2 ^ 64.

(** Modelled from the spec: [narrow_cast] of cachelib/common/Utils.h is not
    part of the sources; it narrows a double into a [w]-bit unsigned
    integer by truncation, a plain conversion that raises nothing.  The
    conversion is undefined when the truncated value is not a value of the
    target type.  The argument is the integral part of the double. *)
Definition narrow_cast (w : Z) (v : option Z) : result Z :=
  match v with
  | Some z => if (0 <=? z) && (z <? 2 ^ w) then Ok z else Undefined
  | None => Undefined
  end.

(** ** The sketch *)

Record CountMinSketchBase := {
  width_ : Z;
  depth_ : Z;
  saturated : Z;
  table_ : list Z
}.

Definition set_table (s : CountMinSketchBase) (t : list Z) :=
  {| width_ := width_ s; depth_ := depth_ s;
     saturated := saturated s; table_ := t |}.

Definition set_saturated (s : CountMinSketchBase) (n : Z) :=
  {| width_ := width_ s; depth_ := depth_ s;
     saturated := n; table_ := table_ s |}.

(** [table_[index]] as an rvalue: reading outside the array is undefined. *)
Definition load (s : CountMinSketchBase) (index : Z) : result Z :=
  match table_ s !! Z.to_nat index with
  | Some v => Ok v
  | None => Undefined
  end.

(** [table_[index] = v]. *)
Definition store (s : CountMinSketchBase) (index v : Z)
    : result CountMinSketchBase :=
  match table_ s !! Z.to_nat index with
  | Some _ => Ok (set_table s (<[Z.to_nat index := v]> (table_ s)))
  | None => Undefined
  end.

Definition width (s : CountMinSketchBase) : Z := width_ s.
Definition depth (s : CountMinSketchBase) : Z := depth_ s.
Definition getSaturatedCounts (s : CountMinSketchBase) : Z := saturated s.

(** [CountMinSketchBase() = default]: the default member initialisers. *)
Definition CountMinSketchBase_default : CountMinSketchBase :=
  {| width_ := 0; depth_ := 0; saturated := 0; table_ := [] |}.

(** [CountMinSketchBase(CountMinSketchBase&& other)]: the new object and
    what is left of [other], whose table pointer is null afterwards.  The
    initialiser list does not mention [saturated]. *)
Definition CountMinSketchBase_move (other : CountMinSketchBase)
    : CountMinSketchBase * CountMinSketchBase :=
  ({| width_ := width_ other; depth_ := depth_ other;
      saturated := 0; table_ := table_ other |},
   {| width_ := 0; depth_ := 0;
      saturated := saturated other; table_ := [] |}).

(** [operator=(CountMinSketchBase&& other)], on the objects at the
    addresses [this] and [other] of a store: a self-assignment is skipped;
    otherwise [*this] is destroyed and constructed anew by the move
    constructor from [other]. *)
Definition CountMinSketchBase_move_assign (h : list CountMinSketchBase)
    (this other : nat) : option (list CountMinSketchBase) :=
  match h !! this, h !! other with
  | Some _, Some o =>
      if decide (this = other) then Some h
      else
        let '(fresh, moved) := CountMinSketchBase_move o in
        Some (<[this := fresh]> (<[other := moved]> h))
  | _, _ => None
  end.

(** [reset()]. *)
Definition reset (s : CountMinSketchBase) : result CountMinSketchBase :=
  let tableSize := u32 (width_ s * depth_ s) in
  for_loop (Z.to_nat tableSize) 0 (fun i s => store s i 0) s.

(** [std::make_unique<UINT[]>(n)]: [n] value-initialised counters. *)
Definition make_unique (n : Z) : list Z := replicate (Z.to_nat n) 0.

(** [CountMinSketchBase(uint32_t width, uint32_t depth)]. *)
Definition CountMinSketchBase_dimensions (width depth : Z)
    : result CountMinSketchBase :=
  let s := {| width_ := width; depth_ := depth;
              saturated := 0; table_ := [] |} in
  if width_ s =? 0 then
    Throw (invalid_argument "Width must be greater than 0. Width: {}"
                            (VUInt width))
  else if depth_ s =? 0 then
    Throw (invalid_argument "Depth must be greater than 0. Depth: {}"
                            (VUInt depth))
  else
    reset (set_table s (make_unique (u32 (width_ s * depth_ s)))).

Definition calculateWidth (error : double) (maxWidth : Z) : result Z :=
  if dle error d0 || dge error d1 then
    Throw (invalid_argument
             "Error should be greater than 0 and less than 1. Error: {}"
             (VDouble error))
  else
    width ← narrow_cast 32 (dceil (ddiv d2 error));
    Ok (if 0 <? maxWidth then Z.min maxWidth width else width).

(** A deterministic pair of hash functions and a small sketch of 8-bit
    counters (2 rows of 2 columns), to run the model on concrete inputs. *)
Definition sample_hashInt (x : Z) : Z := x * 7 + 3.
Definition sample_combineHashes (a b : Z) : Z := a + b.
Definition sample_sketch : CountMinSketchBase :=
  {| width_ := 2; depth_ := 2; saturated := 0; table_ := [3; 1; 1; 3] |}.

(** What [CountMinSketchBase(2, 2)] constructs. *)
Definition sample_fresh : CountMinSketchBase :=
  {| width_ := 2; depth_ := 2; saturated := 0; table_ := [0; 0; 0; 0] |}.

(** A pair of hash functions that give a key, in row 0, its column of
    the other rows plus 16. *)
Definition shifting_hashInt (x : Z) : Z := x.
Definition shifting_combineHashes (a b : Z) : Z :=
  if a =? 0 then b + 16 else b.

(** The sketch of one row and one column. *)
Definition one_cell (c sat : Z) : CountMinSketchBase :=
  {| width_ := 1; depth_ := 1; saturated := sat; table_ := [c] |}.

Section Sketch.

(** The hash primitives of cachelib/common/Hash.h, which is not part of
    the sources, are parameters: [hashInt] is the integer hash and
    [combineHashes] the hash-combining function.  Nothing is assumed of
    them; their results are reduced to 64 bits where they are used. *)
Context (hashInt : Z -> Z) (combineHashes : Z -> Z -> Z).

(** [std::log] of the C library, which the language leaves to the
    implementation. *)
Context (log : double -> double).

(** The number of bits of the counter type [UINT] (8, 16 or 32). *)
Context (bits : Z).

(** Conversion of an [int]/[unsigned] value back into [UINT]. *)
Definition to_UINT (x : Z) : Z := x mod 2 ^ bits.

Definition getMaxCount : Z := 2 ^ bits - 1.

Definition getByteSize (s : CountMinSketchBase) : Z :=
  u64 (u32 (width_ s * depth_ s) * (bits / 8)).

Definition calculateDepth (probability : double) (maxDepth : Z) : result Z :=
  if dle probability d0 || dge probability d1 then
    Throw (invalid_argument
      "Probability should be greater than 0 and less than 1. Probability: {}"
      (VDouble probability))
  else
    depth ← narrow_cast 32
      (dceil (dabs (ddiv (log (dsub d1 probability)) (log d2))));
    let depth := Z.max 1 depth in
    Ok (if 0 <? maxDepth then Z.min maxDepth depth else depth).

(** [CountMinSketchBase(error, probability, maxWidth, maxDepth)]: the
    braced initialiser evaluates [calculateWidth] before
    [calculateDepth]. *)
Definition CountMinSketchBase_accuracy (error probability : double)
    (maxWidth maxDepth : Z) : result CountMinSketchBase :=
  width ← calculateWidth error maxWidth;
  depth ← calculateDepth probability maxDepth;
  CountMinSketchBase_dimensions width depth.

Definition getIndex (s : CountMinSketchBase) (hashNum key : Z) : result Z :=
  if width_ s =? 0 then Undefined
  else
    let rowIndex := u64 (combineHashes (hashInt hashNum) key) mod width_ s in
    Ok (u64 (u32 (hashNum * width_ s) + rowIndex)).

Definition increment_row (key hashNum : Z) (s : CountMinSketchBase)
    : result CountMinSketchBase :=
  index ← getIndex s hashNum key;
  c ← load s index;
  if c <? getMaxCount then
    s1 ← store s index (to_UINT (c + 1));
    c1 ← load s1 index;
    if c1 =? getMaxCount
    then Ok (set_saturated s1 (u64 (saturated s1 + 1)))
    else Ok s1
  else Ok s.

Definition increment (s : CountMinSketchBase) (key : Z)
    : result CountMinSketchBase :=
  for_loop (Z.to_nat (depth_ s)) 0 (increment_row key) s.

Definition getCount_row (s : CountMinSketchBase) (key hashNum count : Z)
    : result Z :=
  index ← getIndex s hashNum key;
  c ← load s index;
  Ok (Z.min count c).

Definition getCount (s : CountMinSketchBase) (key : Z) : result Z :=
  count ← for_loop (Z.to_nat (depth_ s)) 0 (getCount_row s key) getMaxCount;
  Ok (to_UINT (count * (if depth_ s =? 0 then 0 else 1))).

Definition resetCount_row (key count hashNum : Z) (s : CountMinSketchBase)
    : result CountMinSketchBase :=
  index ← getIndex s hashNum key;
  c ← load s index;
  store s index (to_UINT (c - count)).

Definition resetCount (s : CountMinSketchBase) (key : Z)
    : result CountMinSketchBase :=
  count ← getCount s key;
  for_loop (Z.to_nat (depth_ s)) 0 (resetCount_row key count) s.

Definition decay_cell (decay : double) (i : Z) (s : CountMinSketchBase)
    : result CountMinSketchBase :=
  c ← load s i;
  v ← narrow_cast bits (dtrunc (dmul (double_of_Z c) decay));
  store s i v.

Definition decayCountsBy (s : CountMinSketchBase) (decay : double)
    : result CountMinSketchBase :=
  let tableSize := u32 (width_ s * depth_ s) in
  for_loop (Z.to_nat tableSize) 0 (decay_cell decay) s.

(** ** Sequences of calls *)

Inductive call :=
  | Increment (key : Z)
  | GetCount (key : Z)
  | ResetCount (key : Z)
  | DecayCountsBy (decay : double)
  | Reset.

Definition perform (s : CountMinSketchBase) (c : call)
    : result CountMinSketchBase :=
  match c with
  | Increment key => increment s key
  | GetCount key => _ ← getCount s key; Ok s
  | ResetCount key => resetCount s key
  | DecayCountsBy decay => decayCountsBy s decay
  | Reset => reset s
  end.

Fixpoint run (s : CountMinSketchBase) (cs : list call)
    : result CountMinSketchBase :=
  match cs with
  | [] => Ok s
  | c :: cs' => s' ← perform s c; run s' cs'
  end.

(** ** Well-formed sketches and the vocabulary of the statements *)

(** The state of a sketch whose table has one counter per cell of the
    [depth_] x [width_] grid, the grid being small enough for 32-bit
    index arithmetic. *)
Record wf (s : CountMinSketchBase) : Prop := {
  wf_bits : 0 < bits;
  wf_width : 0 <= width_ s;
  wf_depth : 0 <= depth_ s;
  wf_dims : 0 < depth_ s -> 0 < width_ s;
  wf_fits : width_ s * depth_ s < 2 ^ 32;
  wf_size : Z.of_nat (length (table_ s)) = width_ s * depth_ s;
  wf_cells : Forall (fun v => 0 <= v <= getMaxCount) (table_ s)
}.

(** The column of [key] in row [row], and its cell index as the
    specification writes it. *)
Definition column (s : CountMinSketchBase) (row key : Z) : Z :=
  u64 (combineHashes (hashInt row) key) mod width_ s.

Definition index (s : CountMinSketchBase) (row key : Z) : Z :=
  row * width_ s + column s row key.

(** The content of a cell. *)
Definition cell (s : CountMinSketchBase) (i : Z) : Z :=
  default 0 (table_ s !! Z.to_nat i).

(** The cells hold values of the counter type. *)
Definition cells_ok (s : CountMinSketchBase) : Prop :=
  Forall (fun v => 0 <= v <= getMaxCount) (table_ s).

(** The index as [getIndex] computes it, with its 32-bit product. *)
Definition raw_index (s : CountMinSketchBase) (row key : Z) : Z :=
  u64 (u32 (row * width_ s) + column s row key).

(** The cells of [key], one per row. *)
Definition cells_of (s : CountMinSketchBase) (key : Z) : list Z :=
  map (fun row => cell s (index s (Z.of_nat row) key))
      (seq 0 (Z.to_nat (depth_ s))).

(** The minimum of a list; a list without elements has none. *)
Fixpoint minimum (l : list Z) : option Z :=
  match l with
  | [] => None
  | x :: l' =>
      match minimum l' with
      | None => Some x
      | Some m => Some (Z.min x m)
      end
  end.

(** The number of [increment(key)] calls in a sequence of keys. *)
Definition calls_of (key : Z) (keys : list Z) : Z :=
  Z.of_nat (length (filter (fun k => k = key) keys)).

(** The number of cells at the maximum of the counter type. *)
Definition saturated_cells (s : CountMinSketchBase) : Z :=
  Z.of_nat (length (filter (fun v => v = getMaxCount) (table_ s))).

(** The state after the first [n] iterations of the loop of
    [resetCount]: the cells of the rows below [n] have lost [c], the
    others are as they were. *)
Definition resetCount_inv (s : CountMinSketchBase) (key c n : Z)
    (t : CountMinSketchBase) : Prop :=
  wf t /\ width_ t = width_ s /\ depth_ t = depth_ s /\
  saturated t = saturated s /\
  (forall row, 0 <= row < n ->
     cell t (index s row key) = cell s (index s row key) - c) /\
  (forall i, 0 <= i ->
     (forall row, 0 <= row < n -> i <> index s row key) ->
     cell t i = cell s i).

(** Two states of one sketch: same dimensions, same table size. *)
Definition same_shape (s s' : CountMinSketchBase) : Prop :=
  width_ s' = width_ s /\ depth_ s' = depth_ s /\
  length (table_ s') = length (table_ s).

(** The calls other than [increment]; the calls that only count. *)
Definition not_increment (c : call) : Prop :=
  match c with Increment _ => False | _ => True end.

Definition counting_call (c : call) : Prop :=
  match c with Increment _ | GetCount _ => True | _ => False end.

(** Two sketches with the same dimensions and the same cells; they may
    differ in the saturation counter. *)
Definition same_cells (s t : CountMinSketchBase) : Prop :=
  width_ t = width_ s /\ depth_ t = depth_ s /\ table_ t = table_ s.

(** The column of [key] in row [row] of a sketch of width [w]. *)
Definition column_at (w row key : Z) : Z :=
  u64 (combineHashes (hashInt row) key) mod w.

(** A width [w] with [2^32 < 2 * w] and [3 * w < 2^33], and a key whose
    cell in row 1 lies inside the [3 * w - 2^32] cells that the
    constructor allocates for three rows, and whose cells in the rows 0
    and 2 are one cell. *)
Definition shares_cell (w key : Z) : Prop :=
  2 ^ 31 < w /\ 3 * w < 2 ^ 33 /\
  column_at w 1 key < 2 * w - 2 ^ 32 /\
  column_at w 0 key = 2 * w - 2 ^ 32 + column_at w 2 key.

(** The states of a sketch of three rows of width [w], as constructed. *)
Definition three_rows (w : Z) (s : CountMinSketchBase) : Prop :=
  width_ s = w /\ depth_ s = 3 /\
  Z.of_nat (length (table_ s)) = 3 * w - 2 ^ 32 /\ cells_ok s.

(** The calls whose decay factor, if any, lies between 0 and 1. *)
Definition unit_decay (c : call) : Prop :=
  match c with
  | DecayCountsBy d => is_double d /\ dle d0 d = true /\ dle d d1 = true
  | _ => True
  end.

(** [i] is the index of the cell of [key] in the row that holds [i]. *)
Definition touches (s : CountMinSketchBase) (key i : Z) : bool :=
  (i / width_ s <? depth_ s) && (i =? index s (i / width_ s) key).

(** ** Loop rules *)

(** Total correctness: an invariant that every iteration re-establishes
    while returning normally holds after the loop, which returns normally. *)
Lemma for_loop_total {St : Type} (I : Z -> St -> Prop) (body : Z -> St -> result St) :
  forall (n : nat) (i : Z) (s : St),
    I i s ->
    (forall j s1, i <= j < i + Z.of_nat n -> I j s1 ->
       exists s2, body j s1 = Ok s2 /\ I (j + 1) s2) ->
    exists s', for_loop n i body s = Ok s' /\ I (i + Z.of_nat n) s'.
Proof.
  induction n as [|n IH]; intros i s Hi Hstep; simpl.
  - exists s. split; [reflexivity|]. now replace (i + Z.of_nat 0) with i by lia.
  - destruct (Hstep i s) as (s2 & Hb & Hi2); [lia|assumption|].
    rewrite Hb. simpl.
    destruct (IH (i + 1) s2 Hi2) as (s' & Hl & Hs').
    { intros j s1 Hj. apply Hstep. lia. }
    exists s'. split; [assumption|].
    now replace (i + Z.of_nat (S n)) with (i + 1 + Z.of_nat n) by lia.
Qed.

(** Partial correctness: whenever the loop returns normally. *)
Lemma for_loop_partial {St : Type} (I : Z -> St -> Prop) (body : Z -> St -> result St) :
  forall (n : nat) (i : Z) (s s' : St),
    for_loop n i body s = Ok s' ->
    I i s ->
    (forall j s1 s2, i <= j < i + Z.of_nat n -> I j s1 ->
       body j s1 = Ok s2 -> I (j + 1) s2) ->
    I (i + Z.of_nat n) s'.
Proof.
  induction n as [|n IH]; intros i s s' Hrun Hi Hstep; simpl in Hrun.
  - injection Hrun as <-. now replace (i + Z.of_nat 0) with i by lia.
  - destruct (body i s) as [s2| |] eqn:Hb; simpl in Hrun; try discriminate.
    replace (i + Z.of_nat (S n)) with (i + 1 + Z.of_nat n) by lia.
    apply (IH (i + 1) s2 s' Hrun).
    + apply (Hstep i s s2); [lia|assumption|assumption].
    + intros j s1 s3 Hj. apply Hstep. lia.
Qed.

(** A loop whose body never throws never throws. *)
Lemma for_loop_no_throw {St : Type} (body : Z -> St -> result St) :
  (forall j s e, body j s <> Throw e) ->
  forall (n : nat) (i : Z) (s : St) e, for_loop n i body s <> Throw e.
Proof.
  intros Hb. induction n as [|n IH]; intros i s e; simpl; [discriminate|].
  destruct (body i s) as [s2|e2|] eqn:Hbody; simpl.
  - apply IH.
  - exfalso. exact (Hb _ _ _ Hbody).
  - discriminate.
Qed.

(** ** Reading and writing cells *)

Lemma store_Ok s i v s' :
  store s i v = Ok s' <->
  (Z.to_nat i < length (table_ s))%nat /\
  s' = set_table s (<[Z.to_nat i := v]> (table_ s)).
Proof.
  unfold store. destruct (table_ s !! Z.to_nat i) as [x|] eqn:E.
  - apply lookup_lt_Some in E. split; [intros [= <-]; auto | intros [_ ->]; auto].
  - apply lookup_ge_None in E. split; [discriminate | intros [H _]; lia].
Qed.

Lemma store_in_range s i v :
  (Z.to_nat i < length (table_ s))%nat ->
  store s i v = Ok (set_table s (<[Z.to_nat i := v]> (table_ s))).
Proof. intros H. apply store_Ok. auto. Qed.

Lemma load_no_throw s i e : load s i <> Throw e.
Proof. unfold load. destruct (_ !! _); discriminate. Qed.

Lemma store_no_throw s i v e : store s i v <> Throw e.
Proof. unfold store. destruct (_ !! _); discriminate. Qed.


(** ** Counter arithmetic *)

Lemma bind_Ok {A B : Type} (a : A) (f : A -> result B) : (Ok a ≫= f) = f a.
Proof. reflexivity. Qed.

Lemma getMaxCount_pos : 0 < bits -> 0 < 2 ^ bits /\ 0 <= getMaxCount.
Proof.
  intros Hb. unfold getMaxCount.
  assert (0 < 2 ^ bits) by (apply Z.pow_pos_nonneg; lia). lia.
Qed.

Lemma to_UINT_small x : 0 <= x <= getMaxCount -> to_UINT x = x.
Proof.
  unfold to_UINT, getMaxCount. intros H. apply Z.mod_small. lia.
Qed.

Lemma u32_small x : 0 <= x < 2 ^ 32 -> u32 x = x.
Proof. apply Z.mod_small. Qed.

Lemma u64_small x : 0 <= x < 2 ^ 64 -> u64 x = x.
Proof. apply Z.mod_small. Qed.

(** ** Cells of a well-formed sketch *)

Lemma column_range s row key :
  0 < width_ s -> 0 <= column s row key < width_ s.
Proof. intros Hw. unfold column. apply Z.mod_pos_bound. exact Hw. Qed.

Lemma index_range s row key :
  wf s -> 0 <= row < depth_ s ->
  row * width_ s <= index s row key < (row + 1) * width_ s /\
  0 <= index s row key < width_ s * depth_ s.
Proof.
  intros Hwf Hrow.
  assert (Hw : 0 < width_ s) by (apply (wf_dims s Hwf); lia).
  pose proof (column_range s row key Hw) as Hc.
  unfold index. split; [lia|]. split; [nia|].
  assert ((row + 1) * width_ s <= depth_ s * width_ s) by nia. nia.
Qed.

(** Distinct rows own disjoint ranges of the table. *)
Lemma index_row_inj s r1 r2 k1 k2 :
  wf s -> 0 <= r1 < depth_ s -> 0 <= r2 < depth_ s ->
  index s r1 k1 = index s r2 k2 -> r1 = r2.
Proof.
  intros Hwf H1 H2 E.
  destruct (index_range s r1 k1 Hwf H1) as [A _].
  destruct (index_range s r2 k2 Hwf H2) as [B _].
  rewrite E in A.
  assert (Hw : 0 < width_ s) by (apply (wf_dims s Hwf); lia).
  destruct (Z.lt_trichotomy r1 r2) as [L|[L|L]]; [|exact L|]; exfalso; nia.
Qed.

Lemma getIndex_wf s row key :
  wf s -> 0 <= row < depth_ s -> getIndex s row key = Ok (index s row key).
Proof.
  intros Hwf Hrow.
  assert (Hw : 0 < width_ s) by (apply (wf_dims s Hwf); lia).
  destruct (index_range s row key Hwf Hrow) as [[A B] [C D]].
  pose proof (wf_fits s Hwf) as Hf.
  pose proof (column_range s row key Hw) as Hc.
  unfold getIndex. destruct (width_ s =? 0) eqn:E; [lia|].
  f_equal. fold (column s row key).
  assert (0 <= row * width_ s < 2 ^ 32) by nia.
  rewrite (u32_small (row * width_ s)) by assumption.
  fold (index s row key). apply u64_small. lia.
Qed.

Lemma lookup_wf s i :
  wf s -> 0 <= i < width_ s * depth_ s ->
  table_ s !! Z.to_nat i = Some (cell s i) /\ 0 <= cell s i <= getMaxCount.
Proof.
  intros Hwf Hi. pose proof (wf_size s Hwf) as Hs.
  destruct (table_ s !! Z.to_nat i) as [v|] eqn:E.
  - unfold cell. rewrite E. simpl. split; [reflexivity|].
    pose proof (wf_cells s Hwf) as Hc. rewrite Forall_lookup in Hc.
    exact (Hc _ _ E).
  - apply lookup_ge_None in E. lia.
Qed.

Lemma load_wf s i :
  wf s -> 0 <= i < width_ s * depth_ s -> load s i = Ok (cell s i).
Proof.
  intros Hwf Hi. unfold load.
  destruct (lookup_wf s i Hwf Hi) as [-> _]. reflexivity.
Qed.

Lemma store_wf s i v :
  wf s -> 0 <= i < width_ s * depth_ s ->
  store s i v = Ok (set_table s (<[Z.to_nat i := v]> (table_ s))).
Proof.
  intros Hwf Hi. apply store_in_range.
  pose proof (wf_size s Hwf). lia.
Qed.

Lemma set_table_wf s i v :
  wf s -> 0 <= v <= getMaxCount ->
  wf (set_table s (<[i := v]> (table_ s))).
Proof.
  intros Hwf Hv. destruct Hwf. constructor; simpl; try assumption.
  - rewrite length_insert. assumption.
  - apply Forall_insert; assumption.
Qed.

Lemma set_saturated_wf s n : wf s -> wf (set_saturated s n).
Proof. intros Hwf. destruct Hwf. constructor; simpl; assumption. Qed.

Lemma cell_insert s i j v :
  (Z.to_nat i < length (table_ s))%nat -> 0 <= i -> 0 <= j ->
  cell (set_table s (<[Z.to_nat i := v]> (table_ s))) j =
  if j =? i then v else cell s j.
Proof.
  intros Hi Hi0 Hj0. unfold cell. simpl.
  destruct (j =? i) eqn:E.
  - apply Z.eqb_eq in E. subst j.
    rewrite list_lookup_insert_eq by assumption. reflexivity.
  - apply Z.eqb_neq in E.
    rewrite list_lookup_insert_ne by lia. reflexivity.
Qed.

(** ** [increment] *)

Lemma index_same_width s s' row key :
  width_ s' = width_ s -> index s' row key = index s row key.
Proof. intros E. unfold index, column. rewrite E. reflexivity. Qed.

(** One iteration of the loop of [increment]: the cell of the row moves
    up by one unless it is at the maximum, every other cell is kept. *)
Lemma increment_row_effect s key row :
  wf s -> 0 <= row < depth_ s ->
  exists s', increment_row key row s = Ok s' /\ wf s' /\
    width_ s' = width_ s /\ depth_ s' = depth_ s /\
    forall j, 0 <= j ->
      cell s' j = if j =? index s row key
                  then Z.min (cell s j + 1) getMaxCount else cell s j.
Proof.
  intros Hwf Hrow.
  destruct (index_range s row key Hwf Hrow) as [_ Hi].
  destruct (lookup_wf s _ Hwf Hi) as [Hl Hc].
  pose proof (wf_size s Hwf) as Hsz.
  assert (Hlen : (Z.to_nat (index s row key) < length (table_ s))%nat) by lia.
  unfold increment_row.
  rewrite (getIndex_wf s row key Hwf Hrow), bind_Ok.
  rewrite (load_wf s _ Hwf Hi), bind_Ok.
  destruct (cell s (index s row key) <? getMaxCount) eqn:Hlt.
  - apply Z.ltb_lt in Hlt.
    rewrite (to_UINT_small (cell s (index s row key) + 1)) by lia.
    rewrite (store_wf s _ _ Hwf Hi), bind_Ok.
    set (s1 := set_table s _).
    assert (Hwf1 : wf s1) by (apply set_table_wf; [assumption|lia]).
    assert (Hcell : forall j, 0 <= j ->
              cell s1 j = if j =? index s row key
                          then Z.min (cell s j + 1) getMaxCount else cell s j).
    { intros j Hj. unfold s1. rewrite cell_insert by lia.
      destruct (j =? index s row key) eqn:E; [|reflexivity].
      apply Z.eqb_eq in E. subst j. lia. }
    assert (Hl1 : load s1 (index s row key) = Ok (cell s1 (index s row key))).
    { apply load_wf; [assumption|exact Hi]. }
    rewrite Hl1, bind_Ok.
    destruct (cell s1 (index s row key) =? getMaxCount).
    + eexists. split; [reflexivity|].
      split; [apply set_saturated_wf; assumption|].
      split; [reflexivity|]. split; [reflexivity|]. exact Hcell.
    + exists s1. split; [reflexivity|].
      split; [assumption|]. split; [reflexivity|]. split; [reflexivity|].
      exact Hcell.
  - apply Z.ltb_ge in Hlt.
    exists s. split; [reflexivity|]. split; [assumption|].
    split; [reflexivity|]. split; [reflexivity|].
    intros j Hj. destruct (j =? index s row key) eqn:E; [|reflexivity].
    apply Z.eqb_eq in E. subst j. lia.
Qed.

(** [increment key] returns; no cell goes down, and each cell of [key]
    goes up by one unless the maximum stops it. *)
Lemma increment_effect s key :
  wf s ->
  exists s', increment s key = Ok s' /\ wf s' /\
    width_ s' = width_ s /\ depth_ s' = depth_ s /\
    (forall j, 0 <= j -> cell s j <= cell s' j) /\
    (forall row, 0 <= row < depth_ s ->
       Z.min (cell s (index s row key) + 1) getMaxCount
       <= cell s' (index s row key)).
Proof.
  intros Hwf. unfold increment.
  pose (I := fun (n : Z) (t : CountMinSketchBase) =>
    wf t /\ width_ t = width_ s /\ depth_ t = depth_ s /\
    (forall j, 0 <= j -> cell s j <= cell t j) /\
    (forall row, 0 <= row < n ->
       Z.min (cell s (index s row key) + 1) getMaxCount
       <= cell t (index s row key))).
  destruct (for_loop_total I (increment_row key) (Z.to_nat (depth_ s)) 0 s)
    as (s' & Hrun & Hwf' & Hw & Hd & Hmono & Hrows).
  - unfold I. split; [assumption|]. split; [reflexivity|].
    split; [reflexivity|]. split; intros; lia.
  - intros j t Hj (Hwft & Hwt & Hdt & Hmt & Hrt).
    pose proof (wf_depth s Hwf) as Hd0.
    assert (Hjt : 0 <= j < depth_ t) by lia.
    destruct (increment_row_effect t key j Hwft Hjt)
      as (t' & Hstep & Hwft' & Hwt' & Hdt' & Hcell).
    rewrite (index_same_width s t j key Hwt) in Hcell.
    exists t'. split; [exact Hstep|]. unfold I.
    split; [assumption|]. split; [congruence|]. split; [congruence|].
    destruct (lookup_wf t _ Hwft
               (proj2 (index_range t j key Hwft Hjt))) as [_ Hcj].
    rewrite (index_same_width s t j key Hwt) in Hcj.
    assert (Hup : forall i, 0 <= i -> cell t i <= cell t' i).
    { intros i Hi. rewrite (Hcell i Hi).
      destruct (i =? index s j key) eqn:E; [|lia].
      apply Z.eqb_eq in E. subst i. lia. }
    split.
    + intros i Hi. specialize (Hmt i Hi). specialize (Hup i Hi). lia.
    + intros row Hr.
      assert (Hix : 0 <= index s row key).
      { apply (index_range s row key Hwf). lia. }
      destruct (Z.eq_dec row j) as [->|Hne].
      * rewrite (Hcell _ Hix), Z.eqb_refl.
        specialize (Hmt _ Hix). lia.
      * assert (Hr' : 0 <= row < j) by lia.
        specialize (Hrt row Hr'). specialize (Hup _ Hix). lia.
  - exists s'. split; [exact Hrun|]. split; [assumption|].
    split; [assumption|]. split; [assumption|]. split; [assumption|].
    intros row Hr. apply Hrows.
    pose proof (wf_depth s Hwf). lia.
Qed.

(** ** [getCount] *)

Lemma minimum_fold (l : list Z) (a : Z) :
  fold_left Z.min l a =
  match minimum l with Some m => Z.min a m | None => a end.
Proof.
  revert a. induction l as [|x l IH]; intros a; simpl; [reflexivity|].
  rewrite IH. destruct (minimum l) as [m|]; [|reflexivity].
  symmetry. apply Z.min_assoc.
Qed.

Lemma minimum_spec (l : list Z) (m : Z) :
  minimum l = Some m -> In m l /\ forall x, In x l -> m <= x.
Proof.
  revert m. induction l as [|x l IH]; intros m; simpl; [discriminate|].
  destruct (minimum l) as [m'|] eqn:E.
  - intros [= <-]. destruct (IH m' eq_refl) as [Hin Hle]. split.
    + destruct (Z.min_spec x m') as [[_ ->]|[_ ->]]; auto.
    + intros y [<-|Hy]; [lia|]. specialize (Hle y Hy). lia.
  - intros [= <-]. destruct l as [|y l]; [|simpl in E; destruct (minimum l); discriminate].
    split; [auto|]. intros y [<-|[]]. lia.
Qed.

Lemma minimum_None (l : list Z) : minimum l = None -> l = [].
Proof.
  destruct l as [|x l]; [reflexivity|]. simpl.
  destruct (minimum l); discriminate.
Qed.

(** The cells of a key, with their rows. *)
Lemma cells_of_In s key v :
  In v (cells_of s key) <->
  exists row, 0 <= row < depth_ s /\ v = cell s (index s row key).
Proof.
  unfold cells_of. rewrite in_map_iff. split.
  - intros (r & <- & Hr). apply in_seq in Hr. exists (Z.of_nat r).
    split; [lia|reflexivity].
  - intros (row & Hr & ->). exists (Z.to_nat row). split.
    + rewrite Z2Nat.id by lia. reflexivity.
    + apply in_seq. lia.
Qed.

Lemma getCount_row_wf s key row acc :
  wf s -> 0 <= row < depth_ s ->
  getCount_row s key row acc = Ok (Z.min acc (cell s (index s row key))).
Proof.
  intros Hwf Hrow. unfold getCount_row.
  rewrite (getIndex_wf s row key Hwf Hrow), bind_Ok.
  rewrite (load_wf s _ Hwf (proj2 (index_range s row key Hwf Hrow))).
  reflexivity.
Qed.

Lemma getCount_loop s key :
  wf s ->
  forall (n : nat) (i : Z) (acc : Z),
    0 <= i -> i + Z.of_nat n <= depth_ s ->
    for_loop n i (getCount_row s key) acc =
    Ok (fold_left Z.min
          (map (fun row => cell s (index s (Z.of_nat row) key))
               (seq (Z.to_nat i) n)) acc).
Proof.
  intros Hwf. induction n as [|n IH]; intros i acc Hi Hn; [reflexivity|].
  cbn [for_loop seq map fold_left].
  rewrite (getCount_row_wf s key i acc Hwf) by lia.
  rewrite bind_Ok, IH by lia.
  rewrite Z2Nat.id by lia.
  replace (Z.to_nat (i + 1)) with (S (Z.to_nat i)) by lia. reflexivity.
Qed.

(** [getCount] on a well-formed sketch: the minimum of the cells of the
    key, and 0 when there is no row. *)
Lemma getCount_wf s key :
  wf s ->
  getCount s key =
  Ok (match minimum (cells_of s key) with Some m => m | None => 0 end).
Proof.
  intros Hwf. unfold getCount.
  pose proof (wf_depth s Hwf) as Hd.
  destruct (getMaxCount_pos (wf_bits s Hwf)) as [Hp Hm].
  rewrite (getCount_loop s key Hwf) by lia.
  rewrite bind_Ok. f_equal.
  change (map _ (seq (Z.to_nat 0) _)) with (cells_of s key).
  rewrite minimum_fold.
  destruct (minimum (cells_of s key)) as [m|] eqn:E.
  - destruct (minimum_spec _ _ E) as [Hin _].
    apply cells_of_In in Hin. destruct Hin as (row & Hr & ->).
    destruct (lookup_wf s _ Hwf (proj2 (index_range s row key Hwf Hr)))
      as [_ Hc].
    destruct (depth_ s =? 0) eqn:E0; [lia|].
    rewrite Z.min_r by lia. rewrite Z.mul_1_r. apply to_UINT_small. lia.
  - apply minimum_None in E. unfold cells_of in E.
    apply map_eq_nil in E.
    destruct (Z.to_nat (depth_ s)) eqn:En; [|discriminate].
    destruct (depth_ s =? 0) eqn:E0; [|lia].
    rewrite Z.mul_0_r. unfold to_UINT. apply Z.mod_0_l. lia.
Qed.

(** ** [reset] and the constructor from dimensions *)

Lemma reset_effect s :
  Z.of_nat (length (table_ s)) = u32 (width_ s * depth_ s) ->
  exists s', reset s = Ok s' /\
    width_ s' = width_ s /\ depth_ s' = depth_ s /\
    saturated s' = saturated s /\
    length (table_ s') = length (table_ s) /\
    Forall (fun v => v = 0) (table_ s').
Proof.
  intros Hlen. unfold reset.
  pose (I := fun (n : Z) (t : CountMinSketchBase) =>
    width_ t = width_ s /\ depth_ t = depth_ s /\
    saturated t = saturated s /\
    length (table_ t) = length (table_ s) /\
    forall i v, (Z.of_nat i < n) -> table_ t !! i = Some v -> v = 0).
  destruct (for_loop_total I (fun i t => store t i 0)
              (Z.to_nat (u32 (width_ s * depth_ s))) 0 s)
    as (s' & Hrun & Hw & Hd & Hs & Hl & Hz).
  - unfold I. repeat (split; [reflexivity|]). intros i v Hi. lia.
  - intros j t Hj (Hw & Hd & Hs & Hl & Hz).
    assert (Hjl : (Z.to_nat j < length (table_ t))%nat) by lia.
    exists (set_table t (<[Z.to_nat j := 0]> (table_ t))).
    split; [apply store_in_range; exact Hjl|].
    unfold I; simpl. repeat (split; [assumption|]).
    split; [rewrite length_insert; assumption|].
    intros i v Hi Hv.
    destruct (Nat.eq_dec i (Z.to_nat j)) as [->|Hne].
    + rewrite list_lookup_insert_eq in Hv by assumption. congruence.
    + rewrite list_lookup_insert_ne in Hv by congruence.
      apply (Hz i v); [lia|assumption].
  - exists s'. split; [exact Hrun|]. repeat (split; [assumption|]).
    apply Forall_lookup. intros i v Hv. apply (Hz i v); [|assumption].
    apply lookup_lt_Some in Hv. lia.
Qed.

Lemma dimensions_wf (w d : Z) :
  0 < bits -> 0 < w -> 0 < d -> w * d < 2 ^ 32 ->
  exists s, CountMinSketchBase_dimensions w d = Ok s /\ wf s /\
    width_ s = w /\ depth_ s = d /\ saturated s = 0 /\
    Forall (fun v => v = 0) (table_ s).
Proof.
  intros Hb Hw Hd Hf. unfold CountMinSketchBase_dimensions. simpl.
  destruct (w =? 0) eqn:Ew; [lia|]. destruct (d =? 0) eqn:Ed; [lia|].
  set (s1 := set_table _ _).
  assert (Hlen : Z.of_nat (length (table_ s1)) = u32 (width_ s1 * depth_ s1)).
  { unfold s1, make_unique. simpl. rewrite length_replicate.
    assert (0 <= u32 (w * d)) by (apply Z.mod_pos_bound; lia). lia. }
  destruct (reset_effect s1 Hlen) as (s & Hr & Hws & Hds & Hss & Hls & Hz).
  exists s. split; [exact Hr|]. simpl in *.
  destruct (getMaxCount_pos Hb) as [_ Hm].
  split; [|auto].
  constructor.
  - exact Hb.
  - lia.
  - lia.
  - lia.
  - rewrite Hws, Hds. exact Hf.
  - rewrite Hls, Hws, Hds. unfold make_unique.
    rewrite length_replicate, u32_small by nia. nia.
  - eapply Forall_impl; [exact Hz|]. simpl. intros v ->. lia.
Qed.

(** Construction from non-zero dimensions always returns a sketch, with
    a zeroed table of [width * depth] cells, the product being reduced
    modulo [2^32]. *)
Lemma dimensions_Ok (w d : Z) :
  w <> 0 -> d <> 0 ->
  exists s, CountMinSketchBase_dimensions w d = Ok s /\
    width_ s = w /\ depth_ s = d /\ saturated s = 0 /\
    length (table_ s) = Z.to_nat (u32 (w * d)) /\
    Forall (fun v => v = 0) (table_ s).
Proof.
  intros Hw Hd. unfold CountMinSketchBase_dimensions. simpl.
  apply Z.eqb_neq in Hw, Hd. rewrite Hw, Hd.
  set (s1 := set_table _ _).
  assert (Hlen : Z.of_nat (length (table_ s1)) = u32 (width_ s1 * depth_ s1)).
  { unfold s1, make_unique. simpl. rewrite length_replicate.
    assert (0 <= u32 (w * d)) by (apply Z.mod_pos_bound; lia). lia. }
  destruct (reset_effect s1 Hlen) as (s & Hr & Hws & Hds & Hss & Hls & Hz).
  exists s. split; [exact Hr|]. repeat (split; [assumption|]).
  split; [|exact Hz].
  rewrite Hls. unfold s1, make_unique. simpl. apply length_replicate.
Qed.

(** ** Sequences of increments *)

Lemma calls_of_cons key a keys :
  calls_of key (a :: keys) =
  (if Z.eq_dec a key then 1 else 0) + calls_of key keys.
Proof.
  unfold calls_of. rewrite filter_cons.
  destruct (decide (a = key)) as [E|E]; destruct (Z.eq_dec a key);
    try contradiction; simpl; lia.
Qed.

(** After a sequence of increments every cell of [k] has counted the
    calls for [k], up to the maximum of the counter type. *)
Lemma increments_effect (k : Z) (keys : list Z) :
  forall s n,
    wf s ->
    (forall row, 0 <= row < depth_ s ->
       Z.min n getMaxCount <= cell s (index s row k)) ->
    exists s', run s (map Increment keys) = Ok s' /\ wf s' /\
      width_ s' = width_ s /\ depth_ s' = depth_ s /\
      forall row, 0 <= row < depth_ s ->
        Z.min (n + calls_of k keys) getMaxCount <= cell s' (index s row k).
Proof.
  induction keys as [|a keys IH]; intros s n Hwf Hn.
  - exists s. split; [reflexivity|]. split; [assumption|].
    split; [reflexivity|]. split; [reflexivity|].
    intros row Hr. unfold calls_of. simpl. rewrite Z.add_0_r. auto.
  - destruct (increment_effect s a Hwf)
      as (s1 & Hinc & Hwf1 & Hw1 & Hd1 & Hmono & Hrows).
    destruct (IH s1 (n + (if Z.eq_dec a k then 1 else 0)) Hwf1)
      as (s' & Hrun & Hwf' & Hw' & Hd' & Hcells).
    { intros row Hr. rewrite Hd1 in Hr.
      rewrite (index_same_width s s1 row k Hw1).
      assert (Hix : 0 <= index s row k)
        by (apply (index_range s row k Hwf Hr)).
      specialize (Hn row Hr). specialize (Hmono _ Hix).
      destruct (Z.eq_dec a k) as [->|Hne].
      - specialize (Hrows row Hr). lia.
      - lia. }
    exists s'. cbn [map run perform]. rewrite Hinc, bind_Ok.
    split; [exact Hrun|]. split; [assumption|].
    split; [congruence|]. split; [congruence|].
    intros row Hr. rewrite calls_of_cons.
    rewrite <- (index_same_width s s1 row k Hw1).
    rewrite Z.add_assoc. apply Hcells. lia.
Qed.

(** *** Whatever the dimensions *)

Lemma getIndex_Ok s row key i :
  getIndex s row key = Ok i -> i = raw_index s row key /\ 0 <= i.
Proof.
  unfold getIndex. destruct (width_ s =? 0); [discriminate|].
  intros [= <-]. split; [reflexivity|].
  unfold u64. apply Z.mod_pos_bound. reflexivity.
Qed.


Lemma load_cell s i v : load s i = Ok v -> v = cell s i.
Proof.
  unfold load, cell. destruct (table_ s !! Z.to_nat i); [|discriminate].
  intros [= <-]. reflexivity.
Qed.

(** One iteration of [increment] that returns, on any table. *)
Lemma increment_row_partial s key row s' :
  0 < bits -> cells_ok s -> increment_row key row s = Ok s' ->
  cells_ok s' /\ width_ s' = width_ s /\ depth_ s' = depth_ s /\
  forall j, 0 <= j ->
    cell s' j = if j =? raw_index s row key
                then Z.min (cell s j + 1) getMaxCount else cell s j.
Proof.
  intros Hb Hok. unfold increment_row.
  destruct (getIndex s row key) as [i| |] eqn:Ei; try discriminate.
  rewrite bind_Ok. destruct (getIndex_Ok _ _ _ _ Ei) as [Hi Hi0].
  rewrite <- Hi.
  destruct (load s i) as [c| |] eqn:El; try discriminate.
  rewrite bind_Ok. pose proof (load_cell _ _ _ El) as Hc.
  assert (Hrange : 0 <= c <= getMaxCount).
  { unfold load in El. destruct (table_ s !! Z.to_nat i) as [x|] eqn:E;
      [|discriminate]. injection El as ->.
    unfold cells_ok in Hok. rewrite Forall_lookup in Hok. exact (Hok _ _ E). }
  destruct (c <? getMaxCount) eqn:Hlt.
  - apply Z.ltb_lt in Hlt. rewrite to_UINT_small by lia.
    destruct (store s i (c + 1)) as [s1| |] eqn:Es; try discriminate.
    rewrite bind_Ok. apply store_Ok in Es. destruct Es as [Hlen ->].
    set (s1 := set_table s _).
    assert (Hcell : forall j, 0 <= j ->
              cell s1 j = if j =? i
                          then Z.min (cell s j + 1) getMaxCount else cell s j).
    { intros j Hj. unfold s1. rewrite cell_insert by lia.
      destruct (j =? i) eqn:E; [|reflexivity].
      apply Z.eqb_eq in E. subst j. lia. }
    assert (Hok1 : cells_ok s1).
    { unfold cells_ok, s1. simpl. apply Forall_insert; [exact Hok|lia]. }
    destruct (load s1 i) as [c1| |]; try discriminate. rewrite bind_Ok.
    destruct (c1 =? getMaxCount); intros [= <-]; auto.
  - apply Z.ltb_ge in Hlt. intros [= <-].
    repeat (split; [auto|]). intros j Hj.
    destruct (j =? i) eqn:E; [|reflexivity].
    apply Z.eqb_eq in E. subst j. lia.
Qed.

Lemma cell_range s j : cells_ok s -> 0 <= cell s j <= getMaxCount \/ cell s j = 0.
Proof.
  intros Hok. unfold cell. destruct (table_ s !! Z.to_nat j) as [v|] eqn:E.
  - left. unfold cells_ok in Hok. rewrite Forall_lookup in Hok.
    exact (Hok _ _ E).
  - right. reflexivity.
Qed.





(** ** [resetCount] *)

(** The count that [getCount] returns is one of the cells of the key and
    a lower bound of all of them. *)
Lemma getCount_le_cells s key :
  wf s ->
  exists c, getCount s key = Ok c /\ 0 <= c <= getMaxCount /\
    forall row, 0 <= row < depth_ s -> c <= cell s (index s row key).
Proof.
  intros Hwf. eexists. split; [apply (getCount_wf s key Hwf)|].
  destruct (getMaxCount_pos (wf_bits s Hwf)) as [_ Hm].
  destruct (minimum (cells_of s key)) as [m|] eqn:E.
  - destruct (minimum_spec _ _ E) as [Hin Hle]. split.
    + apply cells_of_In in Hin. destruct Hin as (row & Hr & ->).
      apply (lookup_wf s _ Hwf (proj2 (index_range s row key Hwf Hr))).
    + intros row Hr. apply Hle. apply cells_of_In. eauto.
  - split; [lia|]. intros row Hr.
    apply minimum_None in E. unfold cells_of in E. apply map_eq_nil in E.
    destruct (Z.to_nat (depth_ s)) eqn:En; [lia|discriminate].
Qed.

Lemma resetCount_prefix s key c :
  wf s -> 0 <= c ->
  (forall row, 0 <= row < depth_ s -> c <= cell s (index s row key)) ->
  forall n : nat, Z.of_nat n <= depth_ s ->
    exists t, for_loop n 0 (resetCount_row key c) s = Ok t /\
      resetCount_inv s key c (Z.of_nat n) t.
Proof.
  intros Hwf Hc0 Hc n Hn.
  apply (for_loop_total (resetCount_inv s key c)).
  - unfold resetCount_inv. split; [assumption|].
    repeat (split; [reflexivity|]). split; [intros; lia|reflexivity].
  - intros j t Hj (Hwft & Hw & Hd & Hs & Hdone & Hrest).
    assert (Hjs : 0 <= j < depth_ s) by lia.
    assert (Hjt : 0 <= j < depth_ t) by lia.
    destruct (index_range s j key Hwf Hjs) as [_ Hi].
    assert (Hit : 0 <= index s j key < width_ t * depth_ t)
      by (rewrite Hw, Hd; exact Hi).
    assert (Hcur : cell t (index s j key) = cell s (index s j key)).
    { apply Hrest; [lia|]. intros row Hr E.
      apply (index_row_inj s j row key key Hwf) in E; lia. }
    destruct (lookup_wf s _ Hwf Hi) as [_ Hrange].
    specialize (Hc j Hjs).
    unfold resetCount_row.
    rewrite (getIndex_wf t j key Hwft Hjt), bind_Ok.
    rewrite (index_same_width s t j key Hw).
    rewrite (load_wf t _ Hwft Hit), bind_Ok.
    rewrite Hcur, to_UINT_small by lia.
    rewrite (store_wf t _ _ Hwft Hit).
    eexists. split; [reflexivity|].
    pose proof (wf_size t Hwft) as Hsz.
    assert (Hlen : (Z.to_nat (index s j key) < length (table_ t))%nat) by lia.
    unfold resetCount_inv.
    split; [apply set_table_wf; [assumption|lia]|].
    repeat (split; [assumption|]). split.
    + intros row Hr. rewrite cell_insert; [|assumption|lia|].
      2:{ apply (index_range s row key Hwf). lia. }
      destruct (index s row key =? index s j key) eqn:E.
      { apply Z.eqb_eq in E. rewrite E. reflexivity. }
      apply Z.eqb_neq in E. apply Hdone.
      assert (row <> j) by congruence. lia.
    + intros i Hi0 Hne. rewrite cell_insert by lia.
      destruct (i =? index s j key) eqn:E.
      * apply Z.eqb_eq in E. exfalso. apply (Hne j); [lia|exact E].
      * apply Hrest; [assumption|]. intros row Hr. apply Hne. lia.
Qed.

Lemma cell_lookup s t (i : nat) :
  length (table_ t) = length (table_ s) ->
  cell t (Z.of_nat i) = cell s (Z.of_nat i) ->
  table_ t !! i = table_ s !! i.
Proof.
  unfold cell. rewrite Nat2Z.id. intros Hl Hc.
  destruct (table_ t !! i) as [x|] eqn:Et;
    destruct (table_ s !! i) as [y|] eqn:Es; simpl in Hc.
  - congruence.
  - apply lookup_lt_Some in Et. apply lookup_ge_None in Es. lia.
  - apply lookup_lt_Some in Es. apply lookup_ge_None in Et. lia.
  - reflexivity.
Qed.

(** X24. On a well-formed sketch (a table of [width_ * depth_ < 2^32]
    cells), [resetCount key] first takes [c = getCount key], the minimum
    of the cells of [key], then subtracts exactly [c] from each of the
    [depth_] cells of [key] and leaves every other cell, the dimensions
    and the saturation counter unchanged. *)
Theorem resetCount_subtracts s key :
  wf s ->
  exists c s',
    getCount s key = Ok c /\
    c = match minimum (cells_of s key) with Some m => m | None => 0 end /\
    resetCount s key = Ok s' /\
    width_ s' = width_ s /\ depth_ s' = depth_ s /\
    saturated s' = saturated s /\
    length (table_ s') = length (table_ s) /\
    (forall row, 0 <= row < depth_ s ->
       table_ s' !! Z.to_nat (index s row key)
       = Some (cell s (index s row key) - c)) /\
    (forall i : nat,
       (forall row, 0 <= row < depth_ s -> Z.of_nat i <> index s row key) ->
       table_ s' !! i = table_ s !! i).
Proof.
  intros Hwf.
  destruct (getCount_le_cells s key Hwf) as (c & Hget & Hc & Hle).
  pose proof (wf_depth s Hwf) as Hd.
  destruct (resetCount_prefix s key c Hwf (proj1 Hc) Hle
              (Z.to_nat (depth_ s)))
    as (s' & Hrun & Hwf' & Hw' & Hd' & Hs' & Hdone & Hrest); [lia|].
  rewrite Z2Nat.id in Hdone, Hrest by lia.
  assert (Hlen : length (table_ s') = length (table_ s)).
  { pose proof (wf_size s Hwf). pose proof (wf_size s' Hwf').
    rewrite Hw', Hd' in *. lia. }
  exists c, s'. split; [exact Hget|].
  split; [rewrite (getCount_wf s key Hwf) in Hget; congruence|].
  split; [unfold resetCount; rewrite Hget, bind_Ok; exact Hrun|].
  repeat (split; [assumption|]). split.
  - intros row Hr.
    destruct (index_range s row key Hwf Hr) as [_ Hi].
    assert (Hi' : 0 <= index s row key < width_ s' * depth_ s')
      by (rewrite Hw', Hd'; exact Hi).
    destruct (lookup_wf s' _ Hwf' Hi') as [-> _].
    rewrite (Hdone row Hr). reflexivity.
  - intros i Hne. apply cell_lookup; [exact Hlen|].
    apply Hrest; [lia|exact Hne].
Qed.

(** X26. On a well-formed sketch (a table of [width_ * depth_ < 2^32]
    cells), [resetCount] never wraps a cell around: rows own disjoint
    slots of the table, so when the loop reaches a row the cell of the
    key in that row still holds what it held at the call, which is at
    least the minimum [c]; each subtraction [table_[index] -= c]
    therefore stays within the counter type, and so does every cell
    afterwards. *)
Theorem resetCount_no_underflow s key :
  wf s ->
  exists c s',
    getCount s key = Ok c /\ resetCount s key = Ok s' /\
    (forall r1 r2, 0 <= r1 < depth_ s -> 0 <= r2 < depth_ s ->
       r1 <> r2 -> index s r1 key <> index s r2 key) /\
    (forall row, 0 <= row < depth_ s ->
       exists t v,
         for_loop (Z.to_nat row) 0 (resetCount_row key c) s = Ok t /\
         getIndex t row key = Ok (index s row key) /\
         load t (index s row key) = Ok v /\
         0 <= v - c <= getMaxCount /\
         to_UINT (v - c) = v - c) /\
    Forall (fun v => 0 <= v <= getMaxCount) (table_ s').
Proof.
  intros Hwf.
  destruct (getCount_le_cells s key Hwf) as (c & Hget & Hc & Hle).
  pose proof (wf_depth s Hwf) as Hd.
  destruct (resetCount_prefix s key c Hwf (proj1 Hc) Hle
              (Z.to_nat (depth_ s)))
    as (s' & Hrun & Hwf' & _); [lia|].
  exists c, s'. split; [exact Hget|].
  split; [unfold resetCount; rewrite Hget, bind_Ok; exact Hrun|].
  split; [|split].
  - intros r1 r2 H1 H2 Hne E. apply Hne.
    exact (index_row_inj s r1 r2 key key Hwf H1 H2 E).
  - intros row Hr.
    destruct (resetCount_prefix s key c Hwf (proj1 Hc) Hle (Z.to_nat row))
      as (t & Ht & Hwft & Hw & Hdt & _ & _ & Hrest); [lia|].
    rewrite Z2Nat.id in Hrest by lia.
    destruct (index_range s row key Hwf Hr) as [_ Hi].
    assert (Hit : 0 <= index s row key < width_ t * depth_ t)
      by (rewrite Hw, Hdt; exact Hi).
    assert (Hcur : cell t (index s row key) = cell s (index s row key)).
    { apply Hrest; [lia|]. intros r Hr' E.
      apply (index_row_inj s row r key key Hwf) in E; lia. }
    destruct (lookup_wf s _ Hwf Hi) as [_ Hrange].
    specialize (Hle row Hr).
    exists t, (cell t (index s row key)).
    split; [exact Ht|]. split.
    { rewrite <- (index_same_width s t row key Hw).
      apply getIndex_wf; [assumption|lia]. }
    split; [apply load_wf; assumption|].
    rewrite Hcur. split; [lia|]. apply to_UINT_small. lia.
  - exact (wf_cells s' Hwf').
Qed.

(** ** The results of [getCount] and [reset] *)

(** X23. On a well-formed sketch (a table of [width_ * depth_ < 2^32]
    cells), for every key, [getCount] returns the minimum of the values
    of the cells at the key's index in each of the [depth_] rows, the
    index in row [row] being [row * width_ + (combineHashes (hashInt row)
    key mod width_)]; it changes no state; and with [depth_ = 0] it
    returns 0. *)
Theorem getCount_minimum s key :
  wf s ->
  (forall row, 0 <= row < depth_ s ->
     getIndex s row key =
     Ok (row * width_ s + u64 (combineHashes (hashInt row) key) mod width_ s)) /\
  (0 < depth_ s ->
     exists m, minimum (cells_of s key) = Some m /\ getCount s key = Ok m) /\
  (depth_ s = 0 -> getCount s key = Ok 0) /\
  perform s (GetCount key) = Ok s.
Proof.
  intros Hwf. pose proof (getCount_wf s key Hwf) as Hget.
  split; [intros row Hr; apply (getIndex_wf s row key Hwf Hr)|].
  split; [|split].
  - intros Hd. destruct (minimum (cells_of s key)) as [m|] eqn:E.
    + exists m. auto.
    + apply minimum_None in E. unfold cells_of in E. apply map_eq_nil in E.
      destruct (Z.to_nat (depth_ s)) eqn:En; [lia|discriminate].
  - intros Hd. rewrite Hget. unfold cells_of. rewrite Hd. reflexivity.
  - cbn [perform]. rewrite Hget. reflexivity.
Qed.

Lemma zero_table_wf s :
  wf s -> forall s',
  width_ s' = width_ s -> depth_ s' = depth_ s ->
  length (table_ s') = length (table_ s) ->
  Forall (fun v => v = 0) (table_ s') -> wf s'.
Proof.
  intros Hwf s' Hw Hd Hl Hz. destruct Hwf.
  destruct (getMaxCount_pos wf_bits0) as [_ Hm].
  constructor; rewrite ?Hw, ?Hd, ?Hl; try assumption.
  eapply Forall_impl; [exact Hz|]. simpl. intros v ->. lia.
Qed.

(** X25. On a well-formed sketch (a table of [width_ * depth_ < 2^32]
    cells), immediately after [reset()] every cell of the table is 0,
    and [getCount] returns 0 for every key. *)
Theorem reset_zero s :
  wf s ->
  exists s', reset s = Ok s' /\
    length (table_ s') = length (table_ s) /\
    Forall (fun v => v = 0) (table_ s') /\
    forall key, getCount s' key = Ok 0.
Proof.
  intros Hwf.
  assert (Hlen : Z.of_nat (length (table_ s)) = u32 (width_ s * depth_ s)).
  { destruct Hwf. rewrite u32_small by nia. assumption. }
  destruct (reset_effect s Hlen) as (s' & Hr & Hw & Hd & _ & Hl & Hz).
  exists s'. split; [exact Hr|]. split; [exact Hl|]. split; [exact Hz|].
  intros key.
  assert (Hwf' : wf s') by (apply (zero_table_wf s Hwf); assumption).
  rewrite (getCount_wf s' key Hwf').
  destruct (minimum (cells_of s' key)) as [m|] eqn:E; [|reflexivity].
  destruct (minimum_spec _ _ E) as [Hin _].
  apply cells_of_In in Hin. destruct Hin as (row & Hrow & ->).
  destruct (lookup_wf s' _ Hwf'
             (proj2 (index_range s' row key Hwf' Hrow))) as [Hlk _].
  rewrite Forall_lookup in Hz. f_equal. exact (Hz _ _ Hlk).
Qed.

(** ** Sketches without a table *)

Lemma getCount_no_rows s key : depth_ s = 0 -> getCount s key = Ok 0.
Proof.
  intros Hd. unfold getCount. rewrite Hd.
  change (Z.to_nat 0) with 0%nat. cbn [for_loop].
  rewrite bind_Ok. change (0 =? 0) with true. cbv iota.
  rewrite Z.mul_0_r. unfold to_UINT. rewrite Zmod_0_l. reflexivity.
Qed.

(** A sketch of width 0 and depth 0 answers 0 and is left as it is by
    every operation, without any access to its table. *)
Lemma no_rows_inert s key decay :
  width_ s = 0 -> depth_ s = 0 ->
  increment s key = Ok s /\ resetCount s key = Ok s /\
  decayCountsBy s decay = Ok s /\ reset s = Ok s /\
  getCount s key = Ok 0.
Proof.
  intros Hw Hd. pose proof (getCount_no_rows s key Hd) as Hg.
  unfold increment, resetCount, decayCountsBy, reset.
  rewrite Hg, Hw, Hd. repeat split; reflexivity.
Qed.

(** C10. A default-constructed sketch and a moved-from sketch have width
    0 and depth 0 and no table; on them [increment], [resetCount],
    [decayCountsBy] and [reset] run over no cell at all and leave the
    sketch as it is, and [getCount] returns 0 for every key: the guard
    for [depth_ = 0] in [getCount] is reached through the public
    interface. *)
Theorem default_and_moved_from_inert (other : CountMinSketchBase)
    (key : Z) (decay : double) :
  let fresh := CountMinSketchBase_default in
  let moved := snd (CountMinSketchBase_move other) in
  (width fresh = 0 /\ depth fresh = 0 /\ table_ fresh = [] /\
   increment fresh key = Ok fresh /\ resetCount fresh key = Ok fresh /\
   decayCountsBy fresh decay = Ok fresh /\ reset fresh = Ok fresh /\
   getCount fresh key = Ok 0) /\
  (width moved = 0 /\ depth moved = 0 /\ table_ moved = [] /\
   increment moved key = Ok moved /\ resetCount moved key = Ok moved /\
   decayCountsBy moved decay = Ok moved /\ reset moved = Ok moved /\
   getCount moved key = Ok 0).
Proof.
  intros fresh moved. split.
  - repeat (split; [reflexivity|]).
    apply (no_rows_inert fresh key decay); reflexivity.
  - repeat (split; [reflexivity|]).
    apply (no_rows_inert moved key decay); reflexivity.
Qed.

(** ** Binary64 rounding *)

Lemma digits2_size (p : positive) : digits2_pos p = Pos.size p.
Proof. induction p as [p IH|p IH|]; simpl; rewrite ?IH; reflexivity. Qed.

Lemma digits_bounds (p : positive) :
  2 ^ (Zpos (digits2_pos p) - 1) <= Zpos p < 2 ^ Zpos (digits2_pos p).
Proof.
  rewrite digits2_size. split.
  - pose proof (Pos.size_le p) as H.
    assert (H' : 2 ^ Zpos (Pos.size p) <= 2 * Zpos p).
    { change 2 with (Zpos 2) at 1. rewrite <- Pos2Z.inj_pow.
      change (2 * Zpos p) with (Zpos p~0). apply Pos2Z.pos_le_pos. exact H. }
    replace (Zpos (Pos.size p)) with (Zpos (Pos.size p) - 1 + 1) in H' by lia.
    rewrite Z.pow_add_r in H' by lia. lia.
  - pose proof (Pos.size_gt p) as H.
    change 2 with (Zpos 2). rewrite <- Pos2Z.inj_pow.
    apply Pos2Z.pos_lt_pos. exact H.
Qed.

Lemma digits_le (p : positive) (k : Z) :
  Zpos p < 2 ^ k -> Zpos (digits2_pos p) <= k.
Proof.
  intros H. destruct (digits_bounds p) as [L _].
  destruct (Z.le_gt_cases (Zpos (digits2_pos p)) k) as [|G]; [assumption|].
  exfalso. destruct (Z.le_gt_cases 0 k) as [Hk|Hk].
  - assert (2 ^ k <= 2 ^ (Zpos (digits2_pos p) - 1))
      by (apply Z.pow_le_mono_r; lia). lia.
  - rewrite Z.pow_neg_r in H by lia. lia.
Qed.

Lemma digits_gt (p : positive) (k : Z) :
  0 <= k -> 2 ^ k <= Zpos p -> k < Zpos (digits2_pos p).
Proof.
  intros Hk H. destruct (digits_bounds p) as [_ U].
  destruct (Z.lt_ge_cases k (Zpos (digits2_pos p))) as [|G]; [assumption|].
  exfalso.
  assert (2 ^ Zpos (digits2_pos p) <= 2 ^ k)
    by (apply Z.pow_le_mono_r; lia). lia.
Qed.

Lemma shr_1_m (mrs : shr_record) :
  0 <= shr_m mrs -> shr_m (shr_1 mrs) = Z.div2 (shr_m mrs).
Proof.
  destruct mrs as [m r s]. simpl.
  destruct m as [|[p|p|]|p]; intros H; try reflexivity. lia.
Qed.

Lemma iter_shr_1_m (p : positive) :
  forall mrs : shr_record,
    0 <= shr_m mrs ->
    shr_m (SpecFloat.iter_pos shr_1 p mrs) = shr_m mrs / 2 ^ Zpos p.
Proof.
  assert (Hstep : forall mrs, 0 <= shr_m mrs ->
            shr_m (shr_1 mrs) = shr_m mrs / 2 /\ 0 <= shr_m (shr_1 mrs)).
  { intros mrs H. rewrite shr_1_m, Z.div2_div by exact H.
    split; [reflexivity|].
    apply Z.div_pos; lia. }
  induction p as [p IH|p IH|]; intros mrs Hm; simpl.
  - destruct (Hstep mrs Hm) as [E1 P1].
    assert (P2 : 0 <= shr_m (SpecFloat.iter_pos shr_1 p (shr_1 mrs))).
    { rewrite IH by assumption. apply Z.div_pos; lia. }
    rewrite IH, IH, E1 by assumption.
    rewrite !Z.div_div by lia. f_equal.
    replace (Zpos p~1) with (1 + Zpos p + Zpos p) by lia.
    rewrite !Z.pow_add_r by lia. change (2 ^ 1) with 2. lia.
  - assert (P2 : 0 <= shr_m (SpecFloat.iter_pos shr_1 p mrs)).
    { rewrite IH by assumption. apply Z.div_pos; lia. }
    rewrite IH, IH by assumption.
    rewrite Z.div_div by lia. f_equal.
    replace (Zpos p~0) with (Zpos p + Zpos p) by lia.
    rewrite Z.pow_add_r by lia. reflexivity.
  - destruct (Hstep mrs Hm) as [E1 _]. rewrite E1. reflexivity.
Qed.

Lemma shr_record_of_loc_m (m : Z) (l : location) :
  shr_m (shr_record_of_loc m l) = m.
Proof. destruct l as [|[| |]]; reflexivity. Qed.

(** What [shr_fexp] does to a mantissa that is not negative: it divides
    by the power of two that brings the exponent up to [fexp], and does
    nothing when the exponent is there already. *)
Lemma shr_fexp_spec (m e : Z) (l : location) (mrs : shr_record) (e' : Z) :
  0 <= m ->
  shr_fexp prec emax m e l = (mrs, e') ->
  let n := fexp prec emax (Zdigits2 m + e) - e in
  e' = e + Z.max 0 n /\ shr_m mrs = m / 2 ^ Z.max 0 n /\
  (n <= 0 -> mrs = shr_record_of_loc m l).
Proof.
  intros Hm H n. unfold shr_fexp, shr in H. fold n in H.
  destruct n as [|p|p] eqn:En.
  - injection H as <- <-. rewrite shr_record_of_loc_m.
    change (Z.max 0 0) with 0. rewrite Z.div_1_r, Z.add_0_r. auto.
  - injection H as <- <-.
    rewrite iter_shr_1_m by (rewrite shr_record_of_loc_m; exact Hm).
    rewrite shr_record_of_loc_m, Z.max_r by lia.
    repeat split. intros; lia.
  - injection H as <- <-. rewrite shr_record_of_loc_m.
    rewrite Z.max_l by lia. rewrite Z.div_1_r, Z.add_0_r. auto.
Qed.

Lemma round_nearest_even_bounds (m : Z) (l : location) :
  m <= round_nearest_even m l <= m + 1.
Proof.
  destruct l as [|[| |]]; simpl; try lia. destruct (Z.even m); lia.
Qed.

Lemma Zdigits2_le (r k : Z) : 0 <= k -> 0 <= r < 2 ^ k -> Zdigits2 r <= k.
Proof.
  intros Hk [H0 H]. destruct r as [|p|p]; simpl; [lia| |lia].
  apply digits_le. exact H.
Qed.

Lemma pow2_split (a b : Z) : 0 <= a -> 0 <= b -> 2 ^ (a + b) = 2 ^ a * 2 ^ b.
Proof. intros. apply Z.pow_add_r; assumption. Qed.

(** Rounding to nearest a positive value [M * 2^E] that is not above the
    integer [V] yields zero or a positive double whose integral part is
    not above [V]. *)
Lemma binary_round_aux_bound (M : positive) (E V : Z) :
  E < 0 -> 0 <= V < 2 ^ 32 -> Zpos M <= V * 2 ^ (- E) ->
  match binary_round_aux prec emax false (Zpos M) E loc_Exact with
  | S754_zero false => True
  | S754_finite false m e => e < 0 /\ Zpos m / 2 ^ (- e) <= V
  | _ => False
  end.
Proof.
  intros HE HV HM. unfold binary_round_aux.
  destruct (shr_fexp prec emax (Zpos M) E loc_Exact) as [mrs1 e1] eqn:H1.
  apply shr_fexp_spec in H1; [|lia]. simpl in H1.
  destruct H1 as (He1 & Hm1 & Hx1).
  set (n1 := fexp prec emax (Zpos (digits2_pos M) + E) - E) in *.
  set (r := round_nearest_even (shr_m mrs1) (loc_of_shr_record mrs1)).
  assert (HpE : 0 < 2 ^ (- E)) by (apply Z.pow_pos_nonneg; lia).
  assert (Hdig : Zpos (digits2_pos M) + E <= 32).
  { assert (Zpos (digits2_pos M) <= 32 - E); [|lia].
    apply digits_le. replace (32 - E) with (32 + - E) by lia.
    rewrite pow2_split by lia. nia. }
  assert (He1neg : e1 < 0 /\ E <= e1).
  { subst e1. unfold n1, fexp, emin, prec, emax. lia. }
  assert (Hpe1 : 2 <= 2 ^ (- e1)).
  { change 2 with (2 ^ 1) at 1. apply Z.pow_le_mono_r; lia. }
  assert (Hr : 0 <= r < (V + 1) * 2 ^ (- e1)).
  { destruct (Z.le_gt_cases n1 0) as [Hn|Hn].
    - specialize (Hx1 Hn). unfold r. rewrite Hx1. simpl.
      rewrite Z.max_l in He1 by lia. replace e1 with E by lia. nia.
    - pose proof (round_nearest_even_bounds (shr_m mrs1)
                    (loc_of_shr_record mrs1)) as Hb. fold r in Hb.
      rewrite Z.max_r in Hm1, He1 by lia.
      assert (Hq : shr_m mrs1 <= V * 2 ^ (- e1)).
      { rewrite Hm1. replace (- E) with (- e1 + n1) in HM by lia.
        rewrite pow2_split in HM by lia.
        assert (0 < 2 ^ n1) by (apply Z.pow_pos_nonneg; lia).
        apply Z.div_le_upper_bound; [assumption|]. lia. }
      assert (0 <= shr_m mrs1).
      { rewrite Hm1. apply Z.div_pos; [lia|apply Z.pow_pos_nonneg; lia]. }
      lia. }
  destruct (shr_fexp prec emax r e1 loc_Exact) as [mrs2 e2] eqn:H2.
  apply shr_fexp_spec in H2; [|lia]. destruct H2 as (He2 & Hm2 & _).
  set (n2 := fexp prec emax (Zdigits2 r + e1) - e1) in *.
  assert (Hdig2 : Zdigits2 r + e1 <= 32).
  { assert (Zdigits2 r <= 32 - e1); [|lia].
    apply Zdigits2_le; [lia|]. split; [lia|].
    replace (32 - e1) with (32 + - e1) by lia.
    rewrite pow2_split by lia. nia. }
  assert (He2neg : e2 < 0 /\ e1 <= e2).
  { subst e2. unfold n2, fexp, emin, prec, emax. lia. }
  set (k := Z.max 0 n2) in *.
  assert (Hk : 0 <= k) by (unfold k; lia).
  assert (Hpk : 0 < 2 ^ k) by (apply Z.pow_pos_nonneg; lia).
  assert (Hpe2 : 0 < 2 ^ (- e2)) by (apply Z.pow_pos_nonneg; lia).
  assert (Hm2b : 0 <= shr_m mrs2 < (V + 1) * 2 ^ (- e2)).
  { rewrite Hm2. split; [apply Z.div_pos; lia|].
    apply Z.div_lt_upper_bound; [assumption|].
    replace (- e1) with (k + - e2) in Hr by lia.
    rewrite pow2_split in Hr by lia. lia. }
  destruct (shr_m mrs2) as [|m|m] eqn:Em; [exact I| |lia].
  destruct (e2 <=? emax - prec) eqn:El.
  - split; [lia|].
    assert (Zpos m / 2 ^ (- e2) < V + 1); [|lia].
    apply Z.div_lt_upper_bound; [assumption|]. lia.
  - apply Z.leb_gt in El. unfold emax, prec in El. lia.
Qed.

Lemma iter_xO_value (p d : positive) :
  Zpos (Pos.iter xO p d) = Zpos p * 2 ^ Zpos d.
Proof.
  induction d as [|d IH] using Pos.peano_ind.
  - simpl. lia.
  - rewrite Pos.iter_succ, Pos2Z.inj_succ, Z.pow_succ_r by lia.
    rewrite Pos2Z.inj_xO, IH. lia.
Qed.

Lemma iter_xO_digits (p d : positive) :
  Zpos (digits2_pos (Pos.iter xO p d)) = Zpos (digits2_pos p) + Zpos d.
Proof.
  induction d as [|d IH] using Pos.peano_ind.
  - simpl. lia.
  - rewrite Pos.iter_succ. simpl digits2_pos.
    rewrite Pos2Z.inj_succ, IH. lia.
Qed.

(** A mantissa of 53 digits within the exponent range is kept as it is. *)
Lemma binary_round_aux_exact (m : positive) (e : Z) :
  Zpos (digits2_pos m) = 53 -> -1074 <= e <= 971 ->
  binary_round_aux prec emax false (Zpos m) e loc_Exact
  = S754_finite false m e.
Proof.
  intros Hd He. unfold binary_round_aux.
  assert (Hn : fexp prec emax (Zdigits2 (Zpos m) + e) - e <= 0).
  { simpl. rewrite Hd. unfold fexp, emin, prec, emax. lia. }
  assert (Hs : shr_fexp prec emax (Zpos m) e loc_Exact
               = (shr_record_of_loc (Zpos m) loc_Exact, e)).
  { destruct (shr_fexp prec emax (Zpos m) e loc_Exact) as [mrs e'] eqn:H.
    apply shr_fexp_spec in H; [|lia]. destruct H as (He' & _ & Hx).
    rewrite (Hx Hn). f_equal. lia. }
  rewrite Hs. simpl shr_m. simpl loc_of_shr_record.
  simpl round_nearest_even. rewrite Hs. simpl shr_m.
  destruct (e <=? emax - prec) eqn:El; [reflexivity|].
  apply Z.leb_gt in El. unfold emax, prec in El. lia.
Qed.

(** An integer below [2^53] converts to a double without rounding. *)
Lemma double_of_Z_pos (v : positive) :
  Zpos v < 2 ^ 53 ->
  exists m e, double_of_Z (Zpos v) = S754_finite false m e /\
    -52 <= e <= 0 /\ Zpos m = Zpos v * 2 ^ (- e).
Proof.
  intros Hv. unfold double_of_Z, binary_normalize, binary_round.
  pose proof (digits_le v 53 Hv) as Hd.
  assert (Hd1 : 1 <= Zpos (digits2_pos v)) by lia.
  assert (Hf : fexp prec emax (Zpos (digits2_pos v) + 0)
               = Zpos (digits2_pos v) - 53).
  { unfold fexp, emin, prec, emax. lia. }
  rewrite Hf. unfold shl_align.
  destruct (Zpos (digits2_pos v) - 53 - 0) as [|q|q] eqn:Eq; [|lia|].
  - exists v, 0. split; [|split; [lia|simpl; lia]].
    apply binary_round_aux_exact; lia.
  - exists (Pos.iter xO v q), (Zpos (digits2_pos v) - 53).
    split; [|split; [lia|]].
    + apply binary_round_aux_exact; [|lia].
      rewrite iter_xO_digits. lia.
    + rewrite iter_xO_value. f_equal. f_equal. lia.
Qed.

Lemma double_of_Z_0 : double_of_Z 0 = S754_zero false.
Proof. reflexivity. Qed.

Lemma d1_value : d1 = S754_finite false 4503599627370496 (-52).
Proof. vm_compute. reflexivity. Qed.

Lemma d2_value : d2 = S754_finite false 4503599627370496 (-51).
Proof. vm_compute. reflexivity. Qed.

Lemma is_double_digits (s : bool) (m : positive) (e : Z) :
  is_double (S754_finite s m e) ->
  Zpos (digits2_pos m) <= 53 /\ -1074 <= e <= 971.
Proof.
  unfold is_double, valid_binary, bounded, canonical_mantissa.
  intros H. apply andb_prop in H. destruct H as [H1 H2].
  apply Z.eqb_eq in H1. apply Z.leb_le in H2.
  unfold fexp, emin, prec, emax in *. lia.
Qed.

(** The doubles between 0 and 1. *)
Lemma SFleb_finite_pos (m1 m2 : positive) (e1 e2 : Z) :
  SFleb (S754_finite false m1 e1) (S754_finite false m2 e2) = true ->
  e1 < e2 \/ (e1 = e2 /\ (m1 <= m2)%positive).
Proof.
  unfold SFleb, SFcompare.
  destruct (Z.compare_spec e1 e2) as [E|E|E]; [|auto|discriminate].
  rewrite Pos.compare_cont_spec. simpl Pos.switch_Eq.
  destruct (Pos.compare_spec m1 m2) as [C|C|C]; [| |discriminate]; intros _.
  - right. split; [assumption|]. rewrite C. apply Pos.le_refl.
  - right. split; [assumption|]. apply Pos.lt_le_incl. exact C.
Qed.

Lemma dle_unit_cases (d : double) :
  is_double d -> dle d0 d = true -> dle d d1 = true ->
  (exists s, d = S754_zero s) \/
  (exists m e, d = S754_finite false m e /\ e < 0 /\ Zpos m <= 2 ^ (- e)).
Proof.
  intros Hv H0 H1. rewrite d1_value in H1. unfold dle, d0 in *.
  rewrite double_of_Z_0 in H0.
  destruct d as [s|s| |s m e].
  - left. eauto.
  - destruct s; simpl in *; discriminate.
  - discriminate.
  - right. destruct s; [simpl in H0; discriminate|].
    exists m, e. split; [reflexivity|].
    destruct (is_double_digits _ _ _ Hv) as [Hd _].
    assert (Hm : Zpos m < 2 ^ 53).
    { destruct (digits_bounds m) as [_ U].
      assert (2 ^ Zpos (digits2_pos m) <= 2 ^ 53)
        by (apply Z.pow_le_mono_r; lia). lia. }
    apply SFleb_finite_pos in H1. destruct H1 as [E|[E C]].
    + split; [lia|].
      assert (2 ^ 53 <= 2 ^ (- e)) by (apply Z.pow_le_mono_r; lia). lia.
    + subst e. split; [reflexivity|]. exact C.
Qed.

(** The product of a counter and a factor between 0 and 1, as computed in
    binary64: its integral part exists, is the floor of the product, and
    is not above the counter. *)
Lemma dmul_bound (v : Z) (d : double) :
  0 <= v < 2 ^ 32 ->
  is_double d -> dle d0 d = true -> dle d d1 = true ->
  exists z, dtrunc (dmul (double_of_Z v) d) = Some z /\
    dfloor (dmul (double_of_Z v) d) = Some z /\ 0 <= z <= v.
Proof.
  intros Hv Hd H0 H1.
  destruct (dle_unit_cases d Hd H0 H1) as [[s ->]|(md & ed & -> & Hed & Hmd)].
  - exists 0. destruct v as [|p|p]; [| |lia].
    + rewrite double_of_Z_0. simpl. repeat split; lia.
    + destruct (double_of_Z_pos p) as (mx & ex & -> & _); [lia|].
      simpl. repeat split; lia.
  - destruct v as [|p|p]; [| |lia].
    + rewrite double_of_Z_0. exists 0. simpl. repeat split; lia.
    + destruct (double_of_Z_pos p) as (mx & ex & -> & Hex & Hmx); [lia|].
      unfold dmul, SFmul. simpl xorb.
      pose proof (binary_round_aux_bound (mx * md) (ex + ed) (Zpos p)) as Hb.
      destruct (binary_round_aux prec emax false (Zpos (mx * md)) (ex + ed)
                  loc_Exact) as [s|s| |s m e].
      * exists 0. simpl. repeat split; lia.
      * exfalso. apply Hb; [lia|lia|].
        rewrite Pos2Z.inj_mul, Hmx. replace (- (ex + ed)) with (- ex + - ed) by lia.
        rewrite pow2_split by lia.
        assert (0 < 2 ^ (- ex)) by (apply Z.pow_pos_nonneg; lia). nia.
      * exfalso. apply Hb; [lia|lia|].
        rewrite Pos2Z.inj_mul, Hmx. replace (- (ex + ed)) with (- ex + - ed) by lia.
        rewrite pow2_split by lia.
        assert (0 < 2 ^ (- ex)) by (apply Z.pow_pos_nonneg; lia). nia.
      * assert (Hb' : match s with
                      | true => False
                      | false => e < 0 /\ Zpos m / 2 ^ (- e) <= Zpos p
                      end).
        { destruct s; apply Hb; try lia;
            rewrite Pos2Z.inj_mul, Hmx;
            replace (- (ex + ed)) with (- ex + - ed) by lia;
            rewrite pow2_split by lia;
            assert (0 < 2 ^ (- ex)) by (apply Z.pow_pos_nonneg; lia); nia. }
        destruct s; [contradiction|]. destruct Hb' as [He Hle].
        exists (Zpos m / 2 ^ (- e)). simpl.
        rewrite Z.shiftl_div_pow2 by lia.
        repeat split; try assumption.
        apply Z.div_pos; [lia|apply Z.pow_pos_nonneg; lia].
Qed.

(** ** [decayCountsBy] *)

Lemma narrow_cast_Ok (w z : Z) (v : option Z) :
  narrow_cast w v = Ok z <-> v = Some z /\ 0 <= z < 2 ^ w.
Proof.
  unfold narrow_cast. destruct v as [y|]; [|split; [discriminate|intros [? _]; discriminate]].
  destruct (0 <=? y) eqn:E1; destruct (y <? 2 ^ w) eqn:E2; simpl;
    try apply Z.leb_le in E1; try apply Z.leb_gt in E1;
    try apply Z.ltb_lt in E2; try apply Z.ltb_ge in E2;
    split; try discriminate;
    try (intros [= <-]; split; [reflexivity|lia]);
    intros [[= ->] H]; try reflexivity; lia.
Qed.

Lemma narrow_cast_no_throw (w : Z) (v : option Z) e :
  narrow_cast w v <> Throw e.
Proof.
  unfold narrow_cast. destruct v as [y|]; [|discriminate].
  destruct ((0 <=? y) && (y <? 2 ^ w)); discriminate.
Qed.

(** C5. After [decayCountsBy d] with [0 <= d <= 1], every cell of the
    table holds the floor of the product of its old value and [d] (the
    binary64 product, truncated back into the counter type), and no
    cell's value increases. *)
Theorem decay_floor s (d : double) :
  wf s -> bits <= 32 ->
  is_double d -> dle d0 d = true -> dle d d1 = true ->
  exists s', decayCountsBy s d = Ok s' /\
    width_ s' = width_ s /\ depth_ s' = depth_ s /\
    saturated s' = saturated s /\
    length (table_ s') = length (table_ s) /\
    forall (i : nat) (v : Z), table_ s !! i = Some v ->
      exists v', table_ s' !! i = Some v' /\
        dfloor (dmul (double_of_Z v) d) = Some v' /\ 0 <= v' <= v.
Proof.
  intros Hwf Hbits Hd H0 H1. unfold decayCountsBy.
  pose proof (wf_size s Hwf) as Hsz. pose proof (wf_fits s Hwf) as Hfit.
  destruct (getMaxCount_pos (wf_bits s Hwf)) as [Hp Hmax].
  assert (H32 : 2 ^ bits <= 2 ^ 32)
    by (apply Z.pow_le_mono_r; [lia|exact Hbits]).
  rewrite u32_small by lia.
  pose (I := fun (n : Z) (t : CountMinSketchBase) =>
    width_ t = width_ s /\ depth_ t = depth_ s /\
    saturated t = saturated s /\
    length (table_ t) = length (table_ s) /\
    (forall (i : nat) (v : Z), Z.of_nat i < n -> table_ s !! i = Some v ->
       exists v', table_ t !! i = Some v' /\
         dfloor (dmul (double_of_Z v) d) = Some v' /\ 0 <= v' <= v) /\
    (forall i : nat, n <= Z.of_nat i -> table_ t !! i = table_ s !! i)).
  destruct (for_loop_total I (decay_cell d)
              (Z.to_nat (width_ s * depth_ s)) 0 s)
    as (s' & Hrun & Hw & Hdp & Hs & Hl & Hdone & _).
  - unfold I. repeat (split; [reflexivity|]).
    split; [intros; lia|reflexivity].
  - intros j t Hj (Hw & Hdp & Hs & Hl & Hdone & Hrest).
    assert (Hjl : (Z.to_nat j < length (table_ s))%nat) by lia.
    destruct (lookup_lt_is_Some_2 _ _ Hjl) as [v Hv].
    assert (Hvt : table_ t !! Z.to_nat j = Some v)
      by (rewrite Hrest by lia; exact Hv).
    pose proof (wf_cells s Hwf) as Hc. rewrite Forall_lookup in Hc.
    specialize (Hc _ _ Hv). unfold getMaxCount in Hc.
    destruct (dmul_bound v d) as (z & Hz & Hfl & Hzv); try assumption; [lia|].
    unfold decay_cell, load. rewrite Hvt, bind_Ok, Hz.
    assert (Hcast : narrow_cast bits (Some z) = Ok z)
      by (apply narrow_cast_Ok; split; [reflexivity|lia]).
    rewrite Hcast, bind_Ok.
    rewrite store_in_range by lia.
    eexists. split; [reflexivity|]. unfold I. simpl.
    repeat (split; [assumption|]).
    split; [rewrite length_insert; assumption|]. split.
    + intros i u Hi Hu.
      destruct (Nat.eq_dec i (Z.to_nat j)) as [->|Hne].
      * rewrite list_lookup_insert_eq by lia.
        assert (u = v) by congruence. subst u. exists z. auto.
      * rewrite list_lookup_insert_ne by congruence.
        apply (Hdone i u); [lia|assumption].
    + intros i Hi. rewrite list_lookup_insert_ne by lia.
      apply Hrest. lia.
  - exists s'. split; [exact Hrun|]. repeat (split; [assumption|]).
    intros i v Hv. apply (Hdone i v); [|assumption].
    apply lookup_lt_Some in Hv. lia.
Qed.

(** ** The quotient [2 / error] *)

Lemma digits_mono (p q : positive) :
  Zpos p <= Zpos q -> Zpos (digits2_pos p) <= Zpos (digits2_pos q).
Proof.
  intros H. apply digits_le. destruct (digits_bounds q) as [_ U]. lia.
Qed.

(** A positive mantissa above the subnormal threshold survives
    [shr_fexp]. *)
Lemma shr_fexp_pos (m : positive) (e : Z) (l : location)
    (mrs : shr_record) (e' : Z) :
  -1074 < Zpos (digits2_pos m) + e ->
  shr_fexp prec emax (Zpos m) e l = (mrs, e') ->
  1 <= shr_m mrs /\
  ((mrs = shr_record_of_loc (Zpos m) l /\ e' = e) \/ -1074 <= e').
Proof.
  intros Hd H. apply shr_fexp_spec in H; [|lia]. simpl in H.
  destruct H as (He & Hm & Hx).
  set (n := fexp prec emax (Zpos (digits2_pos m) + e) - e) in *.
  destruct (Z.le_gt_cases n 0) as [Hn|Hn].
  - rewrite Z.max_l in Hm, He by lia. rewrite Z.div_1_r in Hm.
    split; [lia|]. left. split; [auto|lia].
  - rewrite Z.max_r in Hm, He by lia. split.
    + rewrite Hm. destruct (digits_bounds m) as [L _].
      assert (Hn' : n <= Zpos (digits2_pos m) - 1)
        by (unfold n, fexp, emin, prec, emax; lia).
      assert (2 ^ n <= 2 ^ (Zpos (digits2_pos m) - 1))
        by (apply Z.pow_le_mono_r; lia).
      apply Z.div_le_lower_bound; [apply Z.pow_pos_nonneg; lia|lia].
    + right. subst e'. unfold n, fexp, emin, prec, emax. lia.
Qed.

(** Rounding a positive value above the subnormal threshold never gives
    zero: the result is a positive double or plus infinity. *)
Lemma binary_round_aux_pos (mz : positive) (ez : Z) (lz : location) :
  -1074 < Zpos (digits2_pos mz) + ez ->
  match binary_round_aux prec emax false (Zpos mz) ez lz with
  | S754_finite false _ _ | S754_infinity false => True
  | _ => False
  end.
Proof.
  intros Hd. unfold binary_round_aux.
  destruct (shr_fexp prec emax (Zpos mz) ez lz) as [mrs1 e1] eqn:H1.
  destruct (shr_fexp_pos mz ez lz mrs1 e1 Hd H1) as [Hm1 Hc1].
  pose proof (round_nearest_even_bounds (shr_m mrs1)
                (loc_of_shr_record mrs1)) as Hb.
  destruct (round_nearest_even (shr_m mrs1) (loc_of_shr_record mrs1))
    as [|r|r] eqn:Er; [lia| |lia].
  assert (Hd2 : -1074 < Zpos (digits2_pos r) + e1).
  { destruct Hc1 as [[-> ->]|He1].
    - rewrite shr_record_of_loc_m in Hb.
      pose proof (digits_mono mz r (proj1 Hb)). lia.
    - assert (1 <= Zpos (digits2_pos r)) by lia. lia. }
  destruct (shr_fexp prec emax (Zpos r) e1 loc_Exact) as [mrs2 e2] eqn:H2.
  destruct (shr_fexp_pos r e1 loc_Exact mrs2 e2 Hd2 H2) as [Hm2 _].
  destruct (shr_m mrs2) as [|m|m]; [lia| |lia].
  destruct (e2 <=? emax - prec); exact I.
Qed.

(** [2 / error] for a double [error] below 1: positive, or infinite. *)
Lemma ddiv_two_pos (m2 : positive) (e2 : Z) :
  Zpos (digits2_pos m2) + e2 <= 0 ->
  match ddiv d2 (S754_finite false m2 e2) with
  | S754_finite false _ _ | S754_infinity false => True
  | _ => False
  end.
Proof.
  intros Hlt. rewrite d2_value. unfold ddiv, SFdiv, SFdiv_core_binary.
  set (D := Zpos (digits2_pos m2)) in *.
  assert (HD : 1 <= D) by (unfold D; lia).
  change (Zdigits2 (Zpos 4503599627370496)) with 53.
  change (Zdigits2 (Zpos m2)) with D.
  assert (He : Z.min (fexp prec emax (53 + -51 - (D + e2))) (-51 - e2)
               = -51 - D - e2)
    by (unfold fexp, emin, prec, emax; lia).
  rewrite He. replace (-51 - e2 - (-51 - D - e2)) with D by lia.
  unfold D at 1.
  change (Z.shiftl (Zpos 4503599627370496) (Zpos (digits2_pos m2)))
    with (Z.shiftl 4503599627370496 D).
  rewrite Z.shiftl_mul_pow2 by lia.
  destruct (Z.div_eucl (4503599627370496 * 2 ^ D) (Zpos m2)) as [q r] eqn:Eq.
  assert (Hq : q = (4503599627370496 * 2 ^ D) / Zpos m2)
    by (unfold Z.div; rewrite Eq; reflexivity).
  destruct (digits_bounds m2) as [_ U]. fold D in U.
  assert (Hq52 : 2 ^ 52 <= q).
  { rewrite Hq. apply Z.div_le_lower_bound; [lia|].
    change (2 ^ 52) with 4503599627370496. nia. }
  destruct q as [|qp|qp]; [lia| |lia].
  apply binary_round_aux_pos.
  pose proof (digits_gt qp 52) as Hg. lia.
Qed.

Lemma dceil_pos (m : positive) (e : Z) (z : Z) :
  dceil (S754_finite false m e) = Some z -> 1 <= z.
Proof.
  simpl. intros [= <-].
  destruct (Z.le_gt_cases 0 e) as [He|He].
  - rewrite Z.shiftl_mul_pow2 by lia.
    assert (0 < 2 ^ e) by (apply Z.pow_pos_nonneg; lia). nia.
  - rewrite Z.shiftl_div_pow2 by lia.
    assert (Z.neg m / 2 ^ (- e) < 0); [|lia].
    apply Z.div_lt_upper_bound; [apply Z.pow_pos_nonneg; lia|lia].
Qed.

(** ** Comparisons of doubles *)

Lemma SFcompare_antisym (a b : double) :
  SFcompare b a = option_map CompOpp (SFcompare a b).
Proof.
  destruct a as [sa|sa| |sa ma ea]; destruct b as [sb|sb| |sb mb eb];
    simpl; try reflexivity;
    try (destruct sa; reflexivity); try (destruct sb; reflexivity);
    try (destruct sa, sb; reflexivity).
  destruct sa, sb; try reflexivity;
    rewrite (Z.compare_antisym ea eb);
    destruct (ea ?= eb); simpl; try reflexivity;
    rewrite !Pos.compare_cont_spec; simpl Pos.switch_Eq;
    rewrite (Pos.compare_antisym ma mb);
    destruct (ma ?= mb)%positive; reflexivity.
Qed.

Lemma SFcompare_Some (a b : double) :
  a <> S754_nan -> b <> S754_nan -> exists c, SFcompare a b = Some c.
Proof.
  intros Ha Hb.
  destruct a as [sa|sa| |sa ma ea]; destruct b as [sb|sb| |sb mb eb];
    try congruence; unfold SFcompare; eauto.
Qed.

(** On numbers, "outside" is the complement of "inside". *)
Lemma outside_unit_iff (x : double) :
  x <> S754_nan -> (outside_unit x <-> ~ inside_unit x).
Proof.
  intros Hx. unfold outside_unit, inside_unit, dle, dge, dlt, SFleb, SFltb.
  rewrite (SFcompare_antisym d0 x), (SFcompare_antisym x d1).
  destruct (SFcompare_Some d0 x) as [c0 ->]; [discriminate|exact Hx|].
  destruct (SFcompare_Some x d1) as [c1 ->];
    [exact Hx|rewrite d1_value; discriminate|].
  unfold option_map.
  destruct c0, c1; unfold CompOpp; split; intros H;
    try (destruct H; discriminate); try (destruct H as [? ?]; discriminate);
    auto; try (intros [? ?]; discriminate);
    try (exfalso; apply H; split; reflexivity).
Qed.

Lemma SFleb_finite_false (m1 m2 : positive) (e1 e2 : Z) :
  SFleb (S754_finite false m1 e1) (S754_finite false m2 e2) = false ->
  e2 < e1 \/ (e1 = e2 /\ (m2 < m1)%positive).
Proof.
  unfold SFleb, SFcompare.
  destruct (Z.compare_spec e1 e2) as [E|E|E]; [|discriminate|auto].
  rewrite Pos.compare_cont_spec. simpl Pos.switch_Eq.
  destruct (Pos.compare_spec m1 m2) as [C|C|C]; try discriminate.
  intros _. right. auto.
Qed.

(** The doubles that pass the range check of [calculateWidth]: NaN, for
    which both comparisons are false, and the doubles below 1. *)
Lemma range_check_passes (x : double) :
  is_double x -> dle x d0 || dge x d1 = false ->
  x = S754_nan \/
  exists m e, x = S754_finite false m e /\ Zpos (digits2_pos m) + e <= 0.
Proof.
  intros Hv H. apply orb_false_elim in H. destruct H as [H0 H1].
  unfold dle, dge, d0 in *. rewrite double_of_Z_0 in H0.
  rewrite d1_value in H1.
  destruct x as [s|s| |s m e].
  - discriminate.
  - destruct s; simpl in *; discriminate.
  - left. reflexivity.
  - right. destruct s; [simpl in H0; discriminate|].
    exists m, e. split; [reflexivity|].
    destruct (is_double_digits _ _ _ Hv) as [Hd _].
    apply SFleb_finite_false in H1. destruct H1 as [E|[E C]]; [lia|].
    subst e. apply Pos2Z.pos_lt_pos in C.
    pose proof (digits_le m 52 C) as Hd52. clear C. lia.
Qed.

(** ** The dimensions computed from the accuracy *)

Lemma calculateWidth_cases (error : double) (maxWidth : Z) :
  is_double error ->
  (outside_unit error /\
   calculateWidth error maxWidth =
   Throw (invalid_argument
            "Error should be greater than 0 and less than 1. Error: {}"
            (VDouble error))) \/
  (~ outside_unit error /\
   (calculateWidth error maxWidth = Undefined \/
    exists w, calculateWidth error maxWidth = Ok w /\ 1 <= w)).
Proof.
  intros Hv. unfold calculateWidth.
  destruct (dle error d0 || dge error d1) eqn:E.
  - left. split; [|reflexivity]. apply orb_prop in E. exact E.
  - right. split.
    { apply orb_false_elim in E. unfold outside_unit. intros [H|H]; destruct E; congruence. }
    destruct (range_check_passes error Hv E) as [->|(m & e & -> & Hd)].
    + left. reflexivity.
    + pose proof (ddiv_two_pos m e Hd) as Hq.
      destruct (ddiv d2 (S754_finite false m e)) as [s|s| |s mq eq] eqn:Eq;
        try contradiction.
      * destruct s; [contradiction|]. left. reflexivity.
      * destruct s; [contradiction|].
        destruct (dceil (S754_finite false mq eq)) as [z|] eqn:Ez;
          [|left; reflexivity].
        pose proof (dceil_pos mq eq z Ez) as Hz.
        destruct (narrow_cast 32 (Some z)) as [w| |] eqn:Ec.
        -- right. apply narrow_cast_Ok in Ec. destruct Ec as [[= <-] _].
           rewrite bind_Ok. eexists. split; [reflexivity|].
           destruct (0 <? maxWidth) eqn:Em; [apply Z.ltb_lt in Em|]; lia.
        -- exfalso. exact (narrow_cast_no_throw _ _ _ Ec).
        -- left. reflexivity.
Qed.

Lemma calculateDepth_cases (probability : double) (maxDepth : Z) :
  (outside_unit probability /\
   calculateDepth probability maxDepth =
   Throw (invalid_argument
     "Probability should be greater than 0 and less than 1. Probability: {}"
     (VDouble probability))) \/
  (~ outside_unit probability /\
   (calculateDepth probability maxDepth = Undefined \/
    exists d, calculateDepth probability maxDepth = Ok d /\ 1 <= d)).
Proof.
  unfold calculateDepth.
  destruct (dle probability d0 || dge probability d1) eqn:E.
  - left. split; [|reflexivity]. apply orb_prop in E. exact E.
  - right. split.
    { apply orb_false_elim in E. unfold outside_unit.
      intros [H|H]; destruct E; congruence. }
    destruct (narrow_cast 32 _) as [w| |] eqn:Ec.
    + right. rewrite bind_Ok. eexists. split; [reflexivity|].
      destruct (0 <? maxDepth) eqn:Em; [apply Z.ltb_lt in Em|]; lia.
    + exfalso. exact (narrow_cast_no_throw _ _ _ Ec).
    + left. reflexivity.
Qed.

(** ** No operation throws *)

Lemma bind_no_throw {A B : Type} (m : result A) (f : A -> result B) :
  (forall e, m <> Throw e) -> (forall a e, f a <> Throw e) ->
  forall e, m ≫= f <> Throw e.
Proof.
  intros Hm Hf e. destruct m as [a|e'|]; simpl.
  - apply Hf.
  - exfalso. exact (Hm e' eq_refl).
  - discriminate.
Qed.

Lemma getIndex_no_throw s row key e : getIndex s row key <> Throw e.
Proof. unfold getIndex. destruct (width_ s =? 0); discriminate. Qed.

Create HintDb no_throw.
#[local] Hint Resolve load_no_throw store_no_throw narrow_cast_no_throw
  getIndex_no_throw : no_throw.

(** Peels the binds of a loop body whose steps are in the database. *)
Ltac no_throw :=
  repeat (apply bind_no_throw; [intros; auto with no_throw|intros ?]);
  intros; auto with no_throw; try discriminate.

Lemma increment_no_throw s key e : increment s key <> Throw e.
Proof.
  unfold increment. apply for_loop_no_throw. clear. intros j s.
  unfold increment_row. no_throw.
  destruct (_ <? getMaxCount); [|discriminate]. revert e. no_throw.
  destruct (_ =? getMaxCount); discriminate.
Qed.

Lemma getCount_no_throw s key e : getCount s key <> Throw e.
Proof.
  unfold getCount. revert e. apply bind_no_throw; [|discriminate].
  intros e. apply for_loop_no_throw. clear. intros j count.
  unfold getCount_row. no_throw.
Qed.

Lemma resetCount_no_throw s key e : resetCount s key <> Throw e.
Proof.
  unfold resetCount. revert e.
  apply bind_no_throw; [intros; apply getCount_no_throw|]. intros count e.
  apply for_loop_no_throw. clear. intros j s.
  unfold resetCount_row. no_throw.
Qed.

Lemma decayCountsBy_no_throw s decay e : decayCountsBy s decay <> Throw e.
Proof.
  unfold decayCountsBy. apply for_loop_no_throw. clear. intros j s.
  unfold decay_cell. no_throw.
Qed.

Lemma reset_no_throw s e : reset s <> Throw e.
Proof. unfold reset. apply for_loop_no_throw. no_throw. Qed.

(** ** Errors of construction *)

Lemma dimensions_throw_iff (w d : Z) :
  (exists e, CountMinSketchBase_dimensions w d = Throw e) <-> w = 0 \/ d = 0.
Proof.
  unfold CountMinSketchBase_dimensions. simpl.
  destruct (w =? 0) eqn:Ew; [apply Z.eqb_eq in Ew|apply Z.eqb_neq in Ew].
  - split; [auto|eauto].
  - destruct (d =? 0) eqn:Ed; [apply Z.eqb_eq in Ed|apply Z.eqb_neq in Ed].
    + split; [auto|eauto].
    + split; [|lia]. intros [e He]. exfalso. exact (reset_no_throw _ _ He).
Qed.

(** The outcomes of construction in terms of the range checks of the
    code, [x <= 0 || x >= 1], for an error whose width computation has
    defined behaviour; and no operation after construction throws. *)
Lemma construction_outcomes (w d : Z) (error probability : double)
    (maxWidth maxDepth : Z) (s : CountMinSketchBase) (key : Z)
    (decay : double) :
  is_double error ->
  calculateWidth error maxWidth <> Undefined ->
  ((exists e, CountMinSketchBase_dimensions w d = Throw e)
   <-> w = 0 \/ d = 0) /\
  (w = 0 ->
   CountMinSketchBase_dimensions w d =
   Throw (invalid_argument "Width must be greater than 0. Width: {}"
                           (VUInt w))) /\
  (w <> 0 -> d = 0 ->
   CountMinSketchBase_dimensions w d =
   Throw (invalid_argument "Depth must be greater than 0. Depth: {}"
                           (VUInt d))) /\
  ((exists e, CountMinSketchBase_accuracy error probability maxWidth maxDepth
              = Throw e)
   <-> outside_unit error \/ outside_unit probability) /\
  (outside_unit error ->
   CountMinSketchBase_accuracy error probability maxWidth maxDepth =
   Throw (invalid_argument
            "Error should be greater than 0 and less than 1. Error: {}"
            (VDouble error))) /\
  (~ outside_unit error -> outside_unit probability ->
   CountMinSketchBase_accuracy error probability maxWidth maxDepth =
   Throw (invalid_argument
     "Probability should be greater than 0 and less than 1. Probability: {}"
     (VDouble probability))) /\
  (forall e,
     increment s key <> Throw e /\ getCount s key <> Throw e /\
     resetCount s key <> Throw e /\ decayCountsBy s decay <> Throw e /\
     reset s <> Throw e).
Proof.
  intros Hv Hdef.
  split; [apply dimensions_throw_iff|].
  split.
  { intros ->. reflexivity. }
  split.
  { intros Hw ->. unfold CountMinSketchBase_dimensions. simpl.
    apply Z.eqb_neq in Hw. rewrite Hw. reflexivity. }
  assert (Hacc :
    (outside_unit error ->
     CountMinSketchBase_accuracy error probability maxWidth maxDepth =
     Throw (invalid_argument
              "Error should be greater than 0 and less than 1. Error: {}"
              (VDouble error))) /\
    (~ outside_unit error -> outside_unit probability ->
     CountMinSketchBase_accuracy error probability maxWidth maxDepth =
     Throw (invalid_argument
       "Probability should be greater than 0 and less than 1. Probability: {}"
       (VDouble probability))) /\
    (~ outside_unit error -> ~ outside_unit probability ->
     forall e, CountMinSketchBase_accuracy error probability maxWidth maxDepth
               <> Throw e)).
  { unfold CountMinSketchBase_accuracy.
    destruct (calculateWidth_cases error maxWidth Hv)
      as [[Ho ->]|[Hno [Hu|(wv & -> & Hwv)]]].
    - split; [reflexivity|]. split; intros; contradiction.
    - contradiction.
    - split; [intros; contradiction|]. rewrite bind_Ok.
      destruct (calculateDepth_cases probability maxDepth)
        as [[Hp ->]|[Hnp [->|(dv & -> & Hdv)]]].
      + split; [reflexivity|]. intros; contradiction.
      + split; [intros; contradiction|]. discriminate.
      + split; [intros; contradiction|]. intros _ _ e He.
        rewrite bind_Ok in He.
        assert (wv = 0 \/ dv = 0)
          by (apply dimensions_throw_iff; eauto). lia. }
  destruct Hacc as (Herr & Hprob & Hok).
  split; [|split; [exact Herr|split; [exact Hprob|]]].
  - split.
    + intros [e He].
      destruct (calculateWidth_cases error maxWidth Hv) as [[Ho _]|[Hno _]];
        [auto|].
      destruct (calculateDepth_cases probability maxDepth)
        as [[Hp _]|[Hnp _]]; [auto|].
      exfalso. exact (Hok Hno Hnp e He).
    + intros [Ho|Hp]; [eauto|].
      destruct (calculateWidth_cases error maxWidth Hv) as [[Ho _]|[Hno _]];
        eauto.
  - intros e.
    split; [apply increment_no_throw|]. split; [apply getCount_no_throw|].
    split; [apply resetCount_no_throw|].
    split; [apply decayCountsBy_no_throw|apply reset_no_throw].
Qed.

Lemma inside_passes (x : double) :
  inside_unit x -> dle x d0 || dge x d1 = false.
Proof.
  intros [H0 H1]. unfold dle, dge, dlt, SFleb, SFltb in *.
  rewrite (SFcompare_antisym d0 x), (SFcompare_antisym x d1).
  destruct (SFcompare d0 x) as [[| |]|]; try discriminate.
  destruct (SFcompare x d1) as [[| |]|]; try discriminate.
  reflexivity.
Qed.

(** C7, amended. For an error and a probability in (0,1) whose
    ceilings fit an unsigned 32-bit integer, the accuracy constructor
    resolves the width to [ceil (2 / error)], clamped to [maxWidth] when
    [maxWidth > 0], and the depth to [max 1 (ceil |log (1 - probability)
    / log 2|)], clamped to [maxDepth] when [maxDepth > 0], the quotients
    being those of binary64 and [log] that of the C library.  For
    error 0.01, probability 0.99 and no caps the width is 200, and the
    depth is 7 for the correctly rounded logarithms. *)
Theorem accuracy_dimensions (error probability : double)
    (maxWidth maxDepth wv dv : Z) :
  inside_unit error -> inside_unit probability ->
  dceil (ddiv d2 error) = Some wv -> 0 <= wv < 2 ^ 32 ->
  dceil (dabs (ddiv (log (dsub d1 probability)) (log d2))) = Some dv ->
  0 <= dv < 2 ^ 32 ->
  let width := if 0 <? maxWidth then Z.min maxWidth wv else wv in
  let depth :=
    if 0 <? maxDepth then Z.min maxDepth (Z.max 1 dv) else Z.max 1 dv in
  calculateWidth error maxWidth = Ok width /\
  calculateDepth probability maxDepth = Ok depth /\
  CountMinSketchBase_accuracy error probability maxWidth maxDepth
  = CountMinSketchBase_dimensions width depth /\
  calculateWidth d_0_01 0 = Ok 200 /\
  (log (dsub d1 d_0_99) = ln_0_01 -> log d2 = ln_2 ->
   calculateDepth d_0_99 0 = Ok 7 /\
   exists s, CountMinSketchBase_accuracy d_0_01 d_0_99 0 0 = Ok s /\
     width_ s = 200 /\ depth_ s = 7).
Proof.
  intros He Hp Hw Hwr Hd Hdr width depth.
  assert (Hcw : calculateWidth error maxWidth = Ok width).
  { unfold calculateWidth. rewrite (inside_passes error He), Hw.
    assert (Hc : narrow_cast 32 (Some wv) = Ok wv)
      by (apply narrow_cast_Ok; auto).
    rewrite Hc. reflexivity. }
  assert (Hcd : calculateDepth probability maxDepth = Ok depth).
  { unfold calculateDepth. rewrite (inside_passes probability Hp), Hd.
    assert (Hc : narrow_cast 32 (Some dv) = Ok dv)
      by (apply narrow_cast_Ok; auto).
    rewrite Hc. reflexivity. }
  split; [exact Hcw|]. split; [exact Hcd|].
  split.
  { unfold CountMinSketchBase_accuracy. rewrite Hcw, Hcd. reflexivity. }
  assert (H200 : calculateWidth d_0_01 0 = Ok 200) by (vm_compute; reflexivity).
  split; [exact H200|].
  intros H1 H2.
  assert (H7 : calculateDepth d_0_99 0 = Ok 7).
  { unfold calculateDepth. rewrite H1, H2. vm_compute. reflexivity. }
  split; [exact H7|].
  unfold CountMinSketchBase_accuracy. rewrite H200, H7, !bind_Ok.
  destruct (dimensions_Ok 200 7) as (s & Hs & Hws & Hds & _); [lia|lia|].
  exists s. auto.
Qed.

(** ** The saturation counter *)

Lemma run_app s cs1 cs2 :
  run s (cs1 ++ cs2) = (s' ← run s cs1; run s' cs2).
Proof.
  revert s. induction cs1 as [|c cs1 IH]; intros s; [reflexivity|].
  cbn [app run]. destruct (perform s c) as [s1| |]; [|reflexivity..].
  rewrite !bind_Ok. apply IH.
Qed.

(** In a sketch of one cell the hash functions play no role. *)
Lemma getIndex_one_cell (c sat key : Z) :
  getIndex (one_cell c sat) 0 key = Ok 0.
Proof.
  unfold getIndex. cbn [one_cell width_]. change (1 =? 0) with false.
  cbv iota. rewrite Z.mod_1_r. reflexivity.
Qed.

Lemma increment_one_cell (c sat key : Z) :
  0 < bits -> 0 <= c < getMaxCount ->
  increment (one_cell c sat) key =
  Ok (one_cell (c + 1)
        (if c + 1 =? getMaxCount then u64 (sat + 1) else sat)).
Proof.
  intros Hb Hc. unfold increment. cbn [one_cell depth_].
  change (Z.to_nat 1) with 1%nat. cbn [for_loop].
  fold (one_cell c sat). unfold increment_row.
  rewrite getIndex_one_cell, bind_Ok.
  change (load (one_cell c sat) 0) with (Ok c). rewrite bind_Ok.
  destruct (c <? getMaxCount) eqn:E; [|apply Z.ltb_ge in E; lia].
  rewrite to_UINT_small by lia.
  change (store (one_cell c sat) 0 (c + 1)) with (Ok (one_cell (c + 1) sat)).
  rewrite bind_Ok.
  change (load (one_cell (c + 1) sat) 0) with (Ok (c + 1)).
  rewrite bind_Ok.
  destruct (c + 1 =? getMaxCount); reflexivity.
Qed.

Lemma increments_one_cell (sat key : Z) (n : nat) :
  0 < bits ->
  forall c, 0 <= c -> c + Z.of_nat n < getMaxCount ->
    run (one_cell c sat) (repeat (Increment key) n)
    = Ok (one_cell (c + Z.of_nat n) sat).
Proof.
  intros Hb. induction n as [|n IH]; intros c Hc Hn.
  - simpl. rewrite Z.add_0_r. reflexivity.
  - cbn [repeat run perform]. rewrite increment_one_cell by lia.
    destruct (c + 1 =? getMaxCount) eqn:E; [apply Z.eqb_eq in E; lia|].
    rewrite bind_Ok, IH by lia. do 2 f_equal. lia.
Qed.

(** Incrementing the single cell up to the maximum saturates it, and
    the counter of saturated cells goes up by one. *)
Lemma increments_to_max (sat key : Z) :
  0 < bits ->
  run (one_cell 0 sat) (repeat (Increment key) (Z.to_nat getMaxCount))
  = Ok (one_cell getMaxCount (u64 (sat + 1))).
Proof.
  intros Hb. destruct (getMaxCount_pos Hb) as [Hp Hm].
  assert (H2 : 2 ^ 1 <= 2 ^ bits) by (apply Z.pow_le_mono_r; lia).
  change (2 ^ 1) with 2 in H2.
  assert (Hmax : 1 <= getMaxCount) by (unfold getMaxCount; lia).
  replace (Z.to_nat getMaxCount) with (S (Z.to_nat (getMaxCount - 1))) by lia.
  cbn [repeat]. rewrite repeat_cons, run_app.
  rewrite increments_one_cell by lia. rewrite bind_Ok.
  cbn [run perform]. rewrite increment_one_cell by lia.
  rewrite bind_Ok. rewrite Z2Nat.id by lia.
  replace (0 + (getMaxCount - 1) + 1) with getMaxCount by lia.
  rewrite Z.eqb_refl. reflexivity.
Qed.

(** ** Well-formedness is kept by every operation *)

Lemma decayCountsBy_wf s (decay : double) s' :
  wf s -> decayCountsBy s decay = Ok s' -> wf s'.
Proof.
  intros Hwf Hrun. unfold decayCountsBy in Hrun.
  apply (for_loop_partial (fun _ t => wf t) _ _ _ _ _ Hrun Hwf).
  intros j t t2 _ Hwft Hstep. unfold decay_cell in Hstep.
  destruct (load t j) as [c| |]; try discriminate. rewrite bind_Ok in Hstep.
  destruct (narrow_cast bits _) as [v| |] eqn:Ec; try discriminate.
  rewrite bind_Ok in Hstep. apply narrow_cast_Ok in Ec. destruct Ec as [_ Hv].
  apply store_Ok in Hstep. destruct Hstep as [_ ->].
  apply set_table_wf; [assumption|]. unfold getMaxCount. lia.
Qed.

Lemma perform_wf s (c : call) s' : wf s -> perform s c = Ok s' -> wf s'.
Proof.
  intros Hwf. destruct c as [key|key|key|decay|]; cbn [perform].
  - destruct (increment_effect s key Hwf) as (t & -> & Hwft & _).
    intros [= <-]. exact Hwft.
  - rewrite (getCount_wf s key Hwf), bind_Ok. intros [= <-]. exact Hwf.
  - destruct (getCount_le_cells s key Hwf) as (n & Hget & Hn & Hle).
    pose proof (wf_depth s Hwf) as Hd.
    destruct (resetCount_prefix s key n Hwf (proj1 Hn) Hle
                (Z.to_nat (depth_ s))) as (t & Hrun & Hwft & _); [lia|].
    unfold resetCount. rewrite Hget, bind_Ok, Hrun. intros [= <-]. exact Hwft.
  - apply decayCountsBy_wf. exact Hwf.
  - intros Hr.
    assert (Hlen : Z.of_nat (length (table_ s)) = u32 (width_ s * depth_ s)).
    { destruct Hwf. rewrite u32_small by nia. assumption. }
    destruct (reset_effect s Hlen) as (t & Ht & Hw & Hd & _ & Hl & Hz).
    rewrite Ht in Hr. injection Hr as <-.
    apply (zero_table_wf s Hwf); assumption.
Qed.

(** Every state reached from a well-formed sketch is well formed. *)
Lemma run_wf (cs : list call) :
  forall s s', wf s -> run s cs = Ok s' -> wf s'.
Proof.
  induction cs as [|c cs IH]; intros s s' Hwf; cbn [run].
  - intros [= <-]. exact Hwf.
  - destruct (perform s c) as [t| |] eqn:E; try discriminate.
    rewrite bind_Ok. apply IH. exact (perform_wf s c t Hwf E).
Qed.

(** ** The saturation counter along increments *)

Lemma filter_length_insert (P : Z -> Prop) `{!forall x, Decision (P x)}
    (l : list Z) (i : nat) (x y : Z) :
  l !! i = Some y ->
  (length (filter P (<[i:=x]> l)) + (if decide (P y) then 1 else 0)
   = length (filter P l) + (if decide (P x) then 1 else 0))%nat.
Proof.
  revert i. induction l as [|a l IH]; intros i Hi; [discriminate|].
  destruct i as [|i]; simpl in Hi.
  - injection Hi as ->. change (<[0%nat:=x]> (y :: l)) with (x :: l).
    rewrite !filter_cons.
    destruct (decide (P x)), (decide (P y)); simpl; lia.
  - change (<[S i:=x]> (a :: l)) with (a :: <[i:=x]> l).
    rewrite !filter_cons. specialize (IH i Hi).
    destruct (decide (P a)), (decide (P x)), (decide (P y)); simpl in *; lia.
Qed.

Lemma saturated_cells_bound s :
  0 <= saturated_cells s <= Z.of_nat (length (table_ s)).
Proof.
  unfold saturated_cells. split; [lia|].
  apply inj_le. apply length_filter.
Qed.

(** One iteration of [increment] keeps the counter equal to the number
    of cells at the maximum. *)
Lemma increment_row_saturated s key row s' :
  wf s -> 0 <= row < depth_ s ->
  saturated s = saturated_cells s ->
  increment_row key row s = Ok s' ->
  saturated s' = saturated_cells s'.
Proof.
  intros Hwf Hrow Hsat.
  destruct (index_range s row key Hwf Hrow) as [_ Hi].
  destruct (lookup_wf s _ Hwf Hi) as [Hl Hc].
  pose proof (wf_size s Hwf) as Hsz. pose proof (wf_fits s Hwf) as Hfit.
  unfold increment_row.
  rewrite (getIndex_wf s row key Hwf Hrow), bind_Ok.
  rewrite (load_wf s _ Hwf Hi), bind_Ok.
  set (i := index s row key) in *. set (c := cell s i) in *.
  destruct (c <? getMaxCount) eqn:Hlt; [|intros [= <-]; exact Hsat].
  apply Z.ltb_lt in Hlt. rewrite (to_UINT_small (c + 1)) by lia.
  rewrite (store_wf s _ _ Hwf Hi), bind_Ok.
  set (s1 := set_table s _).
  assert (Hwf1 : wf s1) by (apply set_table_wf; [assumption|lia]).
  rewrite (load_wf s1 i Hwf1 Hi), bind_Ok.
  assert (Hc1 : cell s1 i = c + 1).
  { unfold s1. rewrite cell_insert by lia. rewrite Z.eqb_refl. reflexivity. }
  rewrite Hc1.
  pose proof (filter_length_insert (fun v => v = getMaxCount)
                (table_ s) (Z.to_nat i) (c + 1) c Hl) as Hcount.
  destruct (decide (c = getMaxCount)) as [Hcm|_]; [lia|].
  pose proof (saturated_cells_bound s) as Hb.
  destruct (c + 1 =? getMaxCount) eqn:E; intros [= <-].
  - apply Z.eqb_eq in E.
    destruct (decide (c + 1 = getMaxCount)) as [_|Hne]; [|contradiction].
    unfold saturated_cells in *. simpl in *.
    rewrite u64_small by lia. lia.
  - apply Z.eqb_neq in E.
    destruct (decide (c + 1 = getMaxCount)) as [He|_]; [contradiction|].
    unfold saturated_cells in *. simpl in *. lia.
Qed.

(** Along [increment] and [getCount] calls on a freshly constructed
    sketch the counter is the number of cells at the maximum. *)
Lemma increment_saturated s key s' :
  wf s -> saturated s = saturated_cells s ->
  increment s key = Ok s' -> saturated s' = saturated_cells s'.
Proof.
  intros Hwf Hsat Hrun. unfold increment in Hrun.
  pose proof (wf_depth s Hwf) as Hd.
  enough (wf s' /\ depth_ s' = depth_ s /\ saturated s' = saturated_cells s')
    by tauto.
  apply (for_loop_partial
           (fun _ t => wf t /\ depth_ t = depth_ s /\
                       saturated t = saturated_cells t) _ _ _ _ _ Hrun);
    [auto|].
  intros j t t2 Hj (Hwft & Hdt & Hst) Hstep.
  assert (Hjt : 0 <= j < depth_ t) by lia.
  destruct (increment_row_effect t key j Hwft Hjt)
    as (t' & Ht' & Hwft' & _ & Hdt' & _).
  assert (t2 = t') by congruence. subst t2.
  split; [assumption|]. split; [congruence|].
  exact (increment_row_saturated t key j t' Hwft Hjt Hst Hstep).
Qed.

(** ** What every operation keeps *)

Lemma same_shape_refl s : same_shape s s.
Proof. unfold same_shape. auto. Qed.

Lemma same_shape_trans s t u :
  same_shape s t -> same_shape t u -> same_shape s u.
Proof. unfold same_shape. intros (?&?&?) (?&?&?). repeat split; congruence. Qed.

Lemma store_shape s i v s' :
  store s i v = Ok s' -> same_shape s s' /\ saturated s' = saturated s.
Proof.
  intros H. apply store_Ok in H. destruct H as [_ ->].
  unfold same_shape. simpl. rewrite length_insert. auto.
Qed.

Lemma increment_row_shape key j s s' :
  increment_row key j s = Ok s' -> same_shape s s'.
Proof.
  unfold increment_row.
  destruct (getIndex s j key) as [i| |]; try discriminate. rewrite bind_Ok.
  destruct (load s i) as [c| |]; try discriminate. rewrite bind_Ok.
  destruct (c <? getMaxCount); [|intros [= <-]; apply same_shape_refl].
  destruct (store s i _) as [s1| |] eqn:Es; try discriminate. rewrite bind_Ok.
  apply store_shape in Es. destruct Es as [Hs _].
  destruct (load s1 i) as [c1| |]; try discriminate. rewrite bind_Ok.
  destruct (c1 =? getMaxCount); intros [= <-]; exact Hs.
Qed.

Lemma resetCount_row_shape key c j s s' :
  resetCount_row key c j s = Ok s' ->
  same_shape s s' /\ saturated s' = saturated s.
Proof.
  unfold resetCount_row.
  destruct (getIndex s j key) as [i| |]; try discriminate. rewrite bind_Ok.
  destruct (load s i) as [v| |]; try discriminate. rewrite bind_Ok.
  apply store_shape.
Qed.

Lemma decay_cell_shape decay j s s' :
  decay_cell decay j s = Ok s' ->
  same_shape s s' /\ saturated s' = saturated s.
Proof.
  unfold decay_cell.
  destruct (load s j) as [v| |]; try discriminate. rewrite bind_Ok.
  destruct (narrow_cast bits _) as [z| |]; try discriminate. rewrite bind_Ok.
  apply store_shape.
Qed.

(** A loop whose iterations keep the shape and the saturation counter
    keeps them. *)
Lemma for_loop_shape (body : Z -> CountMinSketchBase -> result CountMinSketchBase)
    (n : nat) (i : Z) (s s' : CountMinSketchBase) :
  (forall j t t', body j t = Ok t' ->
     same_shape t t' /\ saturated t' = saturated t) ->
  for_loop n i body s = Ok s' ->
  same_shape s s' /\ saturated s' = saturated s.
Proof.
  intros Hbody Hrun.
  apply (for_loop_partial
           (fun _ t => same_shape s t /\ saturated t = saturated s)
           _ _ _ _ _ Hrun).
  - split; [apply same_shape_refl|reflexivity].
  - intros j t t' _ [Hs Hsat] Hstep.
    destruct (Hbody j t t' Hstep) as [Hs' Hsat'].
    split; [exact (same_shape_trans _ _ _ Hs Hs')|congruence].
Qed.

Lemma perform_shape s (c : call) s' :
  perform s c = Ok s' ->
  same_shape s s' /\ (not_increment c -> saturated s' = saturated s).
Proof.
  destruct c as [key|key|key|decay|]; cbn [perform not_increment].
  - intros Hrun. split; [|intros []]. unfold increment in Hrun.
    apply (for_loop_partial (fun _ t => same_shape s t) _ _ _ _ _ Hrun).
    + apply same_shape_refl.
    + intros j t t' _ Hs Hstep.
      exact (same_shape_trans _ _ _ Hs (increment_row_shape _ _ _ _ Hstep)).
  - destruct (getCount s key) as [n| |]; try discriminate.
    rewrite bind_Ok. intros [= <-]. split; [apply same_shape_refl|auto].
  - unfold resetCount.
    destruct (getCount s key) as [n| |]; try discriminate.
    rewrite bind_Ok. intros Hrun.
    destruct (for_loop_shape _ _ _ _ _ (resetCount_row_shape key n) Hrun).
    auto.
  - unfold decayCountsBy. intros Hrun.
    destruct (for_loop_shape _ _ _ _ _ (decay_cell_shape decay) Hrun).
    auto.
  - unfold reset. intros Hrun.
    destruct (for_loop_shape _ _ _ _ _
                (fun j t t' => store_shape t j 0 t') Hrun).
    auto.
Qed.

Lemma run_shape (cs : list call) :
  forall s s', run s cs = Ok s' ->
    same_shape s s' /\ (Forall not_increment cs -> saturated s' = saturated s).
Proof.
  induction cs as [|c cs IH]; intros s s'; cbn [run].
  - intros [= <-]. split; [apply same_shape_refl|auto].
  - destruct (perform s c) as [t| |] eqn:E; try discriminate.
    rewrite bind_Ok. intros Hrun.
    destruct (perform_shape s c t E) as [Hs Hsat].
    destruct (IH t s' Hrun) as [Hs' Hsat'].
    split; [exact (same_shape_trans _ _ _ Hs Hs')|].
    intros Hall. inversion Hall; subst.
    rewrite Hsat', Hsat by assumption. reflexivity.
Qed.

(** X1. The dimensions are fixed after construction: whatever the
    sequence of [increment], [getCount], [resetCount], [decayCountsBy]
    and [reset] calls, when it returns the sketch has the width, the
    depth, the number of cells and the byte size it had before. *)
Theorem operations_keep_dimensions s (cs : list call) s' :
  run s cs = Ok s' ->
  width s' = width s /\ depth s' = depth s /\
  length (table_ s') = length (table_ s) /\
  getByteSize s' = getByteSize s.
Proof.
  intros Hrun. destruct (run_shape cs s s' Hrun) as [(Hw & Hd & Hl) _].
  unfold width, depth, getByteSize. rewrite Hw, Hd. auto.
Qed.

(** X2. Only [increment] moves the saturation counter: a sequence of
    [getCount], [resetCount], [decayCountsBy] and [reset] calls leaves
    [getSaturatedCounts] as it was, whatever it does to the cells. *)
Theorem only_increment_moves_saturated s (cs : list call) s' :
  Forall not_increment cs -> run s cs = Ok s' ->
  getSaturatedCounts s' = getSaturatedCounts s.
Proof.
  intros Hall Hrun. destruct (run_shape cs s s' Hrun) as [_ Hsat].
  exact (Hsat Hall).
Qed.

(** X3. Saturation cap: in every state reached from a construction
    whose dimensions fit the 32-bit table size, the table has [width *
    depth] cells, every cell is between 0 and the maximum of the counter
    type, and so is every count that [getCount] returns. *)
Theorem reachable_states_well_formed (w d : Z) (cs : list call) s0 s :
  0 < bits -> 0 < w -> 0 < d -> w * d < 2 ^ 32 ->
  CountMinSketchBase_dimensions w d = Ok s0 -> run s0 cs = Ok s ->
  width s = w /\ depth s = d /\
  Z.of_nat (length (table_ s)) = w * d /\
  (forall (i : nat) v, table_ s !! i = Some v -> 0 <= v <= getMaxCount) /\
  forall key, exists c, getCount s key = Ok c /\ 0 <= c <= getMaxCount.
Proof.
  intros Hb Hw Hd Hf Hnew Hrun.
  destruct (dimensions_wf w d Hb Hw Hd Hf) as (s0' & Hnew' & Hwf0 & Hw0 & Hd0 & _).
  assert (s0' = s0) by congruence. subst s0'.
  pose proof (run_wf cs s0 s Hwf0 Hrun) as Hwf.
  destruct (run_shape cs s0 s Hrun) as [(Hws & Hds & _) _].
  unfold width, depth.
  split; [congruence|]. split; [congruence|].
  split; [rewrite (wf_size s Hwf); congruence|].
  split.
  - pose proof (wf_cells s Hwf) as Hc. rewrite Forall_lookup in Hc. exact Hc.
  - intros key. destruct (getCount_le_cells s key Hwf) as (c & Hg & Hc & _).
    eauto.
Qed.

(** X4. A freshly constructed sketch has the dimensions it was given, a
    zero saturation counter, and estimates 0 for every key. *)
Theorem fresh_sketch_is_empty (w d : Z) :
  0 < bits -> 0 < w -> 0 < d -> w * d < 2 ^ 32 ->
  exists s, CountMinSketchBase_dimensions w d = Ok s /\
    width s = w /\ depth s = d /\ getSaturatedCounts s = 0 /\
    Z.of_nat (length (table_ s)) = w * d /\
    forall key, getCount s key = Ok 0.
Proof.
  intros Hb Hw Hd Hf.
  destruct (dimensions_wf w d Hb Hw Hd Hf) as (s & Hnew & Hwf & Hws & Hds & Hsat & Hz).
  exists s. split; [exact Hnew|]. repeat (split; [assumption|]).
  split; [rewrite (wf_size s Hwf); congruence|].
  intros key. rewrite (getCount_wf s key Hwf).
  destruct (minimum (cells_of s key)) as [m|] eqn:E; [|reflexivity].
  destruct (minimum_spec _ _ E) as [Hin _].
  apply cells_of_In in Hin. destruct Hin as (row & Hrow & ->).
  destruct (lookup_wf s _ Hwf (proj2 (index_range s row key Hwf Hrow)))
    as [Hlk _].
  rewrite Forall_lookup in Hz. f_equal. exact (Hz _ _ Hlk).
Qed.

(** X5. [getByteSize] is the size in bytes of the table that the
    constructor allocated, in every state reached afterwards; it is
    [width * depth * sizeof(UINT)] when that product fits 32 bits. *)
Theorem byte_size_of_table (w d : Z) (cs : list call) s0 s :
  0 < bits <= 32 -> w <> 0 -> d <> 0 ->
  CountMinSketchBase_dimensions w d = Ok s0 -> run s0 cs = Ok s ->
  getByteSize s = Z.of_nat (length (table_ s)) * (bits / 8) /\
  (0 < w -> 0 < d -> w * d < 2 ^ 32 -> getByteSize s = w * d * (bits / 8)).
Proof.
  intros Hb Hw Hd Hnew Hrun.
  destruct (dimensions_Ok w d Hw Hd) as (s0' & Hnew' & Hw0 & Hd0 & _ & Hl0 & _).
  assert (s0' = s0) by congruence. subst s0'.
  destruct (run_shape cs s0 s Hrun) as [(Hws & Hds & Hls) _].
  assert (Hu : 0 <= u32 (w * d) < 2 ^ 32) by (apply Z.mod_pos_bound; lia).
  assert (Hsz : 0 <= bits / 8 <= 4).
  { split; [apply Z.div_pos; lia|].
    apply Z.div_le_upper_bound; lia. }
  unfold getByteSize. rewrite Hws, Hds, Hw0, Hd0, Hls, Hl0.
  rewrite Z2Nat.id by lia.
  rewrite (u64_small (u32 (w * d) * (bits / 8))) by nia.
  split; [reflexivity|]. intros Hwp Hdp Hf.
  rewrite u32_small by nia. reflexivity.
Qed.

(** ** The exact effect of [increment] *)

Lemma row_of_nonneg s i : wf s -> 0 <= i -> 0 <= i / width_ s.
Proof.
  intros Hwf Hi. apply Z_div_nonneg_nonneg; [exact Hi|apply (wf_width s Hwf)].
Qed.

Lemma index_div s row key :
  0 < width_ s -> index s row key / width_ s = row.
Proof.
  intros Hw. pose proof (column_range s row key Hw) as Hc.
  unfold index. rewrite Z.add_comm, Z.div_add by lia.
  rewrite Z.div_small by lia. reflexivity.
Qed.

Lemma touches_index s key row :
  wf s -> 0 <= row < depth_ s -> touches s key (index s row key) = true.
Proof.
  intros Hwf Hr. assert (Hw : 0 < width_ s) by (apply (wf_dims s Hwf); lia).
  unfold touches. rewrite (index_div s row key Hw).
  apply andb_true_intro. split; [apply Z.ltb_lt; lia|apply Z.eqb_refl].
Qed.

Lemma touches_true s key i :
  wf s -> 0 <= i -> touches s key i = true ->
  exists row, 0 <= row < depth_ s /\ i = index s row key.
Proof.
  intros Hwf Hi H. unfold touches in H. apply andb_prop in H.
  destruct H as [H1 H2]. apply Z.ltb_lt in H1. apply Z.eqb_eq in H2.
  exists (i / width_ s). split; [|exact H2].
  split; [apply row_of_nonneg; assumption|exact H1].
Qed.

Lemma touches_false s key i :
  wf s -> 0 <= i ->
  (forall row, 0 <= row < depth_ s -> i <> index s row key) ->
  touches s key i = false.
Proof.
  intros Hwf Hi Hne. destruct (touches s key i) eqn:E; [|reflexivity].
  destruct (touches_true s key i Hwf Hi E) as (row & Hr & Hrow).
  exfalso. exact (Hne row Hr Hrow).
Qed.

Lemma touches_same_dims s t key i :
  width_ t = width_ s -> depth_ t = depth_ s ->
  touches t key i = touches s key i.
Proof.
  intros Hw Hd. unfold touches, index, column. rewrite Hw, Hd. reflexivity.
Qed.

(** [increment key] adds one to the cells of [key], the maximum
    permitting, and keeps every other cell. *)
Lemma increment_exact s key :
  wf s ->
  exists s', increment s key = Ok s' /\ wf s' /\
    width_ s' = width_ s /\ depth_ s' = depth_ s /\
    forall i, 0 <= i ->
      cell s' i = if touches s key i
                  then Z.min (cell s i + 1) getMaxCount else cell s i.
Proof.
  intros Hwf. unfold increment.
  pose proof (wf_depth s Hwf) as Hd0.
  pose (I := fun (n : Z) (t : CountMinSketchBase) =>
    wf t /\ width_ t = width_ s /\ depth_ t = depth_ s /\
    forall i, 0 <= i ->
      cell t i = if (i / width_ s <? n) && (i =? index s (i / width_ s) key)
                 then Z.min (cell s i + 1) getMaxCount else cell s i).
  destruct (for_loop_total I (increment_row key) (Z.to_nat (depth_ s)) 0 s)
    as (s' & Hrun & Hwf' & Hw & Hd & Hcells).
  - unfold I. split; [assumption|]. split; [reflexivity|].
    split; [reflexivity|]. intros i Hi.
    pose proof (row_of_nonneg s i Hwf Hi).
    destruct (Z.ltb_spec (i / width_ s) 0); [lia|reflexivity].
  - intros j t Hj (Hwft & Hwt & Hdt & Hct).
    assert (Hjs : 0 <= j < depth_ s) by lia.
    assert (Hjt : 0 <= j < depth_ t) by lia.
    assert (Hws : 0 < width_ s) by (apply (wf_dims s Hwf); lia).
    destruct (increment_row_effect t key j Hwft Hjt)
      as (t' & Hstep & Hwft' & Hwt' & Hdt' & Hcell).
    rewrite (index_same_width s t j key Hwt) in Hcell.
    exists t'. split; [exact Hstep|]. unfold I.
    split; [assumption|]. split; [congruence|]. split; [congruence|].
    intros i Hi. rewrite (Hcell i Hi), (Hct i Hi).
    destruct (i =? index s j key) eqn:E.
    + apply Z.eqb_eq in E. subst i. rewrite (index_div s j key Hws).
      rewrite Z.eqb_refl.
      destruct (Z.ltb_spec j j); [lia|].
      destruct (Z.ltb_spec j (j + 1)); [|lia]. reflexivity.
    + destruct (Z.eq_dec (i / width_ s) j) as [Ej|Ej].
      * rewrite Ej, E, !andb_false_r. reflexivity.
      * destruct (Z.ltb_spec (i / width_ s) j),
                 (Z.ltb_spec (i / width_ s) (j + 1)); try reflexivity; lia.
  - exists s'. split; [exact Hrun|]. split; [assumption|].
    split; [assumption|]. split; [assumption|].
    intros i Hi. rewrite (Hcells i Hi). unfold touches.
    replace (0 + Z.of_nat (Z.to_nat (depth_ s))) with (depth_ s) by lia.
    reflexivity.
Qed.

Lemma wf_length s t :
  wf s -> wf t -> width_ t = width_ s -> depth_ t = depth_ s ->
  length (table_ t) = length (table_ s).
Proof.
  intros Hs Ht Hw Hd. pose proof (wf_size s Hs). pose proof (wf_size t Ht).
  rewrite Hw, Hd in *. lia.
Qed.

(** X6. [increment key] changes exactly the [depth_] cells of [key]:
    each goes up by one, or stays at the maximum of the counter type when
    it is there already; every other cell and the dimensions are kept. *)
Theorem increment_changes_own_cells s key :
  wf s ->
  exists s', increment s key = Ok s' /\
    width_ s' = width_ s /\ depth_ s' = depth_ s /\
    length (table_ s') = length (table_ s) /\
    (forall row, 0 <= row < depth_ s ->
       table_ s' !! Z.to_nat (index s row key)
       = Some (Z.min (cell s (index s row key) + 1) getMaxCount)) /\
    (forall i : nat,
       (forall row, 0 <= row < depth_ s -> Z.of_nat i <> index s row key) ->
       table_ s' !! i = table_ s !! i).
Proof.
  intros Hwf.
  destruct (increment_exact s key Hwf) as (s' & Hrun & Hwf' & Hw & Hd & Hcells).
  pose proof (wf_length s s' Hwf Hwf' Hw Hd) as Hlen.
  exists s'. split; [exact Hrun|]. repeat (split; [assumption|]). split.
  - intros row Hr.
    destruct (index_range s row key Hwf Hr) as [_ Hi].
    assert (Hi' : 0 <= index s row key < width_ s' * depth_ s')
      by (rewrite Hw, Hd; exact Hi).
    destruct (lookup_wf s' _ Hwf' Hi') as [-> _].
    rewrite Hcells by lia. rewrite (touches_index s key row Hwf Hr).
    reflexivity.
  - intros i Hne. apply cell_lookup; [exact Hlen|].
    rewrite Hcells by lia. rewrite (touches_false s key _ Hwf (Nat2Z.is_nonneg i) Hne).
    reflexivity.
Qed.

(** ** Counts along increments *)

(** The count of a key on a well-formed sketch is 0 when there is no
    row, and otherwise the cell of the key in one of the rows, which is
    the least of them. *)
Lemma getCount_cases s key :
  wf s ->
  (depth_ s = 0 /\ getCount s key = Ok 0) \/
  (exists row, 0 <= row < depth_ s /\
     getCount s key = Ok (cell s (index s row key)) /\
     0 <= cell s (index s row key) <= getMaxCount /\
     forall r, 0 <= r < depth_ s ->
       cell s (index s row key) <= cell s (index s r key)).
Proof.
  intros Hwf. rewrite (getCount_wf s key Hwf).
  destruct (minimum (cells_of s key)) as [m|] eqn:E.
  - right. destruct (minimum_spec _ _ E) as [Hin Hle].
    apply cells_of_In in Hin. destruct Hin as (row & Hr & ->).
    exists row. split; [exact Hr|]. split; [reflexivity|]. split.
    + apply (lookup_wf s _ Hwf (proj2 (index_range s row key Hwf Hr))).
    + intros r Hr'. apply Hle. apply cells_of_In. eauto.
  - left. split; [|reflexivity].
    apply minimum_None in E. unfold cells_of in E. apply map_eq_nil in E.
    pose proof (wf_depth s Hwf).
    destruct (Z.to_nat (depth_ s)) eqn:En; [lia|discriminate].
Qed.

(** Counts are monotone in the cells. *)
Lemma getCount_mono s t key :
  wf s -> wf t -> width_ t = width_ s -> depth_ t = depth_ s ->
  (forall i, 0 <= i -> cell s i <= cell t i) ->
  exists c c', getCount s key = Ok c /\ getCount t key = Ok c' /\
    0 <= c <= c' /\ c' <= getMaxCount.
Proof.
  intros Hs Ht Hw Hd Hle.
  destruct (getMaxCount_pos (wf_bits s Hs)) as [_ Hm].
  destruct (getCount_cases s key Hs) as [[Hd0 Hg]|(r & Hr & Hg & Hc & Hmin)];
    destruct (getCount_cases t key Ht) as [[Hd0' Hg']|(r' & Hr' & Hg' & Hc' & Hmin')];
    try lia.
  - exists 0, 0. rewrite Hg, Hg'. repeat split; lia.
  - eexists _, _. split; [exact Hg|]. split; [exact Hg'|].
    rewrite Hd in Hr'. specialize (Hmin r' Hr').
    rewrite (index_same_width s t r' key Hw).
    assert (Hi : 0 <= index s r' key)
      by (apply (index_range s r' key Hs Hr')).
    specialize (Hle _ Hi).
    rewrite (index_same_width s t r' key Hw) in Hc'. lia.
Qed.

(** X7. An [increment], of whatever key, moves the count of a key up by
    one at most and never down: counts do not wrap around. *)
Theorem increment_moves_count_by_at_most_one s (a k : Z) :
  wf s ->
  exists s' c c',
    increment s a = Ok s' /\ getCount s k = Ok c /\ getCount s' k = Ok c' /\
    c <= c' <= c + 1 /\ c' <= getMaxCount.
Proof.
  intros Hwf.
  destruct (increment_exact s a Hwf) as (s' & Hrun & Hwf' & Hw & Hd & Hcells).
  destruct (getMaxCount_pos (wf_bits s Hwf)) as [_ Hm].
  assert (Hup : forall i, 0 <= i -> cell s i <= cell s' i <= cell s i + 1).
  { intros i Hi. rewrite (Hcells i Hi).
    destruct (cell_range s i (wf_cells s Hwf));
      destruct (touches s a i); lia. }
  destruct (getCount_mono s s' k Hwf Hwf' Hw Hd (fun i Hi => proj1 (Hup i Hi)))
    as (c & c' & Hg & Hg' & Hc & Hc').
  exists s', c, c'. repeat (split; [assumption|]).
  split; [|exact Hc']. split; [lia|].
  destruct (getCount_cases s k Hwf) as [[Hd0 Hg0]|(r & Hr & Hg0 & _ & _)].
  - rewrite (getCount_no_rows s' k) in Hg' by congruence.
    injection Hg' as <-. lia.
  - assert (Hr' : 0 <= r < depth_ s') by lia.
    destruct (getCount_le_cells s' k Hwf') as (c2 & Hg2 & _ & Hle2).
    specialize (Hle2 r Hr'). rewrite (index_same_width s s' r k Hw) in Hle2.
    assert (Hi : 0 <= index s r k) by (apply (index_range s r k Hwf Hr)).
    destruct (Hup _ Hi) as [_ Hu].
    assert (c2 = c') by congruence.
    assert (c = cell s (index s r k)) by congruence. lia.
Qed.

(** X8. A key whose count is at the maximum of the counter type is not
    counted any further: [increment] leaves the sketch as it is. *)
Theorem increment_at_capacity_is_ignored s key :
  wf s -> getCount s key = Ok getMaxCount -> increment s key = Ok s.
Proof.
  intros Hwf Hget.
  destruct (getMaxCount_pos (wf_bits s Hwf)) as [Hp Hm].
  assert (H2 : 2 ^ 1 <= 2 ^ bits)
    by (apply Z.pow_le_mono_r; pose proof (wf_bits s Hwf); lia).
  change (2 ^ 1) with 2 in H2.
  assert (Hmax : 1 <= getMaxCount) by (unfold getMaxCount; lia).
  destruct (getCount_le_cells s key Hwf) as (c & Hg & _ & Hle).
  assert (c = getMaxCount) by congruence. subst c.
  unfold increment.
  destruct (for_loop_total (fun _ t => t = s) (increment_row key)
              (Z.to_nat (depth_ s)) 0 s) as (s' & Hrun & ->);
    [reflexivity| |exact Hrun].
  intros j t Hj ->. exists s. split; [|reflexivity].
  assert (Hjs : 0 <= j < depth_ s) by lia.
  destruct (index_range s j key Hwf Hjs) as [_ Hi].
  destruct (lookup_wf s _ Hwf Hi) as [_ Hc].
  specialize (Hle j Hjs).
  unfold increment_row.
  rewrite (getIndex_wf s j key Hwf Hjs), bind_Ok.
  rewrite (load_wf s _ Hwf Hi), bind_Ok.
  destruct (Z.ltb_spec (cell s (index s j key)) getMaxCount); [lia|].
  reflexivity.
Qed.

(** After a sequence of increments no cell has gone up by more than
    the number of calls. *)
Lemma increments_upper (keys : list Z) :
  forall s s' n,
    wf s -> run s (map Increment keys) = Ok s' ->
    (forall i, 0 <= i -> cell s i <= n) ->
    wf s' /\ width_ s' = width_ s /\ depth_ s' = depth_ s /\
    forall i, 0 <= i -> cell s' i <= n + Z.of_nat (length keys).
Proof.
  induction keys as [|a keys IH]; intros s s' n Hwf Hrun Hn.
  - injection Hrun as <-. repeat (split; [auto|]).
    intros i Hi. specialize (Hn i Hi). simpl. lia.
  - cbn [map run perform] in Hrun.
    destruct (increment_exact s a Hwf) as (s1 & Hinc & Hwf1 & Hw1 & Hd1 & Hc1).
    rewrite Hinc, bind_Ok in Hrun.
    destruct (IH s1 s' (n + 1) Hwf1 Hrun) as (Hwf' & Hw' & Hd' & Hc').
    { intros i Hi. rewrite (Hc1 i Hi). specialize (Hn i Hi).
      destruct (touches s a i); lia. }
    split; [assumption|]. split; [congruence|]. split; [congruence|].
    intros i Hi. specialize (Hc' i Hi). cbn [length]. lia.
Qed.

(** X9. Bounds of the count: on a sketch freshly constructed with
    dimensions that fit, after any sequence of [increment] calls the
    count of a key is at least the number of calls for that key and at
    most the number of all calls, both capped at the maximum of the
    counter type. *)
Theorem count_between_own_and_all_calls (w d : Z) (keys : list Z) (k : Z) :
  0 < bits -> 0 < w -> 0 < d -> w * d < 2 ^ 32 ->
  exists s0 s c,
    CountMinSketchBase_dimensions w d = Ok s0 /\
    run s0 (map Increment keys) = Ok s /\
    getCount s k = Ok c /\
    Z.min (calls_of k keys) getMaxCount <= c /\
    c <= Z.min (Z.of_nat (length keys)) getMaxCount.
Proof.
  intros Hb Hw Hd Hf.
  destruct (dimensions_wf w d Hb Hw Hd Hf)
    as (s0 & Hnew & Hwf0 & Hw0 & Hd0 & _ & Hz).
  destruct (getMaxCount_pos Hb) as [_ Hm].
  assert (Hzero : forall i, cell s0 i = 0).
  { intros i. unfold cell.
    destruct (table_ s0 !! Z.to_nat i) as [v|] eqn:E; [|reflexivity].
    rewrite Forall_lookup in Hz. exact (Hz _ _ E). }
  destruct (increments_effect k keys s0 0 Hwf0)
    as (s & Hrun & Hwf & Hws & Hds & Hlow).
  { intros row Hr. rewrite Hzero. lia. }
  destruct (increments_upper keys s0 s 0 Hwf0 Hrun) as (_ & _ & _ & Hup).
  { intros i Hi. rewrite Hzero. lia. }
  exists s0, s.
  destruct (getCount_cases s k Hwf) as [[Hd' _]|(r & Hr & Hg & Hc & Hmin)];
    [lia|].
  exists (cell s (index s r k)). repeat (split; [assumption|]).
  rewrite (index_same_width s0 s r k Hws) in *.
  assert (Hr0 : 0 <= r < depth_ s0) by lia.
  assert (Hi : 0 <= index s0 r k) by (apply (index_range s0 r k Hwf0 Hr0)).
  specialize (Hlow r Hr0). specialize (Hup _ Hi). simpl in *. lia.
Qed.

(** In a row where no other key of the sequence shares the column of
    [k], the cell of [k] counts the calls for [k] only. *)
Lemma increments_row_exact (k row : Z) (keys : list Z) :
  forall s s' n,
    wf s -> 0 <= row < depth_ s ->
    (forall a, In a keys -> a <> k -> column s row a <> column s row k) ->
    run s (map Increment keys) = Ok s' ->
    cell s (index s row k) <= n ->
    cell s' (index s row k) <= n + calls_of k keys.
Proof.
  induction keys as [|a keys IH]; intros s s' n Hwf Hrow Hcol Hrun Hn.
  - injection Hrun as <-. unfold calls_of. simpl. lia.
  - cbn [map run perform] in Hrun.
    destruct (increment_exact s a Hwf) as (s1 & Hinc & Hwf1 & Hw1 & Hd1 & Hc1).
    rewrite Hinc, bind_Ok in Hrun.
    assert (Hws : 0 < width_ s) by (apply (wf_dims s Hwf); lia).
    assert (Hi : 0 <= index s row k) by (apply (index_range s row k Hwf Hrow)).
    rewrite calls_of_cons, Z.add_assoc.
    rewrite <- (index_same_width s s1 row k Hw1).
    apply (IH s1 s' _ Hwf1).
    + lia.
    + intros b Hb. unfold column. rewrite Hw1. apply Hcol. right. exact Hb.
    + exact Hrun.
    + rewrite (index_same_width s s1 row k Hw1), (Hc1 _ Hi).
      destruct (Z.eq_dec a k) as [->|Hne].
      * destruct (touches s k (index s row k)); lia.
      * assert (Ht : touches s a (index s row k) = false).
        { unfold touches. rewrite (index_div s row k Hws).
          apply andb_false_intro2. apply Z.eqb_neq.
          unfold index. intros E.
          apply (Hcol a (or_introl eq_refl) Hne). lia. }
        rewrite Ht. lia.
Qed.

(** X10. The count is exact without collision: on a sketch freshly
    constructed with [width * depth < 2^32], when some row gives the key
    [k] a column that no other key of the sequence shares, [getCount k]
    after the sequence of [increment] calls is the number of calls for
    [k], capped at the maximum of the counter type. *)
Theorem count_exact_without_collision (w d : Z) (keys : list Z) (k row : Z) s0 :
  0 < bits -> 0 < w -> 0 < d -> w * d < 2 ^ 32 ->
  CountMinSketchBase_dimensions w d = Ok s0 ->
  0 <= row < d ->
  (forall a, In a keys -> a <> k -> column s0 row a <> column s0 row k) ->
  exists s,
    run s0 (map Increment keys) = Ok s /\
    getCount s k = Ok (Z.min (calls_of k keys) getMaxCount).
Proof.
  intros Hb Hw Hd Hf Hnew Hrow Hcol.
  destruct (dimensions_wf w d Hb Hw Hd Hf)
    as (s0' & Hnew' & Hwf0 & Hw0 & Hd0 & _ & Hz).
  assert (s0' = s0) by congruence. subst s0'.
  destruct (getMaxCount_pos Hb) as [_ Hm].
  assert (Hzero : forall i, cell s0 i = 0).
  { intros i. unfold cell.
    destruct (table_ s0 !! Z.to_nat i) as [v|] eqn:E; [|reflexivity].
    rewrite Forall_lookup in Hz. exact (Hz _ _ E). }
  destruct (increments_effect k keys s0 0 Hwf0)
    as (s & Hrun & Hwf & Hws & Hds & Hlow).
  { intros r Hr. rewrite Hzero. lia. }
  assert (Hrow0 : 0 <= row < depth_ s0) by lia.
  pose proof (increments_row_exact k row keys s0 s 0 Hwf0 Hrow0 Hcol Hrun)
    as Hup.
  rewrite Hzero in Hup. specialize (Hup (Z.le_refl 0)).
  exists s. split; [exact Hrun|].
  destruct (getCount_cases s k Hwf) as [[Hd' _]|(r & Hr & Hg & Hc & Hmin)];
    [lia|].
  rewrite Hg. f_equal.
  rewrite (index_same_width s0 s r k Hws) in *.
  assert (Hr0 : 0 <= r < depth_ s0) by lia.
  assert (Hrs : 0 <= row < depth_ s) by lia.
  specialize (Hlow r Hr0). specialize (Hmin row Hrs).
  rewrite (index_same_width s0 s row k Hws) in Hmin.
  simpl in *. lia.
Qed.

(** ** The order of increments *)

Lemma same_cells_refl s : same_cells s s.
Proof. unfold same_cells. auto. Qed.

Lemma cells_eq_table s t :
  length (table_ t) = length (table_ s) ->
  (forall i, 0 <= i -> cell t i = cell s i) -> table_ t = table_ s.
Proof.
  intros Hl Hc. apply list_eq. intros i.
  apply cell_lookup; [exact Hl|apply Hc; lia].
Qed.

Lemma getCount_same_cells s t key :
  same_cells s t -> getCount t key = getCount s key.
Proof.
  intros (Hw & Hd & Ht).
  unfold getCount, getCount_row, getIndex, load. rewrite Hw, Hd, Ht.
  reflexivity.
Qed.

Lemma increment_same_cells s t key :
  wf s -> wf t -> same_cells s t ->
  exists s' t', increment s key = Ok s' /\ increment t key = Ok t' /\
    wf s' /\ wf t' /\ same_cells s' t'.
Proof.
  intros Hs Ht (Hw & Hd & Htab).
  destruct (increment_exact s key Hs) as (s' & Hrs & Hwfs & Hws & Hds & Hcs).
  destruct (increment_exact t key Ht) as (t' & Hrt & Hwft & Hwt & Hdt & Hct).
  exists s', t'. repeat (split; [assumption|]).
  split; [congruence|]. split; [congruence|].
  apply cells_eq_table.
  - apply wf_length; try assumption; congruence.
  - intros i Hi. rewrite (Hcs i Hi), (Hct i Hi).
    rewrite (touches_same_dims s t key i Hw Hd).
    unfold cell. rewrite Htab. reflexivity.
Qed.

Lemma increments_same_cells (keys : list Z) :
  forall s t, wf s -> wf t -> same_cells s t ->
    exists s' t', run s (map Increment keys) = Ok s' /\
      run t (map Increment keys) = Ok t' /\
      wf s' /\ wf t' /\ same_cells s' t'.
Proof.
  induction keys as [|a keys IH]; intros s t Hs Ht Hst.
  - exists s, t. auto.
  - destruct (increment_same_cells s t a Hs Ht Hst)
      as (s1 & t1 & Hrs & Hrt & Hs1 & Ht1 & Hst1).
    destruct (IH s1 t1 Hs1 Ht1 Hst1) as (s' & t' & Hs' & Ht' & H).
    exists s', t'. cbn [map run perform].
    rewrite Hrs, Hrt, !bind_Ok. auto.
Qed.

(** Two increments, in either order. *)
Lemma increment_swap s t (a b : Z) :
  wf s -> wf t -> same_cells s t ->
  exists s' t', run s (map Increment [a; b]) = Ok s' /\
    run t (map Increment [b; a]) = Ok t' /\
    wf s' /\ wf t' /\ same_cells s' t'.
Proof.
  intros Hs Ht (Hw & Hd & Htab).
  destruct (increment_exact s a Hs) as (s1 & Hr1 & Hwf1 & Hw1 & Hd1 & Hc1).
  destruct (increment_exact s1 b Hwf1) as (s2 & Hr2 & Hwf2 & Hw2 & Hd2 & Hc2).
  destruct (increment_exact t b Ht) as (t1 & Hq1 & Hvf1 & Hv1 & He1 & Hk1).
  destruct (increment_exact t1 a Hvf1) as (t2 & Hq2 & Hvf2 & Hv2 & He2 & Hk2).
  exists s2, t2. cbn [map run perform].
  rewrite Hr1, Hq1, !bind_Ok, Hr2, Hq2.
  split; [reflexivity|]. split; [reflexivity|].
  split; [assumption|]. split; [assumption|].
  split; [congruence|]. split; [congruence|].
  apply cells_eq_table.
  - apply wf_length; try assumption; congruence.
  - intros i Hi.
    rewrite (Hc2 i Hi), (Hc1 i Hi), (Hk2 i Hi), (Hk1 i Hi).
    rewrite (touches_same_dims s s1 b i Hw1 Hd1).
    rewrite (touches_same_dims t t1 a i Hv1 He1).
    rewrite (touches_same_dims s t a i Hw Hd).
    rewrite (touches_same_dims s t b i Hw Hd).
    assert (Hcell : cell t i = cell s i) by (unfold cell; rewrite Htab; reflexivity).
    rewrite Hcell.
    destruct (touches s a i), (touches s b i); lia.
Qed.

Lemma increments_permutation (keys keys' : list Z) :
  Permutation keys keys' ->
  forall s t, wf s -> wf t -> same_cells s t ->
    exists s' t', run s (map Increment keys) = Ok s' /\
      run t (map Increment keys') = Ok t' /\
      wf s' /\ wf t' /\ same_cells s' t'.
Proof.
  induction 1 as [|x l l' _ IH|x y l|l l' l'' _ IH1 _ IH2];
    intros s t Hs Ht Hst.
  - exists s, t. auto.
  - destruct (increment_same_cells s t x Hs Ht Hst)
      as (s1 & t1 & Hrs & Hrt & Hs1 & Ht1 & Hst1).
    destruct (IH s1 t1 Hs1 Ht1 Hst1) as (s' & t' & Hs' & Ht' & H).
    exists s', t'. cbn [map run perform].
    rewrite Hrs, Hrt, !bind_Ok. auto.
  - destruct (increment_swap s t y x Hs Ht Hst)
      as (s2 & t2 & Hrs & Hrt & Hs2 & Ht2 & Hst2).
    destruct (increments_same_cells l s2 t2 Hs2 Ht2 Hst2)
      as (s' & t' & Hs' & Ht' & H).
    exists s', t'.
    change (y :: x :: l) with ([y; x] ++ l).
    change (x :: y :: l) with ([x; y] ++ l).
    rewrite !map_app, !run_app, Hrs, Hrt, !bind_Ok. auto.
  - destruct (IH1 s t Hs Ht Hst) as (s1 & t1 & Hrs1 & Hrt1 & Hs1 & Ht1 & H1).
    destruct (IH2 t t Ht Ht (same_cells_refl t))
      as (t1' & t2 & Hrt1' & Hrt2 & _ & Ht2 & H2).
    assert (t1' = t1) by congruence. subst t1'.
    exists s1, t2. repeat (split; [assumption|]).
    destruct H1 as (? & ? & ?), H2 as (? & ? & ?).
    unfold same_cells. repeat split; congruence.
Qed.

(** The saturation counter along [increment] and [getCount] calls. *)
Lemma counting_saturated (cs : list call) :
  forall s s', wf s -> saturated s = saturated_cells s ->
    Forall counting_call cs -> run s cs = Ok s' ->
    saturated s' = saturated_cells s'.
Proof.
  induction cs as [|c cs IH]; intros s s' Hwf Hsat Hall; cbn [run].
  - intros [= <-]. exact Hsat.
  - destruct (perform s c) as [t| |] eqn:E; try discriminate.
    rewrite bind_Ok. inversion Hall as [|? ? Hc Hcs]; subst.
    apply IH; [exact (perform_wf s c t Hwf E)| |exact Hcs].
    destruct c as [key|key|key|decay|]; cbn [perform counting_call] in *;
      try contradiction.
    + exact (increment_saturated s key t Hwf Hsat E).
    + destruct (getCount s key); try discriminate.
      rewrite bind_Ok in E. injection E as <-. exact Hsat.
Qed.

(** X11. The order of [increment] calls does not matter: two sequences
    of calls that are permutations of each other lead to the same table,
    hence to the same count for every key, and to the same saturation
    counter when that counter was exact before. *)
Theorem increments_order_irrelevant s (keys keys' : list Z) :
  wf s -> Permutation keys keys' ->
  exists s1 s2,
    run s (map Increment keys) = Ok s1 /\
    run s (map Increment keys') = Ok s2 /\
    table_ s1 = table_ s2 /\
    (forall k, getCount s1 k = getCount s2 k) /\
    (saturated s = saturated_cells s ->
     getSaturatedCounts s1 = getSaturatedCounts s2).
Proof.
  intros Hwf Hperm.
  destruct (increments_permutation keys keys' Hperm s s Hwf Hwf
              (same_cells_refl s)) as (s1 & s2 & Hr1 & Hr2 & _ & _ & Hsame).
  exists s1, s2. split; [exact Hr1|]. split; [exact Hr2|].
  split; [symmetry; apply Hsame|].
  split; [intros k; symmetry; apply getCount_same_cells; exact Hsame|].
  intros Hsat. unfold getSaturatedCounts.
  assert (Hall : forall l : list Z, Forall counting_call (map Increment l)).
  { intros l. apply Forall_map. apply Forall_forall. intros; exact I. }
  rewrite (counting_saturated _ s s1 Hwf Hsat (Hall keys) Hr1).
  rewrite (counting_saturated _ s s2 Hwf Hsat (Hall keys') Hr2).
  unfold saturated_cells. destruct Hsame as (_ & _ & ->). reflexivity.
Qed.

(** X12. As long as only [increment] and [getCount] are called on a
    freshly constructed sketch, [getSaturatedCounts] is the number of
    cells that hold the maximum of the counter type. *)
Theorem saturated_counts_exact (w d : Z) (cs : list call) s0 s :
  0 < bits -> 0 < w -> 0 < d -> w * d < 2 ^ 32 ->
  CountMinSketchBase_dimensions w d = Ok s0 ->
  Forall counting_call cs -> run s0 cs = Ok s ->
  getSaturatedCounts s = saturated_cells s.
Proof.
  intros Hb Hw Hd Hf Hnew Hall Hrun.
  destruct (dimensions_wf w d Hb Hw Hd Hf)
    as (s0' & Hnew' & Hwf0 & _ & _ & Hsat & Hz).
  assert (s0' = s0) by congruence. subst s0'.
  apply (counting_saturated cs s0 s Hwf0); [|exact Hall|exact Hrun].
  rewrite Hsat. unfold saturated_cells.
  destruct (getMaxCount_pos Hb) as [Hp _].
  assert (H2 : 2 ^ 1 <= 2 ^ bits) by (apply Z.pow_le_mono_r; lia).
  change (2 ^ 1) with 2 in H2.
  assert (Hmax : 1 <= getMaxCount) by (unfold getMaxCount; lia).
  revert Hz. generalize (table_ s0). intros l Hz.
  induction Hz as [|v l -> _ IH]; [reflexivity|].
  rewrite filter_cons. destruct (decide (0 = getMaxCount)); [lia|exact IH].
Qed.

(** ** [resetCount], again *)

(** The state after [resetCount key]: the cells of [key] have lost the
    count of [key], the others are as they were. *)
Lemma resetCount_effect s key :
  wf s ->
  exists c s',
    getCount s key = Ok c /\ resetCount s key = Ok s' /\ wf s' /\
    width_ s' = width_ s /\ depth_ s' = depth_ s /\
    0 <= c <= getMaxCount /\
    forall i, 0 <= i ->
      cell s' i = if touches s key i then cell s i - c else cell s i.
Proof.
  intros Hwf.
  destruct (getCount_le_cells s key Hwf) as (c & Hget & Hc & Hle).
  pose proof (wf_depth s Hwf) as Hd.
  destruct (resetCount_prefix s key c Hwf (proj1 Hc) Hle
              (Z.to_nat (depth_ s)))
    as (s' & Hrun & Hwf' & Hw' & Hd' & Hs' & Hdone & Hrest); [lia|].
  rewrite Z2Nat.id in Hdone, Hrest by lia.
  exists c, s'. split; [exact Hget|].
  split; [unfold resetCount; rewrite Hget, bind_Ok; exact Hrun|].
  repeat (split; [assumption|]).
  intros i Hi. destruct (touches s key i) eqn:E.
  - destruct (touches_true s key i Hwf Hi E) as (row & Hr & ->).
    apply Hdone. exact Hr.
  - apply Hrest; [exact Hi|]. intros row Hr ->.
    rewrite (touches_index s key row Hwf Hr) in E. discriminate.
Qed.

(** X13. After [resetCount key] the count of [key] is 0, and the count
    of no other key has gone up. *)
Theorem resetCount_clears_the_key s key :
  wf s ->
  exists s', resetCount s key = Ok s' /\ getCount s' key = Ok 0 /\
    forall k, exists c c',
      getCount s k = Ok c /\ getCount s' k = Ok c' /\ 0 <= c' <= c.
Proof.
  intros Hwf.
  destruct (resetCount_effect s key Hwf)
    as (c & s' & Hget & Hrun & Hwf' & Hw & Hd & Hc & Hcells).
  exists s'. split; [exact Hrun|]. split.
  - destruct (getCount_cases s key Hwf) as [[Hd0 _]|(r & Hr & Hg & _ & _)].
    + apply getCount_no_rows. congruence.
    + assert (Hr' : 0 <= r < depth_ s') by lia.
      destruct (getCount_le_cells s' key Hwf') as (c2 & Hg2 & Hc2 & Hle2).
      specialize (Hle2 r Hr'). rewrite (index_same_width s s' r key Hw) in Hle2.
      assert (Hi : 0 <= index s r key) by (apply (index_range s r key Hwf Hr)).
      rewrite (Hcells _ Hi), (touches_index s key r Hwf Hr) in Hle2.
      assert (c = cell s (index s r key)) by congruence.
      rewrite Hg2. f_equal. lia.
  - intros k.
    destruct (getCount_mono s' s k Hwf' Hwf (eq_sym Hw) (eq_sym Hd))
      as (c1 & c2 & Hg1 & Hg2 & Hle & _).
    { intros i Hi. rewrite (Hcells i Hi). destruct (touches s key i); lia. }
    exists c2, c1. auto.
Qed.

Lemma set_table_id s : set_table s (table_ s) = s.
Proof. destruct s. reflexivity. Qed.

(** X14. [resetCount] is idempotent: a second [resetCount key] right
    after the first changes nothing. *)
Theorem resetCount_idempotent s key :
  wf s ->
  exists s', resetCount s key = Ok s' /\ resetCount s' key = Ok s'.
Proof.
  intros Hwf.
  destruct (resetCount_effect s key Hwf)
    as (c & s' & Hget & Hrun & Hwf' & Hw & Hd & Hc & Hcells).
  exists s'. split; [exact Hrun|].
  assert (Hzero : getCount s' key = Ok 0).
  { destruct (getCount_cases s key Hwf) as [[Hd0 _]|(r & Hr & Hg & _ & _)].
    - apply getCount_no_rows. congruence.
    - assert (Hr' : 0 <= r < depth_ s') by lia.
      destruct (getCount_le_cells s' key Hwf') as (c2 & Hg2 & Hc2 & Hle2).
      specialize (Hle2 r Hr'). rewrite (index_same_width s s' r key Hw) in Hle2.
      assert (Hi : 0 <= index s r key) by (apply (index_range s r key Hwf Hr)).
      rewrite (Hcells _ Hi), (touches_index s key r Hwf Hr) in Hle2.
      assert (c = cell s (index s r key)) by congruence.
      rewrite Hg2. f_equal. lia. }
  unfold resetCount. rewrite Hzero, bind_Ok.
  destruct (for_loop_total (fun _ t => t = s') (resetCount_row key 0)
              (Z.to_nat (depth_ s')) 0 s') as (t & Ht & ->);
    [reflexivity| |exact Ht].
  intros j t Hj ->. exists s'. split; [|reflexivity].
  pose proof (wf_depth s' Hwf').
  assert (Hjs : 0 <= j < depth_ s') by lia.
  destruct (index_range s' j key Hwf' Hjs) as [_ Hi].
  destruct (lookup_wf s' _ Hwf' Hi) as [Hl Hrange].
  unfold resetCount_row.
  rewrite (getIndex_wf s' j key Hwf' Hjs), bind_Ok.
  rewrite (load_wf s' _ Hwf' Hi), bind_Ok.
  rewrite Z.sub_0_r, to_UINT_small by exact Hrange.
  rewrite (store_wf s' _ _ Hwf' Hi).
  rewrite list_insert_id by exact Hl. rewrite set_table_id. reflexivity.
Qed.

(** ** [decayCountsBy], cell by cell *)

(** When the decayed value of every cell is a value of the counter type,
    [decayCountsBy] returns, and each cell holds its decayed value. *)
Lemma decay_pointwise s (d : double) (R : Z -> Z -> Prop) :
  Z.of_nat (length (table_ s)) = u32 (width_ s * depth_ s) ->
  Forall (fun v => exists z,
            narrow_cast bits (dtrunc (dmul (double_of_Z v) d)) = Ok z /\ R v z)
         (table_ s) ->
  exists s', decayCountsBy s d = Ok s' /\
    width_ s' = width_ s /\ depth_ s' = depth_ s /\
    saturated s' = saturated s /\
    Forall2 R (table_ s) (table_ s').
Proof.
  intros Hlen Hcell. unfold decayCountsBy.
  rewrite Forall_lookup in Hcell.
  pose (I := fun (n : Z) (t : CountMinSketchBase) =>
    width_ t = width_ s /\ depth_ t = depth_ s /\
    saturated t = saturated s /\
    length (table_ t) = length (table_ s) /\
    (forall (i : nat) (v : Z), Z.of_nat i < n -> table_ s !! i = Some v ->
       exists v', table_ t !! i = Some v' /\ R v v') /\
    (forall i : nat, n <= Z.of_nat i -> table_ t !! i = table_ s !! i)).
  destruct (for_loop_total I (decay_cell d)
              (Z.to_nat (u32 (width_ s * depth_ s))) 0 s)
    as (s' & Hrun & Hw & Hdp & Hs & Hl & Hdone & _).
  - unfold I. repeat (split; [reflexivity|]).
    split; [intros; lia|reflexivity].
  - intros j t Hj (Hw & Hdp & Hs & Hl & Hdone & Hrest).
    assert (Hjl : (Z.to_nat j < length (table_ s))%nat) by lia.
    destruct (lookup_lt_is_Some_2 _ _ Hjl) as [v Hv].
    assert (Hvt : table_ t !! Z.to_nat j = Some v)
      by (rewrite Hrest by lia; exact Hv).
    destruct (Hcell _ _ Hv) as (z & Hz & HR).
    unfold decay_cell, load. rewrite Hvt, bind_Ok, Hz, bind_Ok.
    rewrite store_in_range by lia.
    eexists. split; [reflexivity|]. unfold I. simpl.
    repeat (split; [assumption|]).
    split; [rewrite length_insert; assumption|]. split.
    + intros i u Hi Hu.
      destruct (Nat.eq_dec i (Z.to_nat j)) as [->|Hne].
      * rewrite list_lookup_insert_eq by lia.
        assert (u = v) by congruence. subst u. exists z. auto.
      * rewrite list_lookup_insert_ne by congruence.
        apply (Hdone i u); [lia|assumption].
    + intros i Hi. rewrite list_lookup_insert_ne by lia.
      apply Hrest. lia.
  - exists s'. split; [exact Hrun|]. repeat (split; [assumption|]).
    apply Forall2_same_length_lookup. split; [congruence|].
    intros i x y Hx Hy. destruct (Hdone i x) as (v' & Hv' & HR);
      [apply lookup_lt_Some in Hx; lia|exact Hx|].
    assert (y = v') by congruence. subst y. exact HR.
Qed.

Lemma wf_table_size s :
  wf s -> Z.of_nat (length (table_ s)) = u32 (width_ s * depth_ s).
Proof. intros Hwf. destruct Hwf. rewrite u32_small by nia. assumption. Qed.

(** X15. Decaying by a factor between 0 and 1 never raises a count:
    [decayCountsBy] returns and every key's count afterwards is at most
    what it was (counters of at most 32 bits). *)
Theorem decay_never_raises_counts s (d : double) :
  wf s -> bits <= 32 ->
  is_double d -> dle d0 d = true -> dle d d1 = true ->
  exists s', decayCountsBy s d = Ok s' /\
    forall k, exists c c',
      getCount s k = Ok c /\ getCount s' k = Ok c' /\ 0 <= c' <= c.
Proof.
  intros Hwf Hbits Hd H0 H1.
  destruct (getMaxCount_pos (wf_bits s Hwf)) as [Hp Hmax].
  assert (H32 : 2 ^ bits <= 2 ^ 32)
    by (apply Z.pow_le_mono_r; [lia|exact Hbits]).
  destruct (decay_pointwise s d (fun v z => 0 <= z <= v) (wf_table_size s Hwf))
    as (s' & Hrun & Hw & Hdp & _ & Hcells).
  { eapply Forall_impl; [exact (wf_cells s Hwf)|].
    intros v Hv. cbv beta in Hv. unfold getMaxCount in Hv.
    destruct (dmul_bound v d) as (z & Hz & _ & Hzv); try assumption; [lia|].
    exists z. split; [|exact Hzv]. rewrite Hz.
    apply narrow_cast_Ok. split; [reflexivity|lia]. }
  exists s'. split; [exact Hrun|].
  pose proof (decayCountsBy_wf s d s' Hwf Hrun) as Hwf'.
  intros k.
  destruct (getCount_mono s' s k Hwf' Hwf (eq_sym Hw) (eq_sym Hdp))
    as (c1 & c2 & Hg1 & Hg2 & Hle & _).
  { intros i Hi. unfold cell.
    destruct (table_ s !! Z.to_nat i) as [v|] eqn:E.
    - destruct (Forall2_lookup_l _ _ _ _ _ Hcells E) as (z & -> & Hz).
      simpl. lia.
    - assert (E' : table_ s' !! Z.to_nat i = None).
      { apply lookup_ge_None. apply lookup_ge_None in E.
        rewrite <- (Forall2_length _ _ _ Hcells). exact E. }
      rewrite E'. simpl. lia. }
  exists c2, c1. auto.
Qed.

Lemma all_zero_eq (l l' : list Z) :
  length l = length l' ->
  Forall (fun v => v = 0) l -> Forall (fun v => v = 0) l' -> l = l'.
Proof.
  revert l'. induction l as [|x l IH]; intros [|y l'] Hl H H';
    try discriminate; [reflexivity|].
  inversion H; inversion H'; subst. f_equal. apply IH; auto.
Qed.

(** X16. Decaying by zero, of either sign, is [reset]: both leave the
    same sketch, with every cell at 0 (counters of at most 32 bits). *)
Theorem decay_by_zero_is_reset s (sgn : bool) :
  wf s -> bits <= 32 ->
  decayCountsBy s (S754_zero sgn) = reset s /\
  decayCountsBy s d0 = reset s.
Proof.
  intros Hwf Hbits.
  destruct (getMaxCount_pos (wf_bits s Hwf)) as [Hp Hmax].
  assert (H32 : 2 ^ bits <= 2 ^ 32)
    by (apply Z.pow_le_mono_r; [lia|exact Hbits]).
  pose proof (wf_table_size s Hwf) as Hlen.
  destruct (reset_effect s Hlen) as (s1 & Hr & Hw1 & Hd1 & Hs1 & Hl1 & Hz1).
  assert (Hzero : forall b, decayCountsBy s (S754_zero b) = reset s).
  { intros b.
    destruct (decay_pointwise s (S754_zero b) (fun _ z => z = 0) Hlen)
      as (s2 & Hrun & Hw2 & Hd2 & Hs2 & Hcells).
    { eapply Forall_impl; [exact (wf_cells s Hwf)|].
      intros v Hv. cbv beta in Hv. unfold getMaxCount in Hv.
      exists 0. split; [|reflexivity].
      assert (Hc : narrow_cast bits (Some 0) = Ok 0)
        by (apply narrow_cast_Ok; split; [reflexivity|lia]).
      destruct v as [|p|p]; [| |lia].
      - rewrite double_of_Z_0. exact Hc.
      - destruct (double_of_Z_pos p) as (mx & ex & -> & _); [lia|].
        exact Hc. }
    rewrite Hrun, Hr. f_equal.
    assert (Ht : table_ s2 = table_ s1).
    { apply all_zero_eq.
      - rewrite <- (Forall2_length _ _ _ Hcells). congruence.
      - apply Forall_lookup. intros i z Hz.
        destruct (Forall2_lookup_r _ _ _ _ _ Hcells Hz) as (v & _ & Hv).
        exact Hv.
      - exact Hz1. }
    destruct s1, s2. simpl in *. congruence. }
  split; [apply Hzero|]. unfold d0. rewrite double_of_Z_0. apply Hzero.
Qed.

(** ** The dimensions that the accuracy constructor chooses *)

(** X17. Whenever the accuracy constructor returns a sketch, its width
    and its depth are at least 1 and fit 32 bits, they respect the caps
    [maxWidth] and [maxDepth] that are not 0, the saturation counter is 0
    and every cell is 0. *)
Theorem accuracy_respects_caps (error probability : double)
    (maxWidth maxDepth : Z) s :
  is_double error ->
  CountMinSketchBase_accuracy error probability maxWidth maxDepth = Ok s ->
  1 <= width s < 2 ^ 32 /\ 1 <= depth s < 2 ^ 32 /\
  (0 < maxWidth -> width s <= maxWidth) /\
  (0 < maxDepth -> depth s <= maxDepth) /\
  getSaturatedCounts s = 0 /\ Forall (fun v => v = 0) (table_ s).
Proof.
  intros He Hs. unfold CountMinSketchBase_accuracy in Hs.
  destruct (calculateWidth error maxWidth) as [w| |] eqn:Ew; try discriminate.
  rewrite bind_Ok in Hs.
  destruct (calculateDepth probability maxDepth) as [d| |] eqn:Ed;
    try discriminate.
  rewrite bind_Ok in Hs.
  assert (Hw1 : 1 <= w).
  { destruct (calculateWidth_cases error maxWidth He)
      as [[_ H]|[_ [H|(w' & H & Hw1)]]]; congruence. }
  assert (Hd1 : 1 <= d).
  { destruct (calculateDepth_cases probability maxDepth)
      as [[_ H]|[_ [H|(d' & H & Hd1)]]]; congruence. }
  assert (Hwu : w < 2 ^ 32 /\ (0 < maxWidth -> w <= maxWidth)).
  { unfold calculateWidth in Ew.
    destruct (dle error d0 || dge error d1); [discriminate|].
    destruct (narrow_cast 32 _) as [wv| |] eqn:Ec; try discriminate.
    rewrite bind_Ok in Ew. apply narrow_cast_Ok in Ec. destruct Ec as [_ Hr].
    injection Ew as <-. destruct (Z.ltb_spec 0 maxWidth); split; lia. }
  assert (Hdu : d < 2 ^ 32 /\ (0 < maxDepth -> d <= maxDepth)).
  { unfold calculateDepth in Ed.
    destruct (dle probability d0 || dge probability d1); [discriminate|].
    destruct (narrow_cast 32 _) as [dv| |] eqn:Ec; try discriminate.
    rewrite bind_Ok in Ed. apply narrow_cast_Ok in Ec. destruct Ec as [_ Hr].
    cbv zeta in Ed. injection Ed as <-.
    destruct (Z.ltb_spec 0 maxDepth); split; lia. }
  destruct (dimensions_Ok w d) as (s' & Hs' & Hw' & Hd' & Hsat & _ & Hz);
    [lia|lia|].
  assert (s' = s) by congruence. subst s'.
  unfold width, depth, getSaturatedCounts. rewrite Hw', Hd'.
  destruct Hwu, Hdu. repeat split; auto; lia.
Qed.

(** ** Moving a sketch *)

Lemma for_loop_rel {St : Type} (R : St -> St -> Prop)
    (body1 body2 : Z -> St -> result St) :
  (forall j s t, R s t -> outcome_rel R (body1 j s) (body2 j t)) ->
  forall (n : nat) (i : Z) (s t : St), R s t ->
    outcome_rel R (for_loop n i body1 s) (for_loop n i body2 t).
Proof.
  intros Hbody. induction n as [|n IH]; intros i s t Hst; [exact Hst|].
  cbn [for_loop]. specialize (Hbody i s t Hst).
  destruct (body1 i s) as [s1|e|], (body2 i t) as [t1|e'|];
    simpl in Hbody; try contradiction.
  - rewrite !bind_Ok. apply IH. exact Hbody.
  - exact Hbody.
  - exact I.
Qed.

Lemma getIndex_same s t row key :
  same_cells s t -> getIndex t row key = getIndex s row key.
Proof. intros (Hw & _ & _). unfold getIndex. rewrite Hw. reflexivity. Qed.

Lemma load_same s t i : same_cells s t -> load t i = load s i.
Proof. intros (_ & _ & Ht). unfold load. rewrite Ht. reflexivity. Qed.

Lemma store_rel s t i v :
  same_cells s t -> outcome_rel same_cells (store s i v) (store t i v).
Proof.
  intros (Hw & Hd & Ht). unfold store. rewrite Ht.
  destruct (table_ s !! Z.to_nat i); [|exact I].
  unfold outcome_rel, same_cells. simpl. auto.
Qed.

Lemma increment_row_rel key j s t :
  same_cells s t ->
  outcome_rel same_cells (increment_row key j s) (increment_row key j t).
Proof.
  intros Hst. unfold increment_row.
  rewrite (getIndex_same s t j key Hst).
  destruct (getIndex s j key) as [i|e|]; [|exact eq_refl|exact I].
  rewrite !bind_Ok, (load_same s t i Hst).
  destruct (load s i) as [c|e|]; [|exact eq_refl|exact I].
  rewrite !bind_Ok.
  destruct (c <? getMaxCount); [|exact Hst].
  pose proof (store_rel s t i (to_UINT (c + 1)) Hst) as Hs.
  destruct (store s i _) as [s1|e|], (store t i _) as [t1|e'|];
    simpl in Hs; try contradiction; [|exact Hs|exact I].
  rewrite !bind_Ok, (load_same s1 t1 i Hs).
  destruct (load s1 i) as [c1|e|]; [|exact eq_refl|exact I].
  rewrite !bind_Ok.
  destruct (c1 =? getMaxCount); [|exact Hs].
  destruct Hs as (Hw & Hd & Ht). unfold outcome_rel, same_cells. simpl. auto.
Qed.

Lemma resetCount_row_rel key c j s t :
  same_cells s t ->
  outcome_rel same_cells (resetCount_row key c j s) (resetCount_row key c j t).
Proof.
  intros Hst. unfold resetCount_row.
  rewrite (getIndex_same s t j key Hst).
  destruct (getIndex s j key) as [i|e|]; [|exact eq_refl|exact I].
  rewrite !bind_Ok, (load_same s t i Hst).
  destruct (load s i) as [v|e|]; [|exact eq_refl|exact I].
  rewrite !bind_Ok. apply store_rel. exact Hst.
Qed.

Lemma decay_cell_rel decay j s t :
  same_cells s t ->
  outcome_rel same_cells (decay_cell decay j s) (decay_cell decay j t).
Proof.
  intros Hst. unfold decay_cell. rewrite (load_same s t j Hst).
  destruct (load s j) as [v|e|]; [|exact eq_refl|exact I].
  rewrite !bind_Ok.
  destruct (narrow_cast bits _) as [z|e|]; [|exact eq_refl|exact I].
  rewrite !bind_Ok. apply store_rel. exact Hst.
Qed.

Lemma perform_rel (c : call) s t :
  same_cells s t -> outcome_rel same_cells (perform s c) (perform t c).
Proof.
  intros Hst. pose proof Hst as (Hw & Hd & Ht).
  destruct c as [key|key|key|decay|]; cbn [perform].
  - unfold increment. rewrite Hd.
    apply for_loop_rel; [apply increment_row_rel|exact Hst].
  - rewrite (getCount_same_cells s t key Hst).
    destruct (getCount s key) as [n|e|]; [exact Hst|exact eq_refl|exact I].
  - unfold resetCount. rewrite (getCount_same_cells s t key Hst), Hd.
    destruct (getCount s key) as [n|e|]; [|exact eq_refl|exact I].
    rewrite !bind_Ok.
    apply for_loop_rel; [apply resetCount_row_rel|exact Hst].
  - unfold decayCountsBy. rewrite Hw, Hd.
    apply for_loop_rel; [apply decay_cell_rel|exact Hst].
  - unfold reset. rewrite Hw, Hd.
    apply for_loop_rel; [intros j a b; apply store_rel|exact Hst].
Qed.

Lemma run_rel (cs : list call) :
  forall s t, same_cells s t -> outcome_rel same_cells (run s cs) (run t cs).
Proof.
  induction cs as [|c cs IH]; intros s t Hst; [exact Hst|].
  cbn [run]. pose proof (perform_rel c s t Hst) as Hc.
  destruct (perform s c) as [s1|e|], (perform t c) as [t1|e'|];
    simpl in Hc; try contradiction.
  - rewrite !bind_Ok. apply IH. exact Hc.
  - exact Hc.
  - exact I.
Qed.

(** X18. The move constructor hands the sketch over: the new object has
    the dimensions, the cells and hence the counts of the old one, and
    every sequence of calls has on it the outcome it would have had on
    the old one; only the saturation counter starts again from 0. *)
Theorem moved_sketch_behaves_alike (other : CountMinSketchBase)
    (cs : list call) :
  let fresh := fst (CountMinSketchBase_move other) in
  width fresh = width other /\ depth fresh = depth other /\
  table_ fresh = table_ other /\ getByteSize fresh = getByteSize other /\
  getSaturatedCounts fresh = 0 /\
  (forall key, getCount fresh key = getCount other key) /\
  outcome_rel same_cells (run other cs) (run fresh cs).
Proof.
  intros fresh.
  assert (Hsame : same_cells other fresh)
    by (unfold same_cells; simpl; auto).
  do 5 (split; [reflexivity|]).
  split; [intros key; apply getCount_same_cells; exact Hsame|].
  apply run_rel. exact Hsame.
Qed.

(** X19. Move assignment between the objects of a store: assigning an
    object to itself changes nothing; otherwise the target takes over
    the dimensions and the cells of the source, hence its counts, the
    source is left with no row and counts 0 for every key, and no other
    object is touched. *)
Theorem move_assignment (h : list CountMinSketchBase) (this other : nat)
    (a o : CountMinSketchBase) :
  h !! this = Some a -> h !! other = Some o ->
  (this = other -> CountMinSketchBase_move_assign h this other = Some h) /\
  (this <> other ->
   exists h' fresh moved,
     CountMinSketchBase_move_assign h this other = Some h' /\
     length h' = length h /\
     h' !! this = Some fresh /\ h' !! other = Some moved /\
     same_cells o fresh /\
     (forall key, getCount fresh key = getCount o key) /\
     width moved = 0 /\ depth moved = 0 /\
     (forall key, getCount moved key = Ok 0) /\
     (forall p, p <> this -> p <> other -> h' !! p = h !! p)).
Proof.
  intros Ha Ho. unfold CountMinSketchBase_move_assign. rewrite Ha, Ho.
  split.
  - intros E. destruct (decide (this = other)); [reflexivity|contradiction].
  - intros Hne. destruct (decide (this = other)); [contradiction|].
    simpl. eexists _, _, _. split; [reflexivity|].
    assert (Hsame : same_cells o (fst (CountMinSketchBase_move o)))
      by (unfold same_cells; simpl; auto).
    split; [rewrite !length_insert; reflexivity|].
    split.
    { apply list_lookup_insert_eq. rewrite length_insert.
      apply lookup_lt_Some in Ha. exact Ha. }
    split.
    { rewrite list_lookup_insert_ne by exact Hne.
      apply list_lookup_insert_eq. apply lookup_lt_Some in Ho. exact Ho. }
    split; [exact Hsame|].
    split; [intros key; apply getCount_same_cells; exact Hsame|].
    split; [reflexivity|]. split; [reflexivity|].
    split; [intros key; apply getCount_no_rows; reflexivity|].
    intros p Hp1 Hp2.
    rewrite !list_lookup_insert_ne by congruence. reflexivity.
Qed.

(** ** Decaying by one *)

Lemma shr_1_exact (k : Z) :
  0 <= k ->
  shr_1 {| shr_m := 2 * k; shr_r := false; shr_s := false |}
  = {| shr_m := k; shr_r := false; shr_s := false |}.
Proof. destruct k as [|p|p]; intros H; [reflexivity|reflexivity|lia]. Qed.

Lemma iter_shr_1_exact (p : positive) :
  forall k, 0 <= k ->
    SpecFloat.iter_pos shr_1 p
      {| shr_m := k * 2 ^ Zpos p; shr_r := false; shr_s := false |}
    = {| shr_m := k; shr_r := false; shr_s := false |}.
Proof.
  induction p as [p IH|p IH|]; intros k Hk.
  - change (SpecFloat.iter_pos shr_1 p~1 ?x)
      with (SpecFloat.iter_pos shr_1 p (SpecFloat.iter_pos shr_1 p (shr_1 x))).
    assert (Hp : 0 < 2 ^ Zpos p) by (apply Z.pow_pos_nonneg; lia).
    replace (k * 2 ^ Zpos p~1) with (2 * (k * 2 ^ Zpos p * 2 ^ Zpos p)).
    + rewrite shr_1_exact by nia. rewrite IH by nia. apply IH. exact Hk.
    + replace (Zpos p~1) with (Zpos p + Zpos p + 1) by lia.
      rewrite !Z.pow_add_r by lia. change (2 ^ 1) with 2. ring.
  - change (SpecFloat.iter_pos shr_1 p~0 ?x)
      with (SpecFloat.iter_pos shr_1 p (SpecFloat.iter_pos shr_1 p x)).
    assert (Hp : 0 < 2 ^ Zpos p) by (apply Z.pow_pos_nonneg; lia).
    replace (k * 2 ^ Zpos p~0) with (k * 2 ^ Zpos p * 2 ^ Zpos p).
    + rewrite IH by nia. apply IH. exact Hk.
    + replace (Zpos p~0) with (Zpos p + Zpos p) by lia.
      rewrite Z.pow_add_r by lia. ring.
  - change (SpecFloat.iter_pos shr_1 1 ?x) with (shr_1 x).
    replace (k * 2 ^ 1) with (2 * k) by (change (2 ^ 1) with 2; ring).
    apply shr_1_exact. exact Hk.
Qed.

(** Rounding a mantissa of 53 digits followed by [q] zero bits gives
    the mantissa back. *)
Lemma binary_round_aux_scaled (m k q : positive) (e : Z) :
  Zpos k = 2 ^ Zpos q ->
  Zpos (digits2_pos m) = 53 -> -1074 <= e <= 971 ->
  binary_round_aux prec emax false (Zpos (m * k)) (e + Zneg q) loc_Exact
  = S754_finite false m e.
Proof.
  intros Hk Hd He.
  assert (Hq : 0 < 2 ^ Zpos q) by (apply Z.pow_pos_nonneg; lia).
  assert (Hmk : Zpos (m * k) = Zpos m * 2 ^ Zpos q)
    by (rewrite Pos2Z.inj_mul, Hk; reflexivity).
  assert (Hdig : Zpos (digits2_pos (m * k)) = 53 + Zpos q).
  { destruct (digits_bounds m) as [Lm Um]. rewrite Hd in Lm, Um.
    change (53 - 1) with 52 in Lm.
    apply Z.le_antisymm.
    - apply digits_le. rewrite Hmk, Z.pow_add_r by lia. nia.
    - assert (52 + Zpos q < Zpos (digits2_pos (m * k))); [|lia].
      apply digits_gt; [lia|]. rewrite Hmk, Z.pow_add_r by lia. nia. }
  assert (Hfirst : shr_fexp prec emax (Zpos (m * k)) (e + Zneg q) loc_Exact
                   = ({| shr_m := Zpos m; shr_r := false; shr_s := false |}, e)).
  { unfold shr_fexp, shr. cbn [Zdigits2]. rewrite Hdig.
    replace (fexp prec emax (53 + Zpos q + (e + Zneg q)) - (e + Zneg q))
      with (Zpos q) by (unfold fexp, emin, prec, emax; lia).
    cbn [shr_record_of_loc]. rewrite Hmk, iter_shr_1_exact by lia.
    f_equal. lia. }
  assert (Hn : fexp prec emax (Zdigits2 (Zpos m) + e) - e <= 0).
  { simpl. rewrite Hd. unfold fexp, emin, prec, emax. lia. }
  assert (Hs : shr_fexp prec emax (Zpos m) e loc_Exact
               = (shr_record_of_loc (Zpos m) loc_Exact, e)).
  { destruct (shr_fexp prec emax (Zpos m) e loc_Exact) as [mrs e'] eqn:H.
    apply shr_fexp_spec in H; [|lia]. destruct H as (He' & _ & Hx).
    rewrite (Hx Hn). f_equal. lia. }
  unfold binary_round_aux. rewrite Hfirst.
  cbn [shr_m loc_of_shr_record shr_r shr_s round_nearest_even].
  rewrite Hs. simpl shr_m.
  destruct (e <=? emax - prec) eqn:El; [reflexivity|].
  apply Z.leb_gt in El. unfold emax, prec in El. lia.
Qed.

(** The double of a positive integer below [2^53] is normal, and exact. *)
Lemma double_of_Z_normal (v : positive) :
  Zpos v < 2 ^ 53 ->
  exists m e, double_of_Z (Zpos v) = S754_finite false m e /\
    -52 <= e <= 0 /\ Zpos m = Zpos v * 2 ^ (- e) /\
    Zpos (digits2_pos m) = 53.
Proof.
  intros Hv. unfold double_of_Z, binary_normalize, binary_round.
  pose proof (digits_le v 53 Hv) as Hd.
  assert (Hd1 : 1 <= Zpos (digits2_pos v)) by lia.
  assert (Hf : fexp prec emax (Zpos (digits2_pos v) + 0)
               = Zpos (digits2_pos v) - 53).
  { unfold fexp, emin, prec, emax. lia. }
  rewrite Hf. unfold shl_align.
  destruct (Zpos (digits2_pos v) - 53 - 0) as [|q|q] eqn:Eq; [|lia|].
  - exists v, 0. split; [|split; [lia|split; [simpl; lia|lia]]].
    apply binary_round_aux_exact; lia.
  - assert (Hdq : Zpos (digits2_pos (Pos.iter xO v q)) = 53)
      by (rewrite iter_xO_digits; lia).
    exists (Pos.iter xO v q), (Zpos (digits2_pos v) - 53).
    split; [|split; [lia|split; [|exact Hdq]]].
    + apply binary_round_aux_exact; [exact Hdq|lia].
    + rewrite iter_xO_value. f_equal. f_equal. lia.
Qed.

Lemma dmul_one (v : Z) (k : positive) :
  Zpos k = 2 ^ 52 -> 0 <= v < 2 ^ 53 ->
  dtrunc (dmul (double_of_Z v) (S754_finite false k (-52))) = Some v.
Proof.
  intros Hk Hv. destruct v as [|p|p]; [| |lia].
  - rewrite double_of_Z_0. reflexivity.
  - destruct (double_of_Z_normal p) as (m & e & -> & He & Hm & Hd); [lia|].
    unfold dmul, SFmul. cbn [xorb].
    change (-52) with (Zneg 52).
    rewrite (binary_round_aux_scaled m k 52 e Hk Hd) by lia.
    cbn [dtrunc cond_Zopp]. f_equal.
    assert (Hp : 0 < 2 ^ (- e)) by (apply Z.pow_pos_nonneg; lia).
    destruct (Z.eq_dec e 0) as [->|Hne].
    + rewrite Z.shiftl_0_r. change (2 ^ (- 0)) with 1 in Hm. lia.
    + rewrite Z.shiftl_div_pow2 by lia. rewrite Hm.
      apply Z.div_mul. lia.
Qed.

(** X20. Decaying by 1 changes nothing: [decayCountsBy(1.0)] returns
    and leaves the sketch as it is (counters of at most 32 bits). *)
Theorem decay_by_one_is_identity s :
  wf s -> bits <= 32 -> decayCountsBy s d1 = Ok s.
Proof.
  intros Hwf Hbits.
  destruct (getMaxCount_pos (wf_bits s Hwf)) as [Hp Hmax].
  assert (H32 : 2 ^ bits <= 2 ^ 32)
    by (apply Z.pow_le_mono_r; [lia|exact Hbits]).
  destruct (decay_pointwise s d1 (fun v z => v = z) (wf_table_size s Hwf))
    as (s' & Hrun & Hw & Hd & Hs & Hcells).
  { eapply Forall_impl; [exact (wf_cells s Hwf)|].
    intros v Hv. cbv beta in Hv. unfold getMaxCount in Hv.
    exists v. split; [|reflexivity].
    rewrite d1_value, dmul_one; [|reflexivity|].
    - apply narrow_cast_Ok. split; [reflexivity|lia].
    - assert (2 ^ 32 < 2 ^ 53) by (apply Z.pow_lt_mono_r; lia). lia. }
  rewrite Hrun. f_equal.
  apply list_eq_Forall2 in Hcells.
  destruct s, s'. simpl in *. congruence.
Qed.

(** ** No undefined behaviour *)

(** X21. Memory safety: on a sketch whose table matches its dimensions,
    every sequence of [increment], [getCount], [resetCount] and [reset]
    calls, and of [decayCountsBy] calls with a factor between 0 and 1,
    returns: no call throws, none reads or writes outside the table, none
    converts a value that the counter type cannot hold; and the sketch
    stays in such a state (counters of at most 32 bits). *)
Theorem calls_always_return (cs : list call) :
  forall s, wf s -> bits <= 32 -> Forall unit_decay cs ->
    exists s', run s cs = Ok s' /\ wf s'.
Proof.
  induction cs as [|c cs IH]; intros s Hwf Hbits Hall.
  - exists s. auto.
  - inversion Hall as [|? ? Hc Hcs]; subst.
    assert (Hstep : exists t, perform s c = Ok t).
    { destruct c as [key|key|key|decay|]; cbn [perform unit_decay] in *.
      - destruct (increment_effect s key Hwf) as (t & Ht & _). eauto.
      - rewrite (getCount_wf s key Hwf). eauto.
      - destruct (resetCount_effect s key Hwf) as (n & t & _ & Ht & _). eauto.
      - destruct Hc as (Hd & H0 & H1).
        destruct (getMaxCount_pos (wf_bits s Hwf)) as [Hp Hmax].
        assert (H32 : 2 ^ bits <= 2 ^ 32)
          by (apply Z.pow_le_mono_r; [lia|exact Hbits]).
        destruct (decay_pointwise s decay (fun v z => 0 <= z <= v)
                    (wf_table_size s Hwf)) as (t & Ht & _); [|eauto].
        eapply Forall_impl; [exact (wf_cells s Hwf)|].
        intros v Hv. cbv beta in Hv. unfold getMaxCount in Hv.
        destruct (dmul_bound v decay) as (z & Hz & _ & Hzv);
          try assumption; [lia|].
        exists z. split; [|exact Hzv]. rewrite Hz.
        apply narrow_cast_Ok. split; [reflexivity|lia].
      - destruct (reset_effect s (wf_table_size s Hwf)) as (t & Ht & _).
        eauto. }
    destruct Hstep as (t & Ht).
    destruct (IH t (perform_wf s c t Hwf Ht) Hbits Hcs) as (s' & Hrun & Hwf').
    exists s'. cbn [run]. rewrite Ht, bind_Ok. auto.
Qed.

(** X22. The constructor does not check that [width * depth] fits 32
    bits: when the product is a multiple of [2^32] it returns a sketch
    with the given dimensions and an empty table, of byte size 0, on
    which [increment], [getCount] and [resetCount] access the table out
    of bounds for every key. *)
Theorem construction_overflow (w d : Z) :
  0 < w < 2 ^ 32 -> 0 < d < 2 ^ 32 -> u32 (w * d) = 0 ->
  exists s0, CountMinSketchBase_dimensions w d = Ok s0 /\
    width s0 = w /\ depth s0 = d /\ table_ s0 = [] /\
    getByteSize s0 = 0 /\
    forall key, increment s0 key = Undefined /\
      getCount s0 key = Undefined /\ resetCount s0 key = Undefined.
Proof.
  intros Hw Hd Hz.
  destruct (dimensions_Ok w d) as (s0 & Hnew & Hw0 & Hd0 & _ & Hl & _);
    [lia|lia|].
  rewrite Hz in Hl. apply nil_length_inv in Hl.
  exists s0. split; [exact Hnew|]. split; [exact Hw0|]. split; [exact Hd0|].
  split; [exact Hl|].
  split; [unfold getByteSize; rewrite Hw0, Hd0, Hz; reflexivity|].
  intros key.
  assert (Hn : exists n, Z.to_nat (depth_ s0) = S n)
    by (exists (Z.to_nat (depth_ s0 - 1)); lia).
  destruct Hn as [n Hn].
  assert (Hidx : exists i, getIndex s0 0 key = Ok i).
  { unfold getIndex. destruct (Z.eqb_spec (width_ s0) 0); [lia|eauto]. }
  destruct Hidx as [i Hi].
  assert (Hload : load s0 i = Undefined) by (unfold load; rewrite Hl; reflexivity).
  assert (Hget : getCount s0 key = Undefined).
  { assert (Hrow : getCount_row s0 key 0 getMaxCount = Undefined)
      by (unfold getCount_row; rewrite Hi, bind_Ok, Hload; reflexivity).
    unfold getCount. rewrite Hn. cbn [for_loop]. rewrite Hrow. reflexivity. }
  split; [|split; [exact Hget|]].
  - assert (Hrow : increment_row key 0 s0 = Undefined)
      by (unfold increment_row; rewrite Hi, bind_Ok, Hload; reflexivity).
    unfold increment. rewrite Hn. cbn [for_loop]. rewrite Hrow. reflexivity.
  - unfold resetCount. rewrite Hget. reflexivity.
Qed.

(** ** Construction errors, in terms of the open interval *)

Lemma not_outside_inside (x : double) :
  x <> S754_nan -> ~ outside_unit x -> inside_unit x.
Proof.
  intros Hx Hno. pose proof (outside_unit_iff x Hx) as Hiff.
  unfold inside_unit in *.
  destruct (dlt d0 x), (dlt x d1); try (split; reflexivity);
    exfalso; apply Hno, Hiff; intros [A B]; discriminate.
Qed.

Lemma inside_not_outside (x : double) :
  x <> S754_nan -> inside_unit x -> ~ outside_unit x.
Proof.
  intros Hx Hin Ho. apply (outside_unit_iff x Hx) in Ho. exact (Ho Hin).
Qed.

(** C6, amended. Construction throws [std::invalid_argument], with the
    offending parameter named in the message and its value interpolated,
    exactly when: from dimensions, the width is 0 (named first) or the
    depth is 0; from the accuracy, for an error and a probability that
    are numbers and an error whose width [ceil (2 / error)], when the
    error is in (0,1), is a value of the 32-bit width, the error or the
    probability is outside the open interval (0,1), the error being
    named first.  After construction [increment], [getCount],
    [resetCount], [decayCountsBy] and [reset] never throw, whatever the
    key or the decay factor. *)
Theorem construction_errors_amended (w d : Z) (error probability : double)
    (maxWidth maxDepth : Z) (s : CountMinSketchBase) (key : Z)
    (decay : double) :
  is_double error -> error <> S754_nan -> probability <> S754_nan ->
  (inside_unit error ->
   exists wv, dceil (ddiv d2 error) = Some wv /\ 0 <= wv < 2 ^ 32) ->
  ((exists e, CountMinSketchBase_dimensions w d = Throw e)
   <-> w = 0 \/ d = 0) /\
  (w = 0 ->
   CountMinSketchBase_dimensions w d =
   Throw (invalid_argument "Width must be greater than 0. Width: {}"
                           (VUInt w))) /\
  (w <> 0 -> d = 0 ->
   CountMinSketchBase_dimensions w d =
   Throw (invalid_argument "Depth must be greater than 0. Depth: {}"
                           (VUInt d))) /\
  ((exists e, CountMinSketchBase_accuracy error probability maxWidth maxDepth
              = Throw e)
   <-> ~ inside_unit error \/ ~ inside_unit probability) /\
  (~ inside_unit error ->
   CountMinSketchBase_accuracy error probability maxWidth maxDepth =
   Throw (invalid_argument
            "Error should be greater than 0 and less than 1. Error: {}"
            (VDouble error))) /\
  (inside_unit error -> ~ inside_unit probability ->
   CountMinSketchBase_accuracy error probability maxWidth maxDepth =
   Throw (invalid_argument
     "Probability should be greater than 0 and less than 1. Probability: {}"
     (VDouble probability))) /\
  (forall e,
     increment s key <> Throw e /\ getCount s key <> Throw e /\
     resetCount s key <> Throw e /\ decayCountsBy s decay <> Throw e /\
     reset s <> Throw e).
Proof.
  intros Hv Hne Hnp Hfit.
  pose proof (outside_unit_iff error Hne) as He.
  pose proof (outside_unit_iff probability Hnp) as Hp.
  assert (Hdef : calculateWidth error maxWidth <> Undefined).
  { destruct (calculateWidth_cases error maxWidth Hv) as [[_ ->]|[Hno _]];
      [discriminate|].
    pose proof (not_outside_inside error Hne Hno) as Hin.
    destruct (Hfit Hin) as (wv & Hw & Hr).
    unfold calculateWidth. rewrite (inside_passes error Hin), Hw.
    assert (Hc : narrow_cast 32 (Some wv) = Ok wv)
      by (apply narrow_cast_Ok; auto).
    rewrite Hc. discriminate. }
  destruct (construction_outcomes w d error probability maxWidth maxDepth
              s key decay Hv Hdef) as (H1 & H2 & H3 & H4 & H5 & H6 & H7).
  split; [exact H1|]. split; [exact H2|]. split; [exact H3|].
  split; [|split; [|split; [|exact H7]]].
  - split.
    + intros Hthrow. apply H4 in Hthrow.
      destruct Hthrow as [Ho|Ho]; [left; apply He|right; apply Hp]; exact Ho.
    + intros [Hn|Hn]; apply H4; [left; apply He|right; apply Hp]; exact Hn.
  - intros Hn. apply H5, He. exact Hn.
  - intros Hin Hn. apply H6; [apply inside_not_outside; assumption|].
    apply Hp. exact Hn.
Qed.

(** ** Dimensions whose product does not fit 32 bits *)

(** The constructor computes the number of cells as a 32-bit product:
    for 65536 x 65536 it allocates no cell, for 65536 x 65537 it
    allocates 65536 cells. *)
Lemma dimensions_no_cell :
  exists s0, CountMinSketchBase_dimensions 65536 65536 = Ok s0 /\
    width_ s0 = 65536 /\ depth_ s0 = 65536 /\ table_ s0 = [].
Proof.
  destruct (dimensions_Ok 65536 65536) as (s0 & Hnew & Hw & Hd & _ & Hl & _);
    [lia|lia|].
  assert (Hu : u32 (65536 * 65536) = 0) by reflexivity.
  rewrite Hu in Hl. apply nil_length_inv in Hl.
  exists s0. auto.
Qed.

Lemma dimensions_one_slot :
  exists s0, CountMinSketchBase_dimensions 65536 65537 = Ok s0 /\
    width_ s0 = 65536 /\ depth_ s0 = 65537 /\
    Z.of_nat (length (table_ s0)) = 65536.
Proof.
  destruct (dimensions_Ok 65536 65537) as (s0 & Hnew & Hw & Hd & _ & Hl & _);
    [lia|lia|].
  assert (Hu : u32 (65536 * 65537) = 65536) by reflexivity.
  rewrite Hu in Hl. exists s0. repeat (split; [assumption|]).
  rewrite Hl. apply Z2Nat.id. lia.
Qed.

(** Without a cell every access of a key is outside the table. *)
Lemma no_cell_out_of_bounds s key :
  width_ s <> 0 -> 0 < depth_ s -> table_ s = [] ->
  increment s key = Undefined /\ getCount s key = Undefined /\
  resetCount s key = Undefined.
Proof.
  intros Hw Hd Hl.
  assert (Hn : exists n, Z.to_nat (depth_ s) = S n)
    by (exists (Z.to_nat (depth_ s - 1)); lia).
  destruct Hn as [n Hn].
  assert (Hidx : exists i, getIndex s 0 key = Ok i).
  { unfold getIndex. destruct (Z.eqb_spec (width_ s) 0); [lia|eauto]. }
  destruct Hidx as [i Hi].
  assert (Hload : load s i = Undefined)
    by (unfold load; rewrite Hl; reflexivity).
  assert (Hget : getCount s key = Undefined).
  { assert (Hrow : getCount_row s key 0 getMaxCount = Undefined)
      by (unfold getCount_row; rewrite Hi, bind_Ok, Hload; reflexivity).
    unfold getCount. rewrite Hn. cbn [for_loop]. rewrite Hrow. reflexivity. }
  split; [|split; [exact Hget|]].
  - assert (Hrow : increment_row key 0 s = Undefined)
      by (unfold increment_row; rewrite Hi, bind_Ok, Hload; reflexivity).
    unfold increment. rewrite Hn. cbn [for_loop]. rewrite Hrow. reflexivity.
  - unfold resetCount. rewrite Hget. reflexivity.
Qed.

(** With a width of 65536 the 32-bit product [hashNum * width_] of
    [getIndex] is 0 again at row 65536. *)
Lemma getIndex_width_65536 s key :
  width_ s = 65536 ->
  (forall row, 0 <= column s row key < 65536) /\
  getIndex s 0 key = Ok (column s 0 key) /\
  getIndex s 1 key = Ok (65536 + column s 1 key) /\
  getIndex s 65536 key = Ok (column s 65536 key).
Proof.
  intros Hw.
  assert (Hc : forall row, 0 <= column s row key < 65536)
    by (intros row; rewrite <- Hw; apply column_range; lia).
  assert (Hg : forall row, getIndex s row key
                 = Ok (u64 (u32 (row * 65536) + column s row key))).
  { intros row. unfold getIndex, column. rewrite Hw. reflexivity. }
  assert (H0 : u32 (0 * 65536) = 0) by reflexivity.
  assert (H1 : u32 (1 * 65536) = 65536) by reflexivity.
  assert (H2 : u32 (65536 * 65536) = 0) by reflexivity.
  split; [exact Hc|]. rewrite !Hg, H0, H1, H2.
  pose proof (Hc 0). pose proof (Hc 1). pose proof (Hc 65536).
  assert (H64 : 2 ^ 32 < 2 ^ 64) by (apply Z.pow_lt_mono_r; lia).
  assert (H32 : 2 * 65536 < 2 ^ 32) by reflexivity.
  rewrite !Z.add_0_l.
  repeat split; f_equal; apply u64_small; lia.
Qed.

(** On the sketch of 65536 x 65537 the cell of a key in row 1 lies
    outside the table. *)
Lemma one_slot_out_of_bounds s key :
  width_ s = 65536 -> depth_ s = 65537 ->
  Z.of_nat (length (table_ s)) = 65536 ->
  (exists i, getIndex s 1 key = Ok i /\
     Z.of_nat (length (table_ s)) <= i /\ load s i = Undefined) /\
  getCount s key = Undefined /\ resetCount s key = Undefined.
Proof.
  intros Hw Hd Hl.
  destruct (getIndex_width_65536 s key Hw) as (Hc & Hi0 & Hi1 & _).
  pose proof (Hc 1) as Hc1.
  assert (Hload : load s (65536 + column s 1 key) = Undefined).
  { unfold load.
    destruct (table_ s !! Z.to_nat (65536 + column s 1 key)) as [v|] eqn:E;
      [|reflexivity].
    apply lookup_lt_Some in E. lia. }
  assert (Hget : getCount s key = Undefined).
  { assert (Hn : exists n, Z.to_nat (depth_ s) = S (S n))
      by (exists (Z.to_nat (depth_ s - 2)); lia).
    destruct Hn as [n Hn].
    assert (Hrow1 : forall acc, getCount_row s key 1 acc = Undefined)
      by (intros acc; unfold getCount_row;
          rewrite Hi1, bind_Ok, Hload; reflexivity).
    assert (Hrow0 : getCount_row s key 0 getMaxCount = Undefined \/
                    exists a, getCount_row s key 0 getMaxCount = Ok a).
    { unfold getCount_row. rewrite Hi0, bind_Ok. unfold load.
      destruct (table_ s !! Z.to_nat (column s 0 key)); [right|left];
        [rewrite bind_Ok; eauto|reflexivity]. }
    unfold getCount. rewrite Hn. cbn [for_loop]. change (0 + 1) with 1.
    destruct Hrow0 as [->|[a ->]]; [reflexivity|].
    rewrite bind_Ok, Hrow1. reflexivity. }
  split; [|split; [exact Hget|]].
  - exists (65536 + column s 1 key). split; [exact Hi1|].
    split; [lia|exact Hload].
  - unfold resetCount. rewrite Hget. reflexivity.
Qed.

(** C3 (the code departs from it). [getIndex] multiplies the row by the
    width in 32 bits.  On the sketch that [CountMinSketchBase(65536,
    65537)] constructs, with its 65536 cells, the index of a key in row
    65536 is its column alone, a cell of row 0, and not [row * width_ +
    column], which is [2^32 + column]; and [getCount] reads outside the
    table in row 1.  On the sketch that [CountMinSketchBase(65536,
    65536)] constructs there is no cell, and [getCount] reads outside the
    table for every key instead of returning a minimum. *)
Theorem getCount_index_wraps (key : Z) :
  (exists s0,
     CountMinSketchBase_dimensions 65536 65537 = Ok s0 /\
     Z.of_nat (length (table_ s0)) = 65536 /\
     getIndex s0 65536 key = Ok (column s0 65536 key) /\
     0 <= column s0 65536 key < 65536 /\
     index s0 65536 key = 2 ^ 32 + column s0 65536 key /\
     getCount s0 key = Undefined) /\
  (exists s0,
     CountMinSketchBase_dimensions 65536 65536 = Ok s0 /\
     table_ s0 = [] /\ getCount s0 key = Undefined).
Proof.
  split.
  - destruct dimensions_one_slot as (s0 & Hnew & Hw & Hd & Hl).
    destruct (getIndex_width_65536 s0 key Hw) as (Hc & _ & _ & Hi).
    destruct (one_slot_out_of_bounds s0 key Hw Hd Hl) as (_ & Hget & _).
    exists s0. split; [exact Hnew|]. split; [exact Hl|].
    split; [exact Hi|]. split; [apply Hc|]. split; [|exact Hget].
    unfold index. rewrite Hw. reflexivity.
  - destruct dimensions_no_cell as (s0 & Hnew & Hw & Hd & Hl).
    destruct (no_cell_out_of_bounds s0 key) as (_ & Hget & _);
      [lia|lia|exact Hl|].
    exists s0. auto.
Qed.

(** C4 (the code departs from it). On the sketch that
    [CountMinSketchBase(65536, 65536)] constructs, whose table has no
    cell because the product of the dimensions is taken in 32 bits,
    [resetCount] takes no count [c] and subtracts nothing: it reads
    outside the table, for every key. *)
Theorem resetCount_out_of_bounds (key : Z) :
  exists s0,
    CountMinSketchBase_dimensions 65536 65536 = Ok s0 /\
    width s0 = 65536 /\ depth s0 = 65536 /\ table_ s0 = [] /\
    getCount s0 key = Undefined /\ resetCount s0 key = Undefined.
Proof.
  destruct dimensions_no_cell as (s0 & Hnew & Hw & Hd & Hl).
  destruct (no_cell_out_of_bounds s0 key) as (_ & Hget & Hreset);
    [lia|lia|exact Hl|].
  exists s0. unfold width, depth. auto 8.
Qed.

(** C8 (the code departs from it). On the sketch that
    [CountMinSketchBase(65536, 65536)] constructs, [reset()] returns,
    over a table without a cell, and [getCount] afterwards reads outside
    the table instead of returning 0, for every key. *)
Theorem reset_then_getCount_out_of_bounds (key : Z) :
  exists s0 s1,
    CountMinSketchBase_dimensions 65536 65536 = Ok s0 /\
    reset s0 = Ok s1 /\ table_ s1 = [] /\
    getCount s1 key = Undefined.
Proof.
  destruct dimensions_no_cell as (s0 & Hnew & Hw & Hd & Hl).
  destruct (no_cell_out_of_bounds s0 key) as (_ & Hget & _);
    [lia|lia|exact Hl|].
  exists s0, s0. split; [exact Hnew|]. split; [|auto].
  unfold reset. rewrite Hw, Hd.
  assert (Hu : u32 (65536 * 65536) = 0) by reflexivity.
  rewrite Hu. reflexivity.
Qed.

(** C9 (the code departs from it). The rows do not own disjoint slots:
    on the sketch that [CountMinSketchBase(65536, 65537)] constructs,
    with its 65536 cells, the cells of a key in the rows 0 and 65536
    both lie in the first 65536 cells, and are one cell when the two
    rows give the key the same column; and [resetCount] reads outside the
    table in row 1, so that nothing holds of the cells afterwards. *)
Theorem resetCount_rows_share_slots (key : Z) :
  exists s0,
    CountMinSketchBase_dimensions 65536 65537 = Ok s0 /\
    width s0 = 65536 /\ depth s0 = 65537 /\
    Z.of_nat (length (table_ s0)) = 65536 /\
    (exists i j,
       getIndex s0 0 key = Ok i /\ getIndex s0 65536 key = Ok j /\
       0 <= i < 65536 /\ 0 <= j < 65536 /\
       (column s0 0 key = column s0 65536 key -> i = j)) /\
    (exists i, getIndex s0 1 key = Ok i /\
       Z.of_nat (length (table_ s0)) <= i /\ load s0 i = Undefined) /\
    resetCount s0 key = Undefined.
Proof.
  destruct dimensions_one_slot as (s0 & Hnew & Hw & Hd & Hl).
  destruct (getIndex_width_65536 s0 key Hw) as (Hc & Hi0 & _ & Hi).
  destruct (one_slot_out_of_bounds s0 key Hw Hd Hl) as (Hrow & _ & Hreset).
  exists s0. split; [exact Hnew|]. split; [exact Hw|]. split; [exact Hd|].
  split; [exact Hl|]. split; [|split; [exact Hrow|exact Hreset]].
  exists (column s0 0 key), (column s0 65536 key).
  split; [exact Hi0|]. split; [exact Hi|].
  split; [apply Hc|]. split; [apply Hc|auto].
Qed.

(** ** Two rows of a key on one cell *)

Lemma load_in_bounds s i :
  0 <= i < Z.of_nat (length (table_ s)) -> load s i = Ok (cell s i).
Proof.
  intros Hi. unfold load, cell.
  destruct (table_ s !! Z.to_nat i) as [v|] eqn:E; [reflexivity|].
  apply lookup_ge_None in E. lia.
Qed.

Lemma cell_in_range s i :
  0 < bits -> cells_ok s -> 0 <= cell s i <= getMaxCount.
Proof.
  intros Hb Hok. destruct (getMaxCount_pos Hb) as [_ Hm].
  destruct (cell_range s i Hok); lia.
Qed.

(** One iteration of [increment] on a cell inside the table. *)
Lemma increment_row_in_bounds s key row i :
  0 < bits -> cells_ok s -> getIndex s row key = Ok i ->
  0 <= i < Z.of_nat (length (table_ s)) ->
  exists s', increment_row key row s = Ok s' /\ cells_ok s' /\
    width_ s' = width_ s /\ depth_ s' = depth_ s /\
    length (table_ s') = length (table_ s) /\
    forall k, 0 <= k ->
      cell s' k = if k =? i then Z.min (cell s k + 1) getMaxCount
                  else cell s k.
Proof.
  intros Hb Hok Hi Hin.
  assert (Hex : exists s', increment_row key row s = Ok s').
  { unfold increment_row. rewrite Hi, bind_Ok.
    rewrite (load_in_bounds s i Hin), bind_Ok.
    destruct (cell s i <? getMaxCount); [|eauto].
    rewrite store_in_range by lia. rewrite bind_Ok.
    set (s1 := set_table s _).
    assert (Hl1 : load s1 i = Ok (to_UINT (cell s i + 1))).
    { unfold load, s1. cbn [table_ set_table].
      rewrite list_lookup_insert_eq by lia. reflexivity. }
    rewrite Hl1, bind_Ok. destruct (_ =? _); eauto. }
  destruct Hex as [s' Hs'].
  destruct (increment_row_partial s key row s' Hb Hok Hs')
    as (Hok' & Hw & Hd & Hc).
  destruct (increment_row_shape key row s s' Hs') as (_ & _ & Hl).
  destruct (getIndex_Ok s row key i Hi) as [Hraw _].
  exists s'. repeat (split; [assumption|]). rewrite Hraw. exact Hc.
Qed.

Lemma getCount_row_in_bounds s key row i acc :
  getIndex s row key = Ok i -> 0 <= i < Z.of_nat (length (table_ s)) ->
  getCount_row s key row acc = Ok (Z.min acc (cell s i)).
Proof.
  intros Hi Hin. unfold getCount_row.
  rewrite Hi, bind_Ok, (load_in_bounds s i Hin). reflexivity.
Qed.

(** One iteration of [resetCount] on a cell inside the table. *)
Lemma resetCount_row_in_bounds s key c row i :
  getIndex s row key = Ok i -> 0 <= i < Z.of_nat (length (table_ s)) ->
  exists s', resetCount_row key c row s = Ok s' /\
    width_ s' = width_ s /\ depth_ s' = depth_ s /\
    length (table_ s') = length (table_ s) /\
    forall k, 0 <= k ->
      cell s' k = if k =? i then to_UINT (cell s i - c) else cell s k.
Proof.
  intros Hi Hin. unfold resetCount_row.
  rewrite Hi, bind_Ok, (load_in_bounds s i Hin), bind_Ok.
  rewrite store_in_range by lia.
  eexists. split; [reflexivity|]. cbn [width_ depth_ table_ set_table].
  split; [reflexivity|]. split; [reflexivity|].
  split; [apply length_insert|].
  intros k Hk. apply cell_insert; lia.
Qed.

(** The indices of the key in the three rows: the 32-bit product
    [2 * w] has lost [2^32]. *)
Lemma shared_cell_indices (w key : Z) s :
  shares_cell w key -> width_ s = w ->
  getIndex s 0 key = Ok (column_at w 0 key) /\
  getIndex s 1 key = Ok (w + column_at w 1 key) /\
  getIndex s 2 key = Ok (column_at w 0 key) /\
  0 <= column_at w 0 key < w /\
  w <= w + column_at w 1 key < 3 * w - 2 ^ 32.
Proof.
  intros (Hlo & Hhi & H1 & H2) Hw.
  assert (Hc : forall row, 0 <= column_at w row key < w)
    by (intros; apply Z.mod_pos_bound; lia).
  assert (Hg : forall row, getIndex s row key
                 = Ok (u64 (u32 (row * w) + column_at w row key))).
  { intros row. unfold getIndex, column_at. rewrite Hw.
    destruct (Z.eqb_spec w 0); [lia|reflexivity]. }
  assert (E0 : u32 (0 * w) = 0) by reflexivity.
  assert (E1 : u32 (1 * w) = w) by (rewrite Z.mul_1_l; apply u32_small; lia).
  assert (E2 : u32 (2 * w) = 2 * w - 2 ^ 32).
  { unfold u32. symmetry.
    apply (Z.mod_unique_pos (2 * w) (2 ^ 32) 1 (2 * w - 2 ^ 32)); lia. }
  rewrite !Hg, E0, E1, E2.
  pose proof (Hc 0). pose proof (Hc 1). pose proof (Hc 2).
  split; [f_equal; rewrite Z.add_0_l; apply u64_small; lia|].
  split; [f_equal; apply u64_small; lia|].
  split; [f_equal; rewrite <- H2; apply u64_small; lia|]. lia.
Qed.

(** [increment key] on three rows: the shared cell goes up twice. *)
Lemma increment_three_rows (w key : Z) s :
  0 < bits -> shares_cell w key -> three_rows w s ->
  exists s', increment s key = Ok s' /\ three_rows w s' /\
    cell s' (column_at w 0 key)
    = Z.min (Z.min (cell s (column_at w 0 key) + 1) getMaxCount + 1)
            getMaxCount /\
    cell s' (w + column_at w 1 key)
    = Z.min (cell s (w + column_at w 1 key) + 1) getMaxCount.
Proof.
  intros Hb Hsh (Hw & Hd & Hl & Hok).
  set (i := column_at w 0 key). set (j := w + column_at w 1 key).
  destruct (shared_cell_indices w key s Hsh Hw) as (G0 & _ & _ & Hi & Hj).
  fold i in G0, Hi. fold j in Hj.
  destruct (increment_row_in_bounds s key 0 i Hb Hok G0)
    as (s1 & R1 & Hok1 & Hw1 & Hd1 & Hl1 & C1); [lia|].
  assert (Hws1 : width_ s1 = w) by congruence.
  destruct (shared_cell_indices w key s1 Hsh Hws1) as (_ & G1 & _ & _ & _).
  fold j in G1.
  destruct (increment_row_in_bounds s1 key 1 j Hb Hok1 G1)
    as (s2 & R2 & Hok2 & Hw2 & Hd2 & Hl2 & C2); [lia|].
  assert (Hws2 : width_ s2 = w) by congruence.
  destruct (shared_cell_indices w key s2 Hsh Hws2) as (_ & _ & G2 & _ & _).
  fold i in G2.
  destruct (increment_row_in_bounds s2 key 2 i Hb Hok2 G2)
    as (s3 & R3 & Hok3 & Hw3 & Hd3 & Hl3 & C3); [lia|].
  exists s3. split.
  { unfold increment. rewrite Hd. change (Z.to_nat 3) with 3%nat.
    cbn [for_loop]. change (0 + 1 + 1) with 2. change (0 + 1) with 1.
    rewrite R1, bind_Ok, R2, bind_Ok, R3. reflexivity. }
  split.
  { unfold three_rows. split; [congruence|]. split; [congruence|].
    split; [lia|exact Hok3]. }
  assert (Hij : (i =? j) = false) by (apply Z.eqb_neq; lia).
  assert (Hji : (j =? i) = false) by (apply Z.eqb_neq; lia).
  split.
  - rewrite C3, C2, C1 by lia. rewrite Z.eqb_refl, Hij. reflexivity.
  - rewrite C3, C2, C1 by lia. rewrite Z.eqb_refl, Hji. reflexivity.
Qed.

Lemma increments_three_rows (w key : Z) (n : nat) :
  0 < bits -> shares_cell w key ->
  forall s a b,
    three_rows w s ->
    cell s (column_at w 0 key) = a -> cell s (w + column_at w 1 key) = b ->
    exists s', run s (repeat (Increment key) n) = Ok s' /\ three_rows w s' /\
      cell s' (column_at w 0 key) = Z.min (a + 2 * Z.of_nat n) getMaxCount /\
      cell s' (w + column_at w 1 key) = Z.min (b + Z.of_nat n) getMaxCount.
Proof.
  intros Hb Hsh. induction n as [|n IH]; intros s a b Hs Ha Hbv.
  - exists s. split; [reflexivity|]. split; [exact Hs|].
    destruct Hs as (_ & _ & _ & Hok).
    pose proof (cell_in_range s (column_at w 0 key) Hb Hok).
    pose proof (cell_in_range s (w + column_at w 1 key) Hb Hok).
    split; lia.
  - destruct (increment_three_rows w key s Hb Hsh Hs)
      as (s1 & Hinc & Hs1 & Hi1 & Hj1).
    destruct (IH s1 _ _ Hs1 Hi1 Hj1) as (s' & Hrun & Hs' & Hi' & Hj').
    exists s'. cbn [repeat run perform]. rewrite Hinc, bind_Ok.
    split; [exact Hrun|]. split; [exact Hs'|].
    destruct Hs as (_ & _ & _ & Hok).
    pose proof (cell_in_range s (column_at w 0 key) Hb Hok).
    pose proof (cell_in_range s (w + column_at w 1 key) Hb Hok).
    rewrite Hi', Hj'. split; lia.
Qed.

Lemma getCount_three_rows (w key : Z) s :
  0 < bits -> shares_cell w key -> three_rows w s ->
  getCount s key
  = Ok (Z.min (cell s (column_at w 0 key)) (cell s (w + column_at w 1 key))).
Proof.
  intros Hb Hsh (Hw & Hd & Hl & Hok).
  destruct (shared_cell_indices w key s Hsh Hw) as (G0 & G1 & G2 & Hi & Hj).
  pose proof (cell_in_range s (column_at w 0 key) Hb Hok).
  pose proof (cell_in_range s (w + column_at w 1 key) Hb Hok).
  unfold getCount. rewrite Hd. change (Z.to_nat 3) with 3%nat.
  cbn [for_loop]. change (0 + 1 + 1) with 2. change (0 + 1) with 1.
  rewrite (getCount_row_in_bounds s key 0 _ _ G0) by lia. rewrite bind_Ok.
  rewrite (getCount_row_in_bounds s key 1 _ _ G1) by lia. rewrite bind_Ok.
  rewrite (getCount_row_in_bounds s key 2 _ _ G2) by lia. rewrite !bind_Ok.
  change (3 =? 0) with false. cbv iota. rewrite Z.mul_1_r.
  rewrite to_UINT_small by lia. f_equal. lia.
Qed.

(** [resetCount key] on three rows: the shared cell loses the count
    twice. *)
Lemma resetCount_three_rows (w key : Z) s :
  0 < bits -> shares_cell w key -> three_rows w s ->
  exists c s', getCount s key = Ok c /\ resetCount s key = Ok s' /\
    cell s' (column_at w 0 key)
    = to_UINT (to_UINT (cell s (column_at w 0 key) - c) - c).
Proof.
  intros Hb Hsh Hs. pose proof (getCount_three_rows w key s Hb Hsh Hs) as Hget.
  destruct Hs as (Hw & Hd & Hl & Hok).
  set (i := column_at w 0 key) in *. set (j := w + column_at w 1 key) in *.
  set (c := Z.min (cell s i) (cell s j)) in *.
  destruct (shared_cell_indices w key s Hsh Hw) as (G0 & _ & _ & Hi & Hj).
  fold i in G0, Hi. fold j in Hj.
  destruct (resetCount_row_in_bounds s key c 0 i G0)
    as (s1 & R1 & Hw1 & Hd1 & Hl1 & C1); [lia|].
  assert (Hws1 : width_ s1 = w) by congruence.
  destruct (shared_cell_indices w key s1 Hsh Hws1) as (_ & G1 & _ & _ & _).
  fold j in G1.
  destruct (resetCount_row_in_bounds s1 key c 1 j G1)
    as (s2 & R2 & Hw2 & Hd2 & Hl2 & C2); [lia|].
  assert (Hws2 : width_ s2 = w) by congruence.
  destruct (shared_cell_indices w key s2 Hsh Hws2) as (_ & _ & G2 & _ & _).
  fold i in G2.
  destruct (resetCount_row_in_bounds s2 key c 2 i G2)
    as (s3 & R3 & Hw3 & Hd3 & Hl3 & C3); [lia|].
  exists c, s3. split; [exact Hget|]. split.
  { unfold resetCount. rewrite Hget, bind_Ok, Hd.
    change (Z.to_nat 3) with 3%nat.
    cbn [for_loop]. change (0 + 1 + 1) with 2. change (0 + 1) with 1.
    rewrite R1, bind_Ok, R2, bind_Ok, R3. reflexivity. }
  assert (Hij : (i =? j) = false) by (apply Z.eqb_neq; lia).
  rewrite C3 by lia. rewrite Z.eqb_refl. rewrite C2 by lia. rewrite Hij.
  rewrite C1 by lia. rewrite Z.eqb_refl. reflexivity.
Qed.

(** X27. Where the product of the dimensions exceeds 32 bits two rows of
    a key can share a cell, and [resetCount] then subtracts the count
    from it twice.  On the sketch that [CountMinSketchBase(w, 3)]
    constructs for [2^31 < w] and [3 * w < 2^33], for a key whose cell in
    row 1 lies inside the table and whose rows 0 and 2 have one cell,
    after [n] increments of the key [resetCount] leaves in the shared
    cell its value minus twice the count, reduced to the counter type:
    0 where the value minus the count is [n] (for [2 * n] up to the
    maximum), and 1 once the counters are saturated, the second
    subtraction being [0 - maximum], which wraps around. *)
Theorem resetCount_shared_cell (w key : Z) (n : nat) :
  0 < bits -> 2 ^ 31 < w -> 3 * w < 2 ^ 33 ->
  column_at w 1 key < 2 * w - 2 ^ 32 ->
  column_at w 0 key = 2 * w - 2 ^ 32 + column_at w 2 key ->
  exists s0 s1 s2 c,
    CountMinSketchBase_dimensions w 3 = Ok s0 /\
    Z.of_nat (length (table_ s0)) = 3 * w - 2 ^ 32 /\
    getIndex s0 0 key = Ok (column_at w 0 key) /\
    getIndex s0 2 key = Ok (column_at w 0 key) /\
    run s0 (repeat (Increment key) n) = Ok s1 /\
    getCount s1 key = Ok c /\ c = Z.min (Z.of_nat n) getMaxCount /\
    resetCount s1 key = Ok s2 /\
    cell s2 (column_at w 0 key)
    = to_UINT (cell s1 (column_at w 0 key) - c - c) /\
    (2 * Z.of_nat n <= getMaxCount ->
     cell s1 (column_at w 0 key) - c = Z.of_nat n /\
     cell s2 (column_at w 0 key) = 0) /\
    (getMaxCount <= Z.of_nat n ->
     cell s1 (column_at w 0 key) - c = 0 /\
     cell s2 (column_at w 0 key) = 1).
Proof.
  intros Hb Hlo Hhi H1 H2.
  assert (Hsh : shares_cell w key) by (unfold shares_cell; auto).
  destruct (getMaxCount_pos Hb) as [Hp Hm].
  destruct (dimensions_Ok w 3) as (s0 & Hnew & Hw & Hd & _ & Hl & Hz);
    [lia|lia|].
  assert (Hu : u32 (w * 3) = 3 * w - 2 ^ 32).
  { unfold u32. symmetry.
    apply (Z.mod_unique_pos (w * 3) (2 ^ 32) 1 (3 * w - 2 ^ 32)); lia. }
  assert (Hlen : Z.of_nat (length (table_ s0)) = 3 * w - 2 ^ 32)
    by (rewrite Hl, Hu; apply Z2Nat.id; lia).
  assert (Hzero : forall k, cell s0 k = 0).
  { intros k. unfold cell.
    destruct (table_ s0 !! Z.to_nat k) as [v|] eqn:E; [|reflexivity].
    rewrite Forall_lookup in Hz. exact (Hz _ _ E). }
  assert (Hs0 : three_rows w s0).
  { unfold three_rows. repeat (split; [assumption|]).
    unfold cells_ok. eapply Forall_impl; [exact Hz|].
    intros v Hv. cbv beta in Hv. subst v. lia. }
  destruct (shared_cell_indices w key s0 Hsh Hw) as (G0 & _ & G2 & _ & _).
  destruct (increments_three_rows w key n Hb Hsh s0 0 0 Hs0
              (Hzero _) (Hzero _)) as (s1 & Hrun & Hs1 & Hi1 & Hj1).
  destruct (resetCount_three_rows w key s1 Hb Hsh Hs1)
    as (c & s2 & Hget & Hreset & Hfin).
  pose proof (getCount_three_rows w key s1 Hb Hsh Hs1) as Hget'.
  rewrite Hi1, Hj1 in Hget'.
  assert (Hc : c = Z.min (Z.of_nat n) getMaxCount).
  { rewrite Hget in Hget'. injection Hget' as ->. lia. }
  assert (Hsmall : to_UINT (cell s1 (column_at w 0 key) - c)
                   = cell s1 (column_at w 0 key) - c).
  { apply to_UINT_small. rewrite Hi1, Hc. lia. }
  rewrite Hsmall in Hfin.
  exists s0, s1, s2, c.
  split; [exact Hnew|]. split; [exact Hlen|]. split; [exact G0|].
  split; [exact G2|]. split; [exact Hrun|]. split; [exact Hget|].
  split; [exact Hc|]. split; [exact Hreset|]. split; [exact Hfin|].
  split.
  - intros Hn. split; [rewrite Hi1, Hc; lia|].
    rewrite Hfin, Hi1, Hc.
    replace (Z.min (0 + 2 * Z.of_nat n) getMaxCount
             - Z.min (Z.of_nat n) getMaxCount
             - Z.min (Z.of_nat n) getMaxCount) with 0 by lia.
    apply to_UINT_small. lia.
  - intros Hn. split; [rewrite Hi1, Hc; lia|].
    rewrite Hfin, Hi1, Hc.
    replace (Z.min (0 + 2 * Z.of_nat n) getMaxCount
             - Z.min (Z.of_nat n) getMaxCount
             - Z.min (Z.of_nat n) getMaxCount) with (- getMaxCount) by lia.
    unfold to_UINT, getMaxCount. symmetry.
    apply (Z.mod_unique_pos _ (2 ^ bits) (-1) 1); [|lia].
    assert (H21 : 2 ^ 1 <= 2 ^ bits) by (apply Z.pow_le_mono_r; lia).
    change (2 ^ 1) with 2 in H21. lia.
Qed.

End Sketch.

(** ** The statements at concrete inputs *)

Lemma sample_sketch_wf : wf 8 sample_sketch.
Proof.
  constructor; simpl; try lia.
  repeat constructor; unfold getMaxCount; lia.
Defined.


Lemma getCount_minimum_witness :
  wf 8 sample_sketch /\
  getCount sample_hashInt sample_combineHashes 8 sample_sketch 1 = Ok 3.
Proof.
  split; [exact sample_sketch_wf|].
  destruct (getCount_minimum sample_hashInt sample_combineHashes 8
              sample_sketch 1 sample_sketch_wf) as (_ & H & _).
  destruct H as (m & Hm & Hg); [simpl; lia|].
  vm_compute in Hm. injection Hm as <-. exact Hg.
Defined.

Lemma resetCount_subtracts_witness :
  wf 8 sample_sketch /\
  exists s',
    resetCount sample_hashInt sample_combineHashes 8 sample_sketch 1 = Ok s' /\
    table_ s' !! 0%nat = Some 0 /\ table_ s' !! 1%nat = Some 1.
Proof.
  split; [exact sample_sketch_wf|].
  destruct (resetCount_subtracts sample_hashInt sample_combineHashes 8
              sample_sketch 1 sample_sketch_wf)
    as (c & s' & Hget & Hc & Hreset & _ & _ & _ & _ & Hrows & Hrest).
  exists s'. split; [exact Hreset|]. split.
  - specialize (Hrows 0). vm_compute in Hc. subst c.
    apply Hrows. simpl. lia.
  - rewrite (Hrest 1%nat); [reflexivity|].
    intros row Hr. simpl in Hr.
    assert (row = 0 \/ row = 1) as [->| ->] by lia; vm_compute; discriminate.
Defined.

Lemma reset_zero_witness :
  wf 8 sample_sketch /\
  exists s', reset sample_sketch = Ok s' /\
    getCount sample_hashInt sample_combineHashes 8 s' 1 = Ok 0.
Proof.
  split; [exact sample_sketch_wf|].
  destruct (reset_zero sample_hashInt sample_combineHashes 8 sample_sketch
              sample_sketch_wf) as (s' & Hr & _ & _ & Hg).
  exists s'. split; [exact Hr|apply Hg].
Defined.

Lemma resetCount_no_underflow_witness :
  wf 8 sample_sketch /\
  exists s',
    resetCount sample_hashInt sample_combineHashes 8 sample_sketch 1 = Ok s' /\
    Forall (fun v => 0 <= v <= getMaxCount 8) (table_ s').
Proof.
  split; [exact sample_sketch_wf|].
  destruct (resetCount_no_underflow sample_hashInt sample_combineHashes 8
              sample_sketch 1 sample_sketch_wf)
    as (c & s' & _ & Hreset & _ & _ & Hcells).
  exists s'. split; [exact Hreset|exact Hcells].
Defined.

(** C2 (the code departs from it). On a sketch of 8-bit counters with
    one cell, 255 increments saturate the cell and [getSaturatedCounts]
    returns 1, the number of cells at the maximum; [reset()] then clears
    the cell and leaves the counter alone, so that [getSaturatedCounts]
    still returns 1 while no cell is at the maximum. *)
Theorem saturated_count_stale_after_reset
    (hashInt : Z -> Z) (combineHashes : Z -> Z -> Z) (key : Z) :
  CountMinSketchBase_dimensions 1 1 = Ok (one_cell 0 0) /\
  run hashInt combineHashes 8 (one_cell 0 0) (repeat (Increment key) 255)
  = Ok (one_cell 255 1) /\
  getSaturatedCounts (one_cell 255 1) = 1 /\
  saturated_cells 8 (one_cell 255 1) = 1 /\
  run hashInt combineHashes 8 (one_cell 255 1) [Reset] = Ok (one_cell 0 1) /\
  getSaturatedCounts (one_cell 0 1) = 1 /\
  saturated_cells 8 (one_cell 0 1) = 0.
Proof.
  split; [vm_compute; reflexivity|].
  split; [apply (increments_to_max hashInt combineHashes 8 0 key); lia|].
  repeat split; vm_compute; reflexivity.
Qed.

(** The binary64 product is rounded before it is truncated: 3 times the
    double nearest to 1/3 is exactly 1, although the exact product of the
    two numbers is below 1. *)
Lemma decay_rounds_before_truncating :
  dtrunc (dmul (double_of_Z 3) d_third) = Some 1 /\
  (3 * 6004799503160661) / 2 ^ 54 = 0.
Proof. split; vm_compute; reflexivity. Qed.

Lemma decay_floor_witness :
  (wf 8 sample_sketch /\ 8 <= 32 /\ is_double d_0_5 /\
   dle d0 d_0_5 = true /\ dle d_0_5 d1 = true) /\
  exists s', decayCountsBy 8 sample_sketch d_0_5 = Ok s' /\
    table_ s' !! 0%nat = Some 1.
Proof.
  assert (H : wf 8 sample_sketch /\ 8 <= 32 /\ is_double d_0_5 /\
              dle d0 d_0_5 = true /\ dle d_0_5 d1 = true).
  { split; [exact sample_sketch_wf|]. split; [lia|].
    repeat split; vm_compute; reflexivity. }
  split; [exact H|].
  destruct H as (H1 & H2 & H3 & H4 & H5).
  destruct (decay_floor 8 sample_sketch d_0_5 H1 H2 H3 H4 H5)
    as (s' & Hrun & _ & _ & _ & _ & Hcells).
  exists s'. split; [exact Hrun|].
  destruct (Hcells 0%nat 3 eq_refl) as (v' & Hv' & Hfl & _).
  vm_compute in Hfl. injection Hfl as <-. exact Hv'.
Defined.

(** C7, at an input where it fails: for the error 1e-10, inside (0,1),
    [ceil (2 / error)] is 20000000000, which does not fit the 32-bit
    width; [calculateWidth] does not return it. *)
Lemma accuracy_width_overflows :
  inside_unit d_1e_10 /\ is_double d_1e_10 /\
  dceil (ddiv d2 d_1e_10) = Some 20000000000 /\
  calculateWidth d_1e_10 0 <> Ok 20000000000 /\
  calculateWidth d_1e_10 0 = Undefined.
Proof.
  split; [split; vm_compute; reflexivity|].
  split; [vm_compute; reflexivity|].
  split; [vm_compute; reflexivity|].
  split; [vm_compute; discriminate|vm_compute; reflexivity].
Qed.

Lemma accuracy_dimensions_witness :
  (inside_unit d_0_01 /\ inside_unit d_0_99 /\
   dceil (ddiv d2 d_0_01) = Some 200 /\ 0 <= 200 < 2 ^ 32 /\
   dceil (dabs (ddiv (sample_log (dsub d1 d_0_99)) (sample_log d2)))
   = Some 7 /\ 0 <= 7 < 2 ^ 32) /\
  CountMinSketchBase_accuracy sample_log d_0_01 d_0_99 0 0
  = CountMinSketchBase_dimensions 200 7.
Proof.
  assert (H : inside_unit d_0_01 /\ inside_unit d_0_99 /\
     dceil (ddiv d2 d_0_01) = Some 200 /\ 0 <= 200 < 2 ^ 32 /\
     dceil (dabs (ddiv (sample_log (dsub d1 d_0_99)) (sample_log d2)))
     = Some 7 /\ 0 <= 7 < 2 ^ 32).
  { split; [split; vm_compute; reflexivity|].
    split; [split; vm_compute; reflexivity|].
    split; [vm_compute; reflexivity|]. split; [lia|].
    split; [vm_compute; reflexivity|lia]. }
  split; [exact H|].
  destruct H as (H1 & H2 & H3 & H4 & H5 & H6).
  apply (accuracy_dimensions sample_log d_0_01 d_0_99 0 0 200 7
           H1 H2 H3 H4 H5 H6).
Defined.

(** ** The further properties, on the sample sketches *)

Lemma sample_fresh_constructed :
  CountMinSketchBase_dimensions 2 2 = Ok sample_fresh.
Proof. reflexivity. Defined.

Lemma operations_keep_dimensions_witness :
  exists s',
    run sample_hashInt sample_combineHashes 8 sample_sketch
      [Increment 1; ResetCount 2; DecayCountsBy d_0_5; Reset] = Ok s' /\
    width s' = 2 /\ depth s' = 2 /\ getByteSize 8 s' = 4.
Proof.
  destruct (run sample_hashInt sample_combineHashes 8 sample_sketch
              [Increment 1; ResetCount 2; DecayCountsBy d_0_5; Reset])
    as [s'| |] eqn:H; [|vm_compute in H; discriminate..].
  exists s'. split; [reflexivity|].
  destruct (operations_keep_dimensions sample_hashInt sample_combineHashes 8
              sample_sketch _ s' H) as (Hw & Hd & _ & Hb).
  rewrite Hw, Hd, Hb. repeat split; reflexivity.
Defined.

Lemma only_increment_moves_saturated_witness :
  Forall not_increment [ResetCount 1; DecayCountsBy d_0_5; Reset; GetCount 2] /\
  exists s',
    run sample_hashInt sample_combineHashes 8 sample_sketch
      [ResetCount 1; DecayCountsBy d_0_5; Reset; GetCount 2] = Ok s' /\
    getSaturatedCounts s' = 0.
Proof.
  assert (Hall : Forall not_increment
                   [ResetCount 1; DecayCountsBy d_0_5; Reset; GetCount 2])
    by (repeat (constructor; [exact I|]); constructor).
  split; [exact Hall|].
  destruct (run sample_hashInt sample_combineHashes 8 sample_sketch
              [ResetCount 1; DecayCountsBy d_0_5; Reset; GetCount 2])
    as [s'| |] eqn:H; [|vm_compute in H; discriminate..].
  exists s'. split; [reflexivity|].
  exact (only_increment_moves_saturated sample_hashInt sample_combineHashes 8
           sample_sketch _ s' Hall H).
Defined.

Lemma reachable_states_well_formed_witness :
  (0 < 8 /\ 0 < 2 /\ 0 < 2 /\ 2 * 2 < 2 ^ 32) /\
  exists s,
    run sample_hashInt sample_combineHashes 8 sample_fresh
      [Increment 1; Increment 3; DecayCountsBy d_0_5; ResetCount 1] = Ok s /\
    width s = 2 /\ depth s = 2 /\
    exists c, getCount sample_hashInt sample_combineHashes 8 s 1 = Ok c /\
      0 <= c <= getMaxCount 8.
Proof.
  split; [lia|].
  destruct (run sample_hashInt sample_combineHashes 8 sample_fresh
              [Increment 1; Increment 3; DecayCountsBy d_0_5; ResetCount 1])
    as [s| |] eqn:H; [|vm_compute in H; discriminate..].
  exists s. split; [reflexivity|].
  destruct (reachable_states_well_formed sample_hashInt sample_combineHashes
              8 2 2 [Increment 1; Increment 3; DecayCountsBy d_0_5; ResetCount 1]
              sample_fresh s) as (Hw & Hd & _ & _ & Hc);
    [lia|lia|lia|lia|exact sample_fresh_constructed|exact H|].
  split; [exact Hw|]. split; [exact Hd|]. apply Hc.
Defined.

Lemma fresh_sketch_is_empty_witness :
  (0 < 8 /\ 0 < 2 /\ 0 < 2 /\ 2 * 2 < 2 ^ 32) /\
  exists s, CountMinSketchBase_dimensions 2 2 = Ok s /\
    getSaturatedCounts s = 0 /\
    getCount sample_hashInt sample_combineHashes 8 s 7 = Ok 0.
Proof.
  split; [lia|].
  destruct (fresh_sketch_is_empty sample_hashInt sample_combineHashes 8 2 2)
    as (s & Hnew & _ & _ & Hsat & _ & Hg); [lia|lia|lia|lia|].
  exists s. split; [exact Hnew|]. split; [exact Hsat|apply Hg].
Defined.

Lemma byte_size_of_table_witness :
  (0 < 8 <= 32 /\ 2 <> 0 /\
   CountMinSketchBase_dimensions 2 2 = Ok sample_fresh) /\
  exists s,
    run sample_hashInt sample_combineHashes 8 sample_fresh
      [Increment 1; Reset] = Ok s /\
    getByteSize 8 s = 4.
Proof.
  split; [split; [lia|split; [lia|exact sample_fresh_constructed]]|].
  destruct (run sample_hashInt sample_combineHashes 8 sample_fresh
              [Increment 1; Reset]) as [s| |] eqn:H;
    [|vm_compute in H; discriminate..].
  exists s. split; [reflexivity|].
  destruct (byte_size_of_table sample_hashInt sample_combineHashes 8 2 2
              [Increment 1; Reset] sample_fresh s) as (_ & Hb);
    [lia|lia|lia|exact sample_fresh_constructed|exact H|].
  rewrite Hb by lia. reflexivity.
Defined.

Lemma increment_changes_own_cells_witness :
  wf 8 sample_sketch /\
  exists s',
    increment sample_hashInt sample_combineHashes 8 sample_sketch 1 = Ok s' /\
    table_ s' !! 0%nat = Some 4 /\ table_ s' !! 1%nat = Some 1.
Proof.
  split; [exact sample_sketch_wf|].
  destruct (increment_changes_own_cells sample_hashInt sample_combineHashes 8
              sample_sketch 1 sample_sketch_wf)
    as (s' & Hrun & _ & _ & _ & Hrows & Hrest).
  exists s'. split; [exact Hrun|]. split.
  - apply (Hrows 0). simpl. lia.
  - rewrite (Hrest 1%nat); [reflexivity|].
    intros row Hr. simpl in Hr.
    assert (row = 0 \/ row = 1) as [->| ->] by lia; vm_compute; discriminate.
Defined.

Lemma increment_moves_count_by_at_most_one_witness :
  wf 8 sample_sketch /\
  exists s' c c',
    increment sample_hashInt sample_combineHashes 8 sample_sketch 3 = Ok s' /\
    getCount sample_hashInt sample_combineHashes 8 sample_sketch 1 = Ok c /\
    getCount sample_hashInt sample_combineHashes 8 s' 1 = Ok c' /\
    c <= c' <= c + 1.
Proof.
  split; [exact sample_sketch_wf|].
  destruct (increment_moves_count_by_at_most_one sample_hashInt
              sample_combineHashes 8 sample_sketch 3 1 sample_sketch_wf)
    as (s' & c & c' & Hrun & Hg & Hg' & Hc & _).
  exists s', c, c'. auto.
Defined.

Lemma one_cell_full_wf : wf 8 (one_cell 255 1).
Proof.
  constructor; simpl; try lia.
  repeat constructor; unfold getMaxCount; lia.
Defined.

Lemma increment_at_capacity_is_ignored_witness :
  (wf 8 (one_cell 255 1) /\
   getCount sample_hashInt sample_combineHashes 8 (one_cell 255 1) 9
   = Ok (getMaxCount 8)) /\
  increment sample_hashInt sample_combineHashes 8 (one_cell 255 1) 9
  = Ok (one_cell 255 1).
Proof.
  assert (Hg : getCount sample_hashInt sample_combineHashes 8
                 (one_cell 255 1) 9 = Ok (getMaxCount 8))
    by (vm_compute; reflexivity).
  split; [split; [exact one_cell_full_wf|exact Hg]|].
  exact (increment_at_capacity_is_ignored sample_hashInt sample_combineHashes
           8 (one_cell 255 1) 9 one_cell_full_wf Hg).
Defined.

Lemma count_between_own_and_all_calls_witness :
  (0 < 8 /\ 0 < 2 /\ 0 < 2 /\ 2 * 2 < 2 ^ 32) /\
  exists s0 s c,
    CountMinSketchBase_dimensions 2 2 = Ok s0 /\
    run sample_hashInt sample_combineHashes 8 s0 (map Increment [1; 2; 1])
      = Ok s /\
    getCount sample_hashInt sample_combineHashes 8 s 1 = Ok c /\
    Z.min (calls_of 1 [1; 2; 1]) (getMaxCount 8) <= c /\
    c <= Z.min (Z.of_nat (length [1; 2; 1])) (getMaxCount 8).
Proof.
  split; [lia|].
  apply (count_between_own_and_all_calls sample_hashInt sample_combineHashes
           8 2 2 [1; 2; 1] 1); lia.
Defined.

Lemma count_exact_without_collision_witness :
  (0 < 8 /\ 0 < 2 /\ 0 < 2 /\ 2 * 2 < 2 ^ 32 /\
   CountMinSketchBase_dimensions 2 2 = Ok sample_fresh /\ 0 <= 0 < 2 /\
   forall a, In a [1; 2; 1; 2] -> a <> 1 ->
     column sample_hashInt sample_combineHashes sample_fresh 0 a
     <> column sample_hashInt sample_combineHashes sample_fresh 0 1) /\
  exists s,
    run sample_hashInt sample_combineHashes 8 sample_fresh
      (map Increment [1; 2; 1; 2]) = Ok s /\
    getCount sample_hashInt sample_combineHashes 8 s 1
    = Ok (Z.min (calls_of 1 [1; 2; 1; 2]) (getMaxCount 8)).
Proof.
  assert (Hcol : forall a, In a [1; 2; 1; 2] -> a <> 1 ->
            column sample_hashInt sample_combineHashes sample_fresh 0 a
            <> column sample_hashInt sample_combineHashes sample_fresh 0 1).
  { intros a Ha Hne. simpl in Ha.
    destruct Ha as [<-|[<-|[<-|[<-|[]]]]]; try congruence;
      vm_compute; discriminate. }
  split.
  { repeat (split; [lia|]). split; [exact sample_fresh_constructed|].
    split; [lia|exact Hcol]. }
  apply (count_exact_without_collision sample_hashInt sample_combineHashes
           8 2 2 [1; 2; 1; 2] 1 0 sample_fresh);
    [lia|lia|lia|lia|exact sample_fresh_constructed|lia|exact Hcol].
Defined.

Lemma increments_order_irrelevant_witness :
  (wf 8 sample_sketch /\ Permutation [1; 2] [2; 1]) /\
  exists s1 s2,
    run sample_hashInt sample_combineHashes 8 sample_sketch
      (map Increment [1; 2]) = Ok s1 /\
    run sample_hashInt sample_combineHashes 8 sample_sketch
      (map Increment [2; 1]) = Ok s2 /\
    table_ s1 = table_ s2.
Proof.
  split; [split; [exact sample_sketch_wf|exact (perm_swap 2 1 [])]|].
  destruct (increments_order_irrelevant sample_hashInt sample_combineHashes 8
              sample_sketch [1; 2] [2; 1] sample_sketch_wf
              (perm_swap 2 1 [])) as (s1 & s2 & H1 & H2 & Ht & _).
  exists s1, s2. auto.
Defined.

Lemma saturated_counts_exact_witness :
  (0 < 8 /\ 0 < 2 /\ 0 < 2 /\ 2 * 2 < 2 ^ 32 /\
   CountMinSketchBase_dimensions 2 2 = Ok sample_fresh /\
   Forall counting_call [Increment 1; GetCount 1; Increment 2]) /\
  exists s,
    run sample_hashInt sample_combineHashes 8 sample_fresh
      [Increment 1; GetCount 1; Increment 2] = Ok s /\
    getSaturatedCounts s = saturated_cells 8 s.
Proof.
  assert (Hall : Forall counting_call [Increment 1; GetCount 1; Increment 2])
    by (repeat (constructor; [exact I|]); constructor).
  split.
  { repeat (split; [lia|]). split; [exact sample_fresh_constructed|exact Hall]. }
  destruct (run sample_hashInt sample_combineHashes 8 sample_fresh
              [Increment 1; GetCount 1; Increment 2]) as [s| |] eqn:H;
    [|vm_compute in H; discriminate..].
  exists s. split; [reflexivity|].
  apply (saturated_counts_exact sample_hashInt sample_combineHashes 8 2 2
           [Increment 1; GetCount 1; Increment 2] sample_fresh s);
    [lia|lia|lia|lia|exact sample_fresh_constructed|exact Hall|exact H].
Defined.

Lemma resetCount_clears_the_key_witness :
  wf 8 sample_sketch /\
  exists s',
    resetCount sample_hashInt sample_combineHashes 8 sample_sketch 1 = Ok s' /\
    getCount sample_hashInt sample_combineHashes 8 s' 1 = Ok 0.
Proof.
  split; [exact sample_sketch_wf|].
  destruct (resetCount_clears_the_key sample_hashInt sample_combineHashes 8
              sample_sketch 1 sample_sketch_wf) as (s' & Hrun & Hg & _).
  exists s'. auto.
Defined.

Lemma resetCount_idempotent_witness :
  wf 8 sample_sketch /\
  exists s',
    resetCount sample_hashInt sample_combineHashes 8 sample_sketch 1 = Ok s' /\
    resetCount sample_hashInt sample_combineHashes 8 s' 1 = Ok s'.
Proof.
  split; [exact sample_sketch_wf|].
  exact (resetCount_idempotent sample_hashInt sample_combineHashes 8
           sample_sketch 1 sample_sketch_wf).
Defined.

Lemma decay_never_raises_counts_witness :
  (wf 8 sample_sketch /\ 8 <= 32 /\ is_double d_0_5 /\
   dle d0 d_0_5 = true /\ dle d_0_5 d1 = true) /\
  exists s' c c',
    decayCountsBy 8 sample_sketch d_0_5 = Ok s' /\
    getCount sample_hashInt sample_combineHashes 8 sample_sketch 1 = Ok c /\
    getCount sample_hashInt sample_combineHashes 8 s' 1 = Ok c' /\
    0 <= c' <= c.
Proof.
  assert (H : wf 8 sample_sketch /\ 8 <= 32 /\ is_double d_0_5 /\
              dle d0 d_0_5 = true /\ dle d_0_5 d1 = true).
  { split; [exact sample_sketch_wf|]. split; [lia|].
    repeat split; vm_compute; reflexivity. }
  split; [exact H|].
  destruct H as (H1 & H2 & H3 & H4 & H5).
  destruct (decay_never_raises_counts sample_hashInt sample_combineHashes 8
              sample_sketch d_0_5 H1 H2 H3 H4 H5) as (s' & Hrun & Hk).
  destruct (Hk 1) as (c & c' & Hg & Hg' & Hc).
  exists s', c, c'. auto.
Defined.

Lemma decay_by_zero_is_reset_witness :
  (wf 8 sample_sketch /\ 8 <= 32) /\
  decayCountsBy 8 sample_sketch d0 = reset sample_sketch.
Proof.
  split; [split; [exact sample_sketch_wf|lia]|].
  apply (decay_by_zero_is_reset 8 sample_sketch false sample_sketch_wf). lia.
Defined.

Lemma accuracy_respects_caps_witness :
  is_double d_0_01 /\
  exists s,
    CountMinSketchBase_accuracy sample_log d_0_01 d_0_99 100 5 = Ok s /\
    1 <= width s <= 100 /\ 1 <= depth s <= 5.
Proof.
  assert (He : is_double d_0_01) by (vm_compute; reflexivity).
  split; [exact He|].
  destruct (CountMinSketchBase_accuracy sample_log d_0_01 d_0_99 100 5)
    as [s| |] eqn:H; [|vm_compute in H; discriminate..].
  exists s. split; [reflexivity|].
  destruct (accuracy_respects_caps sample_log d_0_01 d_0_99 100 5 s He H)
    as (Hw & Hd & Hwc & Hdc & _).
  specialize (Hwc ltac:(lia)). specialize (Hdc ltac:(lia)). lia.
Defined.

Lemma move_assignment_witness :
  let h := [sample_sketch; one_cell 5 0; CountMinSketchBase_default] in
  (h !! 0%nat = Some sample_sketch /\ h !! 1%nat = Some (one_cell 5 0)) /\
  exists h' fresh moved,
    CountMinSketchBase_move_assign h 0 1 = Some h' /\
    h' !! 0%nat = Some fresh /\ h' !! 1%nat = Some moved /\
    getCount sample_hashInt sample_combineHashes 8 fresh 7
    = getCount sample_hashInt sample_combineHashes 8 (one_cell 5 0) 7 /\
    getCount sample_hashInt sample_combineHashes 8 moved 7 = Ok 0 /\
    h' !! 2%nat = Some CountMinSketchBase_default.
Proof.
  intros h. split; [split; reflexivity|].
  destruct (move_assignment sample_hashInt sample_combineHashes 8 h 0 1
              sample_sketch (one_cell 5 0) eq_refl eq_refl) as [_ Hmove].
  destruct Hmove as (h' & fresh & moved & Hrun & _ & Hf & Hm & _ & Hg & _ &
                     _ & Hg0 & Hrest); [discriminate|].
  exists h', fresh, moved. split; [exact Hrun|].
  split; [exact Hf|]. split; [exact Hm|]. split; [apply Hg|].
  split; [apply Hg0|]. rewrite Hrest by discriminate. reflexivity.
Defined.

Lemma decay_by_one_is_identity_witness :
  (wf 8 sample_sketch /\ 8 <= 32) /\
  decayCountsBy 8 sample_sketch d1 = Ok sample_sketch.
Proof.
  split; [split; [exact sample_sketch_wf|lia]|].
  apply (decay_by_one_is_identity 8 sample_sketch sample_sketch_wf). lia.
Defined.

Lemma calls_always_return_witness :
  (wf 8 sample_sketch /\ 8 <= 32 /\
   Forall unit_decay
     [Increment 1; DecayCountsBy d_0_5; ResetCount 2; Reset]) /\
  exists s',
    run sample_hashInt sample_combineHashes 8 sample_sketch
      [Increment 1; DecayCountsBy d_0_5; ResetCount 2; Reset] = Ok s' /\
    wf 8 s'.
Proof.
  assert (Hall : Forall unit_decay
                   [Increment 1; DecayCountsBy d_0_5; ResetCount 2; Reset]).
  { constructor; [exact I|].
    constructor; [repeat split; vm_compute; reflexivity|].
    constructor; [exact I|]. constructor; [exact I|]. constructor. }
  split; [split; [exact sample_sketch_wf|split; [lia|exact Hall]]|].
  apply (calls_always_return sample_hashInt sample_combineHashes 8 _
           sample_sketch sample_sketch_wf); [lia|exact Hall].
Defined.

Lemma construction_overflow_witness :
  (0 < 65536 < 2 ^ 32 /\ u32 (65536 * 65536) = 0) /\
  exists s0, CountMinSketchBase_dimensions 65536 65536 = Ok s0 /\
    table_ s0 = [] /\
    increment sample_hashInt sample_combineHashes 8 s0 1 = Undefined /\
    getCount sample_hashInt sample_combineHashes 8 s0 1 = Undefined.
Proof.
  assert (Hz : u32 (65536 * 65536) = 0) by reflexivity.
  split; [split; [lia|exact Hz]|].
  destruct (construction_overflow sample_hashInt sample_combineHashes 8
              65536 65536) as (s0 & Hnew & _ & _ & Ht & _ & Hk);
    [lia|lia|exact Hz|].
  destruct (Hk 1) as (Hi & Hg & _).
  exists s0. auto.
Defined.

(** ** Construction errors, on concrete parameters *)

(** C6, at inputs where it fails: a NaN error is outside (0,1), passes
    both comparisons of the range check and is not rejected; and for the
    error 1e-10, inside (0,1), the width [ceil (2 / error)] is not a
    32-bit value, the width computation comes first and is undefined, and
    the probability 2, outside (0,1), is not rejected either. *)
Lemma construction_errors_fail :
  (~ inside_unit S754_nan /\ is_double S754_nan /\
   forall (log : double -> double) e,
     CountMinSketchBase_accuracy log S754_nan d_0_99 0 0 <> Throw e) /\
  (inside_unit d_1e_10 /\ is_double d_1e_10 /\ ~ inside_unit d2 /\
   forall (log : double -> double) e,
     CountMinSketchBase_accuracy log d_1e_10 d2 0 0 <> Throw e).
Proof.
  assert (Hnan : calculateWidth S754_nan 0 = Undefined)
    by (vm_compute; reflexivity).
  assert (Hbig : calculateWidth d_1e_10 0 = Undefined)
    by (vm_compute; reflexivity).
  split.
  - split; [intros [H _]; vm_compute in H; discriminate|].
    split; [vm_compute; reflexivity|].
    intros log e. unfold CountMinSketchBase_accuracy. rewrite Hnan.
    discriminate.
  - split; [split; vm_compute; reflexivity|].
    split; [vm_compute; reflexivity|].
    split; [intros [_ H]; vm_compute in H; discriminate|].
    intros log e. unfold CountMinSketchBase_accuracy. rewrite Hbig.
    discriminate.
Qed.

Lemma construction_errors_amended_witness :
  (is_double d_0_01 /\ d_0_01 <> S754_nan /\ d2 <> S754_nan /\
   (inside_unit d_0_01 ->
    exists wv, dceil (ddiv d2 d_0_01) = Some wv /\ 0 <= wv < 2 ^ 32)) /\
  (exists e, CountMinSketchBase_dimensions 0 5 = Throw e) /\
  CountMinSketchBase_accuracy sample_log d_0_01 d2 0 0 =
  Throw (invalid_argument
    "Probability should be greater than 0 and less than 1. Probability: {}"
    (VDouble d2)).
Proof.
  assert (H1 : is_double d_0_01) by (vm_compute; reflexivity).
  assert (H2 : d_0_01 <> S754_nan) by discriminate.
  assert (H3 : d2 <> S754_nan) by (intros H; vm_compute in H; discriminate).
  assert (H4 : inside_unit d_0_01 ->
               exists wv, dceil (ddiv d2 d_0_01) = Some wv /\ 0 <= wv < 2 ^ 32).
  { intros _. exists 200. split; [vm_compute; reflexivity|lia]. }
  split; [auto|].
  destruct (construction_errors_amended sample_hashInt sample_combineHashes
              sample_log 8 0 5 d_0_01 d2 0 0 sample_sketch 1 d_0_5
              H1 H2 H3 H4) as (Hdim & _ & _ & _ & _ & Hprob & _).
  split.
  - apply Hdim. left. reflexivity.
  - apply Hprob.
    + split; vm_compute; reflexivity.
    + intros [_ H]. vm_compute in H. discriminate.
Defined.

(** ** A shared cell, on concrete parameters *)

Lemma resetCount_shared_cell_witness :
  (0 < 8 /\ 2 ^ 31 < 2147483656 /\ 3 * 2147483656 < 2 ^ 33 /\
   column_at shifting_hashInt shifting_combineHashes 2147483656 1 5
   < 2 * 2147483656 - 2 ^ 32 /\
   column_at shifting_hashInt shifting_combineHashes 2147483656 0 5
   = 2 * 2147483656 - 2 ^ 32
     + column_at shifting_hashInt shifting_combineHashes 2147483656 2 5) /\
  column_at shifting_hashInt shifting_combineHashes 2147483656 0 5 = 21 /\
  exists s0 s1 s2,
    CountMinSketchBase_dimensions 2147483656 3 = Ok s0 /\
    run shifting_hashInt shifting_combineHashes 8 s0
      (repeat (Increment 5) 255) = Ok s1 /\
    getCount shifting_hashInt shifting_combineHashes 8 s1 5 = Ok 255 /\
    resetCount shifting_hashInt shifting_combineHashes 8 s1 5 = Ok s2 /\
    cell s2 (column_at shifting_hashInt shifting_combineHashes 2147483656 0 5)
    = 1.
Proof.
  assert (H0 : 0 < 8) by lia.
  assert (H1 : 2 ^ 31 < 2147483656) by (vm_compute; reflexivity).
  assert (H2 : 3 * 2147483656 < 2 ^ 33) by (vm_compute; reflexivity).
  assert (H3 : column_at shifting_hashInt shifting_combineHashes
                 2147483656 1 5 < 2 * 2147483656 - 2 ^ 32)
    by (vm_compute; reflexivity).
  assert (H4 : column_at shifting_hashInt shifting_combineHashes
                 2147483656 0 5
               = 2 * 2147483656 - 2 ^ 32
                 + column_at shifting_hashInt shifting_combineHashes
                     2147483656 2 5)
    by (vm_compute; reflexivity).
  split; [auto 6|]. split; [vm_compute; reflexivity|].
  destruct (resetCount_shared_cell shifting_hashInt shifting_combineHashes 8
              2147483656 5 255 H0 H1 H2 H3 H4)
    as (s0 & s1 & s2 & c & Hnew & _ & _ & _ & Hrun & Hget & Hc & Hreset &
        _ & _ & Hwrap).
  vm_compute in Hc. subst c.
  destruct Hwrap as [_ Hcell]; [vm_compute; discriminate|].
  exists s0, s1, s2. auto.
Defined.
